(** * condor_watch_q: the job state tracker, the aggregation of rows and
      totals, the progress bar, the summary line and the exit codes;
      and further the table, the colours, the actions of the command
      line and the search for the event logs.

    The development follows [src/condor_watch_q.py].  Python dictionaries
    keep insertion order, so they are association lists with unique keys;
    integers are [Z]; strings are [string]; the floats of the progress bar
    and of the percentages are IEEE 754 binary64 numbers, written with
    the [spec_float] operations of the standard library. *)

From Stdlib Require Import ZArith List Bool String Ascii Lia Permutation.
From Stdlib Require Import DecimalString.
From Stdlib Require DecimalZ.
From Stdlib Require Import Sorting.Sorted FinFun.
From Stdlib Require Import Floats.SpecFloat.
Import ListNotations.

Local Open Scope Z_scope.
Local Open Scope string_scope.

(* ================================================================== *)
(** * Python dictionaries *)
(* ================================================================== *)

(** The [==] of the keys of a dictionary. *)
Class EqKey (K : Type) := keqb : K -> K -> bool.

(** [keqb] decides equality. *)
Class EqKeyLaws (K : Type) `{EqKey K} :=
  keqb_spec : forall x y : K, reflect (x = y) (keqb x y).

#[export] Instance EqKey_Z : EqKey Z := Z.eqb.
#[export] Instance EqKey_string : EqKey string := String.eqb.

Section Dict.
Context {K V : Type} `{EqKey K}.

(** A [dict]: the items in insertion order. *)
Definition dict := list (K * V).

Definition keys (d : dict) : list K := map fst d.
Definition values (d : dict) : list V := map snd d.

(** [d.get(k)] *)
Fixpoint dict_get (k : K) (d : dict) : option V :=
  match d with
  | [] => None
  | (k', v) :: d' => if keqb k k' then Some v else dict_get k d'
  end.

(** [k in d] *)
Definition dict_mem (k : K) (d : dict) : bool :=
  match dict_get k d with Some _ => true | None => false end.

(** [d[k] = v]: an existing key keeps its place, a new one goes last. *)
Fixpoint dict_set (k : K) (v : V) (d : dict) : dict :=
  match d with
  | [] => [(k, v)]
  | (k', v') :: d' =>
      if keqb k k' then (k', v) :: d' else (k', v') :: dict_set k v d'
  end.

(** [d.pop(k)] on a present key (the value is dropped). *)
Fixpoint dict_remove (k : K) (d : dict) : dict :=
  match d with
  | [] => []
  | (k', v') :: d' =>
      if keqb k k' then d' else (k', v') :: dict_remove k d'
  end.

End Dict.

Arguments dict : clear implicits.

(* ================================================================== *)
(** * Job statuses, columns and cell values *)
(* ================================================================== *)

(** [class JobStatus(enum.Enum)], in definition order. *)
Inductive JobStatus :=
| REMOVED | HELD | IDLE | RUNNING | COMPLETED | TRANSFERRING_OUTPUT | SUSPENDED.

(** Iterating [JobStatus] yields the members in definition order. *)
Definition JobStatus_members : list JobStatus :=
  [REMOVED; HELD; IDLE; RUNNING; COMPLETED; TRANSFERRING_OUTPUT; SUSPENDED].

(** [JobStatus.ordered()] *)
Definition ordered : list JobStatus :=
  [REMOVED; HELD; SUSPENDED; IDLE; RUNNING; TRANSFERRING_OUTPUT; COMPLETED].

Definition JobStatus_eqb (a b : JobStatus) : bool :=
  match a, b with
  | REMOVED, REMOVED | HELD, HELD | IDLE, IDLE | RUNNING, RUNNING
  | COMPLETED, COMPLETED | TRANSFERRING_OUTPUT, TRANSFERRING_OUTPUT
  | SUSPENDED, SUSPENDED => true
  | _, _ => false
  end.

#[export] Instance EqKey_JobStatus : EqKey JobStatus := JobStatus_eqb.

(** [ACTIVE_STATES] *)
Definition ACTIVE_STATES : list JobStatus :=
  [IDLE; RUNNING; TRANSFERRING_OUTPUT; HELD; SUSPENDED].

Definition is_active (s : JobStatus) : bool :=
  existsb (JobStatus_eqb s) ACTIVE_STATES.

(** The keys of a row: a [JobStatus] member or a plain string.  An enum
    member never equals a string, whatever its value. *)
Inductive Column :=
| Status (s : JobStatus)
| Name (n : string).

Definition Column_eqb (a b : Column) : bool :=
  match a, b with
  | Status s, Status t => JobStatus_eqb s t
  | Name n, Name m => String.eqb n m
  | _, _ => false
  end.

#[export] Instance EqKey_Column : EqKey Column := Column_eqb.

Definition TOTAL : Column := Name "TOTAL".
Definition ACTIVE_JOBS : Column := Name "JOB_IDS".
Definition EVENT_LOG : Column := Name "LOG".
Definition CLUSTER_ID : Column := Name "CLUSTER".
Definition BATCH_NAME : Column := Name "BATCH".

(** The values a cell or a group attribute can hold: an integer, a
    string, or [None] (a batch name that the queue did not give). *)
Inductive Value :=
| VInt (z : Z)
| VStr (s : string)
| VNone.

Definition Value_eqb (a b : Value) : bool :=
  match a, b with
  | VInt x, VInt y => Z.eqb x y
  | VStr s, VStr t => String.eqb s t
  | VNone, VNone => true
  | _, _ => false
  end.

#[export] Instance EqKey_Value : EqKey Value := Value_eqb.

(** [v == 0] *)
Definition is_zero (v : Value) : bool :=
  match v with VInt z => Z.eqb z 0 | VStr _ => false | VNone => false end.

(** [ALWAYS_INCLUDE] *)
Definition ALWAYS_INCLUDE : list Column :=
  [Status IDLE; Status RUNNING; Status COMPLETED; EVENT_LOG; TOTAL].

(** [HEADERS = list(JobStatus.ordered()) + [TOTAL, ACTIVE_JOBS]] *)
Definition HEADERS : list Column :=
  map Status ordered ++ [TOTAL; ACTIVE_JOBS].

(* ================================================================== *)
(** * Events and the job state tracker *)
(* ================================================================== *)

(** The kinds of [htcondor.JobEventType] that the transition table names;
    [OTHER_EVENT] stands for any other member of that enumeration, told
    apart by its number. *)
Inductive JobEventType :=
| SUBMIT | JOB_EVICTED | JOB_UNSUSPENDED | JOB_RELEASED | SHADOW_EXCEPTION
| JOB_RECONNECT_FAILED | JOB_TERMINATED | EXECUTE | JOB_HELD
| JOB_SUSPENDED | JOB_ABORTED
| OTHER_EVENT (code : N).

(** [JOB_EVENT_STATUS_TRANSITIONS.get(event.type, None)] *)
Definition JOB_EVENT_STATUS_TRANSITIONS (t : JobEventType) : option JobStatus :=
  match t with
  | SUBMIT => Some IDLE
  | JOB_EVICTED => Some IDLE
  | JOB_UNSUSPENDED => Some IDLE
  | JOB_RELEASED => Some IDLE
  | SHADOW_EXCEPTION => Some IDLE
  | JOB_RECONNECT_FAILED => Some IDLE
  | JOB_TERMINATED => Some COMPLETED
  | EXECUTE => Some RUNNING
  | JOB_HELD => Some HELD
  | JOB_SUSPENDED => Some SUSPENDED
  | JOB_ABORTED => Some REMOVED
  | OTHER_EVENT _ => None
  end.

(** A job event as the tracker reads it: [event.type], [event.cluster]
    and [event.proc]. *)
Record JobEvent := {
  ev_type : JobEventType;
  ev_cluster : Z;
  ev_proc : Z
}.

(** What [next(events)] gives while the reader has something: an event,
    or an exception other than [StopIteration] with its text. *)
Inductive ReaderItem :=
| Parsed (e : JobEvent)
| ParseFailure (reason : string).

(** [class Cluster] *)
Record Cluster := {
  cluster_id : Z;
  event_log_path : string;
  _batch_name : option string;
  job_to_state : dict Z JobStatus
}.

(** [class JobStateTracker]: the hints of the batch names and the
    clusters seen so far.  The event readers are cursors into the event
    logs; each call of [process_events] is given what they hold. *)
Record JobStateTracker := {
  batch_names : dict Z (option string);
  cluster_id_to_cluster : dict Z Cluster
}.

(** [JobStateTracker(event_logs, batch_names)] *)
Definition new_tracker (names : dict Z (option string)) : JobStateTracker :=
  {| batch_names := names; cluster_id_to_cluster := [] |}.

(** [self.batch_names.get(event.cluster)]: a missing key and a stored
    [None] both give [None]. *)
Definition batch_name_hint (names : dict Z (option string)) (c : Z)
  : option string :=
  match dict_get c names with
  | Some h => h
  | None => None
  end.

(** [cluster[proc] = status] *)
Definition cluster_setitem (c : Cluster) (proc : Z) (s : JobStatus) : Cluster :=
  {| cluster_id := cluster_id c;
     event_log_path := event_log_path c;
     _batch_name := _batch_name c;
     job_to_state := dict_set proc s (job_to_state c) |}.

(** The body of the loop of [process_events] for an event that was read
    from [path].  [setdefault] gives the cluster that is stored under the
    id of the event, or stores a fresh one at the end of the dictionary;
    the assignment [cluster[event.proc] = new_status] then changes that
    cluster where it is stored. *)
Definition apply_event (path : string) (t : JobStateTracker) (e : JobEvent)
  : JobStateTracker :=
  match JOB_EVENT_STATUS_TRANSITIONS (ev_type e) with
  | None => t
  | Some new_status =>
      let fresh :=
        {| cluster_id := ev_cluster e;
           event_log_path := path;
           _batch_name := batch_name_hint (batch_names t) (ev_cluster e);
           job_to_state := [] |} in
      let cluster :=
        match dict_get (ev_cluster e) (cluster_id_to_cluster t) with
        | Some c => c
        | None => fresh
        end in
      {| batch_names := batch_names t;
         cluster_id_to_cluster :=
           dict_set (ev_cluster e) (cluster_setitem cluster (ev_proc e) new_status)
                    (cluster_id_to_cluster t) |}
  end.

(** [fmt_error] *)
Definition fmt_error (msg : string) : string := "ERROR: " ++ msg.

Definition parse_failure_message (path reason : string) : string :=
  fmt_error ("Failed to parse event from " ++ path ++ ". Reason: " ++ reason).

(** The [while True] loop over one reader, until [StopIteration]. *)
Fixpoint drain_reader (path : string) (items : list ReaderItem)
    (acc : list string * JobStateTracker) : list string * JobStateTracker :=
  match items with
  | [] => acc
  | ParseFailure reason :: rest =>
      drain_reader path rest
        ((fst acc ++ [parse_failure_message path reason])%list, snd acc)
  | Parsed e :: rest =>
      drain_reader path rest (fst acc, apply_event path (snd acc) e)
  end.

(** [process_events]: [readers] lists [self.event_readers.items()] with
    what each reader yields during this call.  The result is the list of
    messages and the tracker afterwards. *)
Fixpoint process_readers (readers : list (string * list ReaderItem))
    (acc : list string * JobStateTracker) : list string * JobStateTracker :=
  match readers with
  | [] => acc
  | (path, items) :: rest => process_readers rest (drain_reader path items acc)
  end.

Definition process_events (t : JobStateTracker)
    (readers : list (string * list ReaderItem)) : list string * JobStateTracker :=
  process_readers readers ([], t).

(** [tracker.clusters] *)
Definition clusters (t : JobStateTracker) : list Cluster :=
  values (cluster_id_to_cluster t).

(** [tracker.job_states] *)
Definition job_states (t : JobStateTracker) : list JobStatus :=
  flat_map (fun c => values (job_to_state c)) (clusters t).

(** The status the tracker holds for job [c.p], if any. *)
Definition job_status (t : JobStateTracker) (c p : Z) : option JobStatus :=
  match dict_get c (cluster_id_to_cluster t) with
  | Some cl => dict_get p (job_to_state cl)
  | None => None
  end.

(* ================================================================== *)
(** * Exceptions *)
(* ================================================================== *)

(** The exceptions the modelled code can raise. *)
Inductive PyError :=
| KeyError | TypeError | ValueError | OverflowError | IndexError.

(** A computation that returns or raises. *)
Inductive result (A : Type) :=
| Ok (a : A)
| Raise (e : PyError).

Arguments Ok {A} a.
Arguments Raise {A} e.

Definition bind {A B : Type} (m : result A) (k : A -> result B) : result B :=
  match m with
  | Ok a => k a
  | Raise e => Raise e
  end.

Notation "x <- m ;; k" := (bind m (fun x => k))
  (at level 61, m at next level, right associativity).

(** Running [f] on every element, left to right, until one raises. *)
Fixpoint mapM {A B : Type} (f : A -> result B) (l : list A) : result (list B) :=
  match l with
  | [] => Ok []
  | x :: l' => y <- f x ;; ys <- mapM f l' ;; Ok (y :: ys)
  end.

(** A [for] loop that threads a state. *)
Fixpoint foldM {A S : Type} (f : S -> A -> result S) (l : list A) (s : S)
  : result S :=
  match l with
  | [] => Ok s
  | x :: l' => s' <- f s x ;; foldM f l' s'
  end.

(** [d[k]] on a plain dictionary. *)
Definition getitem {K V : Type} `{EqKey K} (k : K) (d : dict K V) : result V :=
  match dict_get k d with
  | Some v => Ok v
  | None => Raise KeyError
  end.

(** [d.pop(k)] *)
Definition pop {K V : Type} `{EqKey K} (k : K) (d : dict K V)
  : result (dict K V) :=
  match dict_get k d with
  | Some _ => Ok (dict_remove k d)
  | None => Raise KeyError
  end.

(* ================================================================== *)
(** * Strings *)
(* ================================================================== *)

(** [str(n)] and ["{}".format(n)] for an integer. *)
Definition string_of_Z (z : Z) : string := NilZero.string_of_int (Z.to_int z).

(** [s.split(sep)] for a separator of one character. *)
Fixpoint split_on (sep : ascii) (s : string) : list string :=
  match s with
  | EmptyString => [EmptyString]
  | String c s' =>
      if Ascii.eqb c sep then EmptyString :: split_on sep s'
      else match split_on sep s' with
           | [] => [String c EmptyString]
           | h :: t => String c h :: t
           end
  end.

(** [a < b] for two lists of strings: the first place where they differ
    decides, and a proper prefix is smaller. *)
Fixpoint list_string_ltb (a b : list string) : bool :=
  match a, b with
  | _, [] => false
  | [], _ :: _ => true
  | x :: a', y :: b' =>
      match String.compare x y with
      | Lt => true
      | Gt => false
      | Eq => list_string_ltb a' b'
      end
  end.

(** [list.sort(key=...)] and [sorted(..., key=...)]: the sort is stable
    and compares keys with [<] only, so its result is the one of this
    insertion sort. *)
Section Sort.
Context {A K : Type} (ltb : K -> K -> bool) (key : A -> K).

Fixpoint insert_by (x : A) (l : list A) : list A :=
  match l with
  | [] => [x]
  | y :: l' => if ltb (key y) (key x) then y :: insert_by x l' else x :: l
  end.

Fixpoint sort_by (l : list A) : list A :=
  match l with
  | [] => []
  | x :: l' => insert_by x (sort_by l')
  end.
End Sort.

(* ================================================================== *)
(** * Grouping clusters *)
(* ================================================================== *)

(** The attributes of a [Cluster] that rows can be grouped by. *)
Inductive GroupBy := By_event_log_path | By_cluster_id | By_batch_name.

(** [GROUPBY_ATTRIBUTE_TO_AD_KEY] *)
Definition GROUPBY_ATTRIBUTE_TO_AD_KEY (a : GroupBy) : Column :=
  match a with
  | By_event_log_path => EVENT_LOG
  | By_cluster_id => CLUSTER_ID
  | By_batch_name => BATCH_NAME
  end.

(** [GROUPBY_AD_KEY_TO_ATTRIBUTE[key]] *)
Definition GROUPBY_AD_KEY_TO_ATTRIBUTE (key : Column) : result GroupBy :=
  if keqb key EVENT_LOG then Ok By_event_log_path
  else if keqb key CLUSTER_ID then Ok By_cluster_id
  else if keqb key BATCH_NAME then Ok By_batch_name
  else Raise KeyError.

(** The property [Cluster.batch_name]: [or] takes the second operand when
    the first is [None] or the empty string. *)
Definition batch_name (c : Cluster) : string :=
  match _batch_name c with
  | Some (String a s) => String a s
  | _ => "ID: " ++ string_of_Z (cluster_id c)
  end.

(** [operator.attrgetter(attribute)(cluster)] *)
Definition getter (a : GroupBy) (c : Cluster) : Value :=
  match a with
  | By_event_log_path => VStr (event_log_path c)
  | By_cluster_id => VInt (cluster_id c)
  | By_batch_name => VStr (batch_name c)
  end.

(** [groups[v].append(c)] on a [defaultdict(list)]. *)
Definition groups_append (groups : dict Value (list Cluster)) (v : Value)
    (c : Cluster) : dict Value (list Cluster) :=
  match dict_get v groups with
  | Some l => dict_set v (l ++ [c])%list groups
  | None => dict_set v [c] groups
  end.

(** [group_clusters_by_key] *)
Definition group_clusters_by_key (cs : list Cluster) (key : Column)
  : result (dict Value (list Cluster)) :=
  a <- GROUPBY_AD_KEY_TO_ATTRIBUTE key ;;
  Ok (fold_left (fun groups c => groups_append groups (getter a c) c) cs []).

(** [{v: k for k, v in d.items()}] *)
Definition reverse_dict (d : dict Z string) : dict string Z :=
  fold_left (fun acc kv => dict_set (snd kv) (fst kv) acc) d [].

(** A batch name hint as a value. *)
Definition value_of_hint (h : option string) : Value :=
  match h with
  | Some s => VStr s
  | None => VNone
  end.

(** [group_jobs_by_dag]: only the clusters whose event log is the nodes
    log of a DAGMan job are grouped, under the batch name of that job. *)
Definition group_jobs_by_dag (cs : list Cluster)
    (dagman_clusters_to_path : dict Z string)
    (names : dict Z (option string)) : result (dict Value (list Cluster)) :=
  let dagman_path_to_clusters := reverse_dict dagman_clusters_to_path in
  foldM (fun groups c =>
           match dict_get (event_log_path c) dagman_path_to_clusters with
           | Some k =>
               h <- getitem k names ;;
               Ok (groups_append groups (value_of_hint h) c)
           | None => Ok groups
           end) cs [].

(* ================================================================== *)
(** * Rows and totals *)
(* ================================================================== *)

(** A row: [JobStatus] members, [TOTAL], [ACTIVE_JOBS] and the grouping
    key, with their cells. *)
Definition Row := dict Column Value.

(** [a + b] where [b] is an integer. *)
Definition add_int (a : Value) (b : Z) : result Value :=
  match a with
  | VInt n => Ok (VInt (n + b))
  | _ => Raise TypeError
  end.

(** [row_data[c] += n] *)
Definition row_add (c : Column) (n : Z) (row : Row) : result Row :=
  v <- getitem c row ;;
  v' <- add_int v n ;;
  Ok (dict_set c v' row).

(** [sum(values)]: the additions start from [0]. *)
Definition sum_values (vs : list Value) : result Z :=
  foldM (fun acc v => match v with
                      | VInt n => Ok (acc + n)
                      | _ => Raise TypeError
                      end) vs 0.

(** ["{}.{}".format(cluster_id, proc_id)] *)
Definition job_id_string (cid proc : Z) : string :=
  string_of_Z cid ++ "." ++ string_of_Z proc.

(** The two nested loops of [row_data_from_job_state] over the jobs of
    the clusters: the state is [(row_data, active_job_ids)]. *)
Definition count_job (cid : Z) (st : Row * list string) (job : Z * JobStatus)
  : result (Row * list string) :=
  row <- row_add (Status (snd job)) 1 (fst st) ;;
  Ok (row,
      if is_active (snd job)
      then (snd st ++ [job_id_string cid (fst job)])%list
      else snd st).

Definition count_cluster (st : Row * list string) (c : Cluster)
  : result (Row * list string) :=
  foldM (count_job (cluster_id c)) (job_to_state c) st.

(** The key of the sort of the active job identifiers:
    [jobid.split(".")]. *)
Definition job_id_key (jobid : string) : list string := split_on "." jobid.

(** The text of the [ACTIVE_JOBS] cell from the sorted identifiers. *)
Definition active_jobs_text (sorted_ids : list string) : string :=
  if Nat.ltb 2 (List.length sorted_ids)
  then String.concat " ... "
         [hd EmptyString sorted_ids; last sorted_ids EmptyString]
  else String.concat ", " sorted_ids.

(** [row_data_from_job_state] *)
Definition row_data_from_job_state (cs : list Cluster) : result Row :=
  let row_data := map (fun js => (Status js, VInt 0)) JobStatus_members in
  st <- foldM count_cluster cs (row_data, []) ;;
  total <- sum_values (values (fst st)) ;;
  let row_data := dict_set TOTAL (VInt total) (fst st) in
  let active_job_ids := sort_by list_string_ltb job_id_key (snd st) in
  Ok (dict_set ACTIVE_JOBS (VStr (active_jobs_text active_job_ids)) row_data).

(** [totals[c] += v] on a [defaultdict(int)]. *)
Definition totals_add (c : Column) (v : Value) (totals : dict Column Z)
  : result (dict Column Z) :=
  let old := match dict_get c totals with Some n => n | None => 0 end in
  match v with
  | VInt n => Ok (dict_set c (old + n) totals)
  | _ => Raise TypeError
  end.

Section Aggregation.
(** [nice_path] reads the working directory and the home directory of
    the process through [os.path]; it only shapes the cell of the [LOG]
    column, and it is taken as given on strings. *)
Variable nice_path : string -> string.

(** The cell of the grouping column: [nice_path(attribute_value)] when
    the key is [EVENT_LOG] ([os.path] refuses what is not a string),
    the attribute value itself otherwise. *)
Definition key_cell (key : Column) (attribute_value : Value) : result Value :=
  if keqb key EVENT_LOG
  then match attribute_value with
       | VStr p => Ok (VStr (nice_path p))
       | _ => Raise TypeError
       end
  else Ok attribute_value.

(** The body of the loop of [make_rows_from_groups]. *)
Definition add_group (key : Column)
    (st : dict Value Row * dict Column Z)
    (group : Value * list Cluster) : result (dict Value Row * dict Column Z) :=
  row_data <- row_data_from_job_state (snd group) ;;
  t <- getitem TOTAL row_data ;;
  totals <- totals_add TOTAL t (snd st) ;;
  totals <- foldM (fun totals status =>
                     v <- getitem (Status status) row_data ;;
                     totals_add (Status status) v totals)
                  JobStatus_members totals ;;
  cell <- key_cell key (fst group) ;;
  let row_data := dict_set key cell row_data in
  Ok (dict_set (fst group) row_data (fst st), totals).

(** [make_rows_from_groups]: the rows by group and the totals. *)
Definition make_rows_from_groups (groups : dict Value (list Cluster))
    (key : Column) : result (dict Value Row * dict Column Z) :=
  foldM (add_group key) groups ([], []).
End Aggregation.

(** [totals[c]] on the [defaultdict(int)] (a read of a missing key gives
    [0]). *)
Definition totals_get (c : Column) (totals : dict Column Z) : Z :=
  match dict_get c totals with Some n => n | None => 0 end.

(* ================================================================== *)
(** * Pruning empty columns *)
(* ================================================================== *)

(** [all(row[h] == 0 for row in rows)]: the generator stops at the first
    row whose cell is not zero. *)
Fixpoint all_zero (h : Column) (rows : list Row) : result bool :=
  match rows with
  | [] => Ok true
  | row :: rest =>
      v <- getitem h row ;;
      if is_zero v then all_zero h rest else Ok false
  end.

(** The first loop of [strip_empty_columns]: the headers whose cell is
    zero in every row. *)
Fixpoint empty_columns (hs : list Column) (rows : list Row)
  : result (list Column) :=
  match hs with
  | [] => Ok []
  | h :: hs' =>
      b <- all_zero h rows ;;
      rest <- empty_columns hs' rows ;;
      Ok (if b then h :: rest else rest)
  end.

(** [h in s] for a set given by its elements. *)
Definition column_in (h : Column) (s : list Column) : bool :=
  existsb (keqb h) s.

(** [for row in rows_by_key.values(): row.pop(h)] *)
Definition pop_column (rows_by_key : dict Value Row) (h : Column)
  : result (dict Value Row) :=
  mapM (fun kr => row <- pop h (snd kr) ;; Ok (fst kr, row)) rows_by_key.

(** [strip_empty_columns].  [dont_include] is a set; its elements are
    kept here in the order of [HEADERS], and the rows are popped in that
    order. *)
Definition strip_empty_columns (rows_by_key : dict Value Row)
  : result (list Column * dict Value Row) :=
  empty <- empty_columns HEADERS (values rows_by_key) ;;
  let dont_include :=
    filter (fun h => negb (column_in h ALWAYS_INCLUDE)) empty in
  let headers := filter (fun h => negb (column_in h dont_include)) HEADERS in
  rows <- foldM pop_column dont_include rows_by_key ;;
  Ok (headers, rows).

(** [{k: v for k, v in row.items() if v != 0}] for every row. *)
Definition strip_zero_cells (rows_by_key : dict Value Row) : dict Value Row :=
  map (fun kr => (fst kr, filter (fun kv => negb (is_zero (snd kv))) (snd kr)))
      rows_by_key.

(* ================================================================== *)
(** * Ordering the rows *)
(* ================================================================== *)

(** [min(cluster.cluster_id for cluster in cs)] *)
Definition min_cluster_id (cs : list Cluster) : result Z :=
  match cs with
  | [] => Raise ValueError
  | c :: cs' => Ok (fold_left Z.min (map cluster_id cs') (cluster_id c))
  end.

(** [groups_by_key[k]] on the [defaultdict(list)]. *)
Definition group_of (groups : dict Value (list Cluster)) (k : Value)
  : list Cluster :=
  match dict_get k groups with Some cs => cs | None => [] end.

(** The sort key of a row of [rows_by_key.items()]. *)
Definition row_sort_key (groups : dict Value (list Cluster))
    (key_row : Value * Row) : result Z :=
  min_cluster_id (group_of groups (fst key_row)).

(** [sorted(rows_by_key.items(), key=...)]: the keys of all the items are
    computed first, then the items are sorted by them. *)
Definition sort_rows (groups : dict Value (list Cluster))
    (rows_by_key : dict Value Row) : result (list (Value * Row)) :=
  ks <- mapM (row_sort_key groups) rows_by_key ;;
  Ok (map snd (sort_by Z.ltb fst (combine ks rows_by_key))).

(* ================================================================== *)
(** * Events seen by a tracker *)
(* ================================================================== *)

(** The events that [process_events] reads, with the path of the reader
    that gave each one, in the order in which they are applied. *)
Definition parsed_events (path : string) (items : list ReaderItem)
  : list (string * JobEvent) :=
  flat_map (fun i => match i with
                     | Parsed e => [(path, e)]
                     | ParseFailure _ => []
                     end) items.

Definition events_of (readers : list (string * list ReaderItem))
  : list (string * JobEvent) :=
  flat_map (fun r => parsed_events (fst r) (snd r)) readers.

(** Applying a sequence of events. *)
Definition run_events (evs : list (string * JobEvent)) (t : JobStateTracker)
  : JobStateTracker :=
  fold_left (fun t pe => apply_event (fst pe) t (snd pe)) evs t.

(** A fresh tracker after one call of [process_events] per tick. *)
Definition tracker_after (names : dict Z (option string))
    (ticks : list (list (string * list ReaderItem))) : JobStateTracker :=
  fold_left (fun t readers => snd (process_events t readers)) ticks
            (new_tracker names).

Definition events_of_ticks (ticks : list (list (string * list ReaderItem)))
  : list (string * JobEvent) :=
  flat_map events_of ticks.

(** An event whose kind has a status in the transition table. *)
Definition mapped (e : JobEvent) : bool :=
  match JOB_EVENT_STATUS_TRANSITIONS (ev_type e) with
  | Some _ => true
  | None => false
  end.

(** The job an event addresses. *)
Definition job_of (e : JobEvent) : Z * Z := (ev_cluster e, ev_proc e).

Definition job_eq_dec (a b : Z * Z) : {a = b} + {a <> b}.
Proof. decide equality; apply Z.eq_dec. Defined.

(** The distinct (cluster id, proc id) pairs that the events with a
    mapped status refer to. *)
Definition referenced_jobs (evs : list (string * JobEvent)) : list (Z * Z) :=
  nodup job_eq_dec (map job_of (filter mapped (map snd evs))).

(** The jobs a tracker holds. *)
Definition tracker_jobs (t : JobStateTracker) : list (Z * Z) :=
  flat_map (fun kc => map (fun p => (fst kc, p)) (keys (job_to_state (snd kc))))
           (cluster_id_to_cluster t).

(** The part of a tick of [watch_q] that groups the clusters and builds
    the rows and the totals. *)
Definition aggregate (nice_path : string -> string) (dag : bool) (a : GroupBy)
    (dagman_clusters_to_path : dict Z string) (t : JobStateTracker)
  : result (dict Value (list Cluster) * dict Value Row * dict Column Z) :=
  let key := GROUPBY_ATTRIBUTE_TO_AD_KEY a in
  groups_by_key <-
    (if dag
     then group_jobs_by_dag (clusters t) dagman_clusters_to_path (batch_names t)
     else group_clusters_by_key (clusters t) key) ;;
  rt <- make_rows_from_groups nice_path groups_by_key key ;;
  Ok (groups_by_key, fst rt, snd rt).

(** [sum(totals[s] for s in JobStatus)] *)
Definition sum_of_statuses (totals : dict Column Z) : Z :=
  fold_right (fun s acc => totals_get (Status s) totals + acc) 0
             JobStatus_members.

(* ================================================================== *)
(** * Floats *)
(* ================================================================== *)

(** A Python float is an IEEE 754 binary64 number: 53 bits of mantissa,
    infinities at exponent 1024.  The division [/] and [round] are those
    of Python 3: [/] on two integers is the true division, and [round]
    of a float is an integer. *)
Definition prec : Z := 53.
Definition emax : Z := 1024.

(** The numbers that [safe_divide] returns: the integer default or a
    float. *)
Inductive Number :=
| NInt (z : Z)
| NFloat (f : spec_float).

(** [float(n)] for an integer, and the conversion of the integer operand
    of [int * float] and [int / float]: the nearest float, ties to even;
    an integer beyond the largest float raises. *)
Definition float_of_int (n : Z) : result spec_float :=
  match binary_normalize prec emax n 0 false with
  | S754_infinity _ => Raise OverflowError
  | f => Ok f
  end.

(** The integer [n] as an unrounded binary number, for the true division
    of two integers. *)
Definition exact_int (n : Z) : spec_float :=
  match n with
  | Z0 => S754_zero false
  | Zpos p => S754_finite false p 0
  | Zneg p => S754_finite true p 0
  end.

(** [bool(x)] is false for both zeros. *)
Definition float_is_zero (f : spec_float) : bool :=
  match f with S754_zero _ => true | _ => false end.

Definition number_is_zero (x : Number) : bool :=
  match x with
  | NInt z => Z.eqb z 0
  | NFloat f => float_is_zero f
  end.

(** [numerator / denominator] for an integer numerator and a divisor
    that is not zero: by a float, the quotient of the two floats; by an
    integer, the correctly rounded quotient of the two integers, which
    raises when it is beyond the largest float. *)
Definition true_divide (numerator : Z) (denominator : Number)
  : result spec_float :=
  match denominator with
  | NFloat d => n <- float_of_int numerator ;; Ok (SFdiv prec emax n d)
  | NInt d =>
      match SFdiv prec emax (exact_int numerator) (exact_int d) with
      | S754_infinity _ => Raise OverflowError
      | q => Ok q
      end
  end.

(** [safe_divide(numerator, denominator)] with the default [0]; the
    numerator is an integer or [None].  The [ZeroDivisionError] that the
    source catches cannot arise, a zero divisor being handled first. *)
Definition safe_divide (numerator : option Z) (denominator : Number)
  : result Number :=
  match numerator with
  | None => Ok (NInt 0)
  | Some n =>
      if Z.eqb n 0 || number_is_zero denominator then Ok (NInt 0)
      else q <- true_divide n denominator ;; Ok (NFloat q)
  end.

(** [int(x)] for a float: towards zero. *)
Definition int_of_float (f : spec_float) : result Z :=
  match f with
  | S754_zero _ => Ok 0
  | S754_finite s m e => Ok (cond_Zopp s (Z.shiftl (Zpos m) e))
  | S754_infinity _ => Raise OverflowError
  | S754_nan => Raise ValueError
  end.

(** [round(x)] for a float: the nearest integer, ties to even. *)
Definition round_float (f : spec_float) : result Z :=
  match f with
  | S754_zero _ => Ok 0
  | S754_finite s m e =>
      if (0 <=? e)%Z then Ok (cond_Zopp s (Z.shiftl (Zpos m) e))
      else
        let d := 2 ^ (- e) in
        let q := Zpos m / d in
        let r := Zpos m mod d in
        Ok (cond_Zopp s
              match 2 * r ?= d with
              | Lt => q
              | Gt => q + 1
              | Eq => if Z.even q then q else q + 1
              end)
  | S754_infinity _ => Raise OverflowError
  | S754_nan => Raise ValueError
  end.

(** [x * y] for a float [x] or an integer [x] and a number [y]. *)
Definition float_times (x : spec_float) (y : Number) : result spec_float :=
  match y with
  | NFloat f => Ok (SFmul prec emax x f)
  | NInt z => f <- float_of_int z ;; Ok (SFmul prec emax x f)
  end.

(* ================================================================== *)
(** * The progress bar *)
(* ================================================================== *)

(** [class Color]: the escape sequences that the bar uses. *)
Definition ESC : string := String (ascii_of_nat 27) EmptyString.
Definition GREEN : string := ESC ++ "[32m".
Definition CYAN : string := ESC ++ "[36m".
Definition BRIGHT_YELLOW : string := ESC ++ "[33;1m".
Definition RED : string := ESC ++ "[31m".
Definition RESET : string := ESC ++ "[0m".

(** [colorize] *)
Definition colorize (s color : string) : string := color ++ s ++ RESET.

(** [PROGRESS_BAR_ORDER] *)
Definition PROGRESS_BAR_ORDER : list JobStatus :=
  [COMPLETED; RUNNING; IDLE; HELD; SUSPENDED; REMOVED].

(** [PROGRESS_BAR_CHARS_AND_COLORS[status]]; [TRANSFERRING_OUTPUT] is no
    key of that table. *)
Definition PROGRESS_BAR_CHARS_AND_COLORS (s : JobStatus)
  : result (string * string) :=
  match s with
  | COMPLETED => Ok (GREEN, "#")
  | RUNNING => Ok (CYAN, "=")
  | IDLE => Ok (BRIGHT_YELLOW, "-")
  | HELD => Ok (RED, "!")
  | SUSPENDED => Ok (RED, "!")
  | REMOVED => Ok (RED, "!")
  | TRANSFERRING_OUTPUT => Raise KeyError
  end.

(** [s * n]: nothing when [n] is not positive. *)
Definition string_times (s : string) (n : Z) : string :=
  String.concat EmptyString (repeat s (Z.to_nat n)).

(** The width of the bar between its brackets. *)
Definition effective_width (width : Z) : Z := Z.min width 79 - 2.

(** The list [fractions]: the statuses are read with [totals.get], in
    the order written in the source. *)
Definition bar_fractions (totals : dict Column Z) : result (list Number) :=
  num_total <- float_of_int (totals_get TOTAL totals) ;;
  mapM (fun s => safe_divide (dict_get (Status s) totals) (NFloat num_total))
       [COMPLETED; RUNNING; IDLE; HELD; SUSPENDED; REMOVED].

(** [int(width * f)] *)
Definition section_length (width : Z) (f : Number) : result Z :=
  match f with
  | NInt z => Ok (width * z)
  | NFloat x =>
      w <- float_of_int width ;;
      int_of_float (SFmul prec emax w x)
  end.

(** [sum(l)] for integers. *)
Definition sum (l : list Z) : Z := fold_left Z.add l 0.

(** [argmax]: [max] keeps the first of the greatest elements. *)
Fixpoint argmax_from (i best_i : nat) (best : Z) (l : list Z) : nat :=
  match l with
  | [] => best_i
  | x :: l' =>
      if (best <? x)%Z then argmax_from (S i) i x l'
      else argmax_from (S i) best_i best l'
  end.

Definition argmax (collection : list Z) : result nat :=
  match collection with
  | [] => Raise ValueError
  | x :: l => Ok (argmax_from 1 0 x l)
  end.

(** [l[i] += d] *)
Fixpoint add_at (i : nat) (d : Z) (l : list Z) : result (list Z) :=
  match l, i with
  | [], _ => Raise IndexError
  | x :: l', O => Ok ((x + d) :: l')
  | x :: l', S i' => l'' <- add_at i' d l' ;; Ok (x :: l'')
  end.

(** The list [bar_section_lengths] before and after the space lost to
    rounding is given to the longest section. *)
Definition truncated_lengths (totals : dict Column Z) (width : Z)
  : result (list Z) :=
  let width := effective_width width in
  fractions <- bar_fractions totals ;;
  mapM (section_length width) fractions.

Definition bar_section_lengths (totals : dict Column Z) (width : Z)
  : result (list Z) :=
  lengths <- truncated_lengths totals width ;;
  i <- argmax lengths ;;
  add_at i (effective_width width - sum lengths) lengths.

(** [zip(PROGRESS_BAR_ORDER, bar_section_lengths)] and the sections. *)
Definition bar_section (color : bool) (sl : JobStatus * Z) : result string :=
  cc <- PROGRESS_BAR_CHARS_AND_COLORS (fst sl) ;;
  let text := string_times (snd cc) (snd sl) in
  Ok (if color then colorize text (fst cc) else text).

(** [make_progress_bar] on the totals of [make_rows_from_groups]. *)
Definition make_progress_bar (totals : dict Column Z) (width : Z)
    (color : bool) : result (list string) :=
  lengths <- bar_section_lengths totals width ;;
  sections <- mapM (bar_section color) (combine PROGRESS_BAR_ORDER lengths) ;;
  Ok ["[" ++ String.concat EmptyString sections ++ "]"].

(* ================================================================== *)
(** * The summary line with percentages *)
(* ================================================================== *)

(** [SUMMARY_STATES] and [SUMMARY_MESSAGES] *)
Definition SUMMARY_STATES : list JobStatus :=
  [COMPLETED; REMOVED; IDLE; RUNNING; HELD; SUSPENDED].

Definition SUMMARY_MESSAGES : list string :=
  ["completed"; "removed"; "idle"; "running"; "held"; "suspended"].

(** [c.upper()] and [c.lower()] for one character. *)
Definition upper_ascii (c : ascii) : ascii :=
  let n := nat_of_ascii c in
  if (97 <=? n)%nat && (n <=? 122)%nat then ascii_of_nat (n - 32) else c.

Definition lower_ascii (c : ascii) : ascii :=
  let n := nat_of_ascii c in
  if (65 <=? n)%nat && (n <=? 90)%nat then ascii_of_nat (n + 32) else c.

Fixpoint lower (s : string) : string :=
  match s with
  | EmptyString => EmptyString
  | String c s' => String (lower_ascii c) (lower s')
  end.

(** [s[0]] *)
Definition first_char (s : string) : result string :=
  match s with
  | EmptyString => Raise IndexError
  | String c _ => Ok (String c EmptyString)
  end.

(** [msg[0].upper()] *)
Definition initial (msg : string) : result string :=
  c <- first_char msg ;;
  Ok (match c with
      | String a _ => String (upper_ascii a) EmptyString
      | EmptyString => EmptyString
      end).

(** [round(100.0 * safe_divide(totals[s], num_total))] *)
Definition percentage (totals : dict Column Z) (s : JobStatus) : result Z :=
  x <- safe_divide (Some (totals_get (Status s) totals))
                   (NInt (totals_get TOTAL totals)) ;;
  hundred <- float_of_int 100 ;;
  p <- float_times hundred x ;;
  round_float p.

(** ["Total: {} jobs; {}".format(total, ", ".join(...))] *)
Definition summary_text (total : Z) (percentages : list Z)
    (labels : list string) : string :=
  "Total: " ++ string_of_Z total ++ " jobs; "
  ++ String.concat ", "
       (map (fun pm => string_of_Z (fst pm) ++ "% " ++ snd pm)
            (combine percentages labels)).

(** [make_summary_with_percentages]; [width] is [None] or an integer.
    The test of the width takes the length of [summary[0]]. *)
Definition make_summary_with_percentages (totals : dict Column Z)
    (width : option Z) : result (list string) :=
  percentages <- mapM (percentage totals) SUMMARY_STATES ;;
  let summary :=
    summary_text (totals_get TOTAL totals) percentages SUMMARY_MESSAGES in
  too_wide <-
    match width with
    | None => Ok false
    | Some w =>
        c <- first_char summary ;;
        Ok (w <? Z.of_nat (String.length c))%Z
    end ;;
  if too_wide : bool
  then
    initials <- mapM initial SUMMARY_MESSAGES ;;
    Ok [summary_text (totals_get TOTAL totals) percentages initials]
  else Ok [summary].

(** The two forms of the line, for the same percentages. *)
Definition full_summary (totals : dict Column Z) : result string :=
  percentages <- mapM (percentage totals) SUMMARY_STATES ;;
  Ok (summary_text (totals_get TOTAL totals) percentages SUMMARY_MESSAGES).

Definition short_summary (totals : dict Column Z) : result string :=
  percentages <- mapM (percentage totals) SUMMARY_STATES ;;
  Ok (summary_text (totals_get TOTAL totals) percentages
                   ["C"; "R"; "I"; "R"; "H"; "S"]).

(* ================================================================== *)
(** * The loop of watch_q and the exit status *)
(* ================================================================== *)

(** What leaves [watch_q] and [cli]: [SystemExit] with the argument of
    [sys.exit], or an exception that derives from [Exception]. *)
Inductive Raised :=
| SystemExit (status : Z)
| Error (e : PyError).

(** [EXIT_GROUPERS[name]] *)
Definition EXIT_GROUPERS (name : string) : result (list bool -> bool) :=
  if String.eqb name "all" then Ok (forallb (fun b => b))
  else if String.eqb name "any" then Ok (existsb (fun b => b))
  else if String.eqb name "none" then Ok (fun l => negb (existsb (fun b => b) l))
  else Raise KeyError.

(** [EXIT_JOB_STATUS_CHECK[name]] *)
Definition EXIT_JOB_STATUS_CHECK (name : string) : result (JobStatus -> bool) :=
  if String.eqb name "active" then Ok is_active
  else if String.eqb name "done" then Ok (fun s => JobStatus_eqb s COMPLETED)
  else if String.eqb name "idle" then Ok (fun s => JobStatus_eqb s IDLE)
  else if String.eqb name "held" then Ok (fun s => JobStatus_eqb s HELD)
  else Raise KeyError.

(** An entry of [exit_checks], without the text that is displayed. *)
Record ExitCheck := {
  exit_grouper : list bool -> bool;
  exit_check : JobStatus -> bool;
  exit_status : Z
}.

(** The loop that builds [exit_checks] from the exit conditions
    [(grouper, checker, exit_status)]. *)
Definition make_exit_checks (exit_conditions : list (string * string * Z))
  : result (list ExitCheck) :=
  mapM (fun c =>
          g <- EXIT_GROUPERS (lower (fst (fst c))) ;;
          k <- EXIT_JOB_STATUS_CHECK (lower (snd (fst c))) ;;
          Ok {| exit_grouper := g; exit_check := k; exit_status := snd c |})
       exit_conditions.

(** [grouper((checker(s) for s in tracker.job_states))] *)
Definition satisfied (t : JobStateTracker) (c : ExitCheck) : bool :=
  exit_grouper c (map (exit_check c) (job_states t)).

(** The [for] loop over [exit_checks] at the end of a tick: the status
    of the first condition that holds, if any. *)
Definition first_satisfied (exit_checks : list ExitCheck) (t : JobStateTracker)
  : option Z :=
  match find (satisfied t) exit_checks with
  | Some c => Some (exit_status c)
  | None => None
  end.

(** What happens during one iteration of the loop: the readers give
    these events and the iteration runs to its end; or the user
    interrupts it; or something in it raises an exception. *)
Inductive Tick :=
| Events (readers : list (string * list ReaderItem))
| Interrupt
| Failure (e : PyError).

(** Where [watch_q] is after some ticks: still in its loop, or left by
    an exception. *)
Inductive Outcome :=
| Running (t : JobStateTracker)
| Left (r : Raised).

(** The [while True] loop inside [try ... except KeyboardInterrupt]. *)
Fixpoint loop (exit_checks : list ExitCheck) (t : JobStateTracker)
    (ticks : list Tick) : Outcome :=
  match ticks with
  | [] => Running t
  | Interrupt :: _ => Left (SystemExit 0)
  | Failure e :: _ => Left (Error e)
  | Events readers :: rest =>
      let t' := snd (process_events t readers) in
      match first_satisfied exit_checks t' with
      | Some status => Left (SystemExit status)
      | None => loop exit_checks t' rest
      end
  end.

(** [watch_q] after [find_job_event_logs] has returned [event_logs] and
    [batch_names]. *)
Definition watch_q (event_logs : list string)
    (names : dict Z (option string))
    (exit_conditions : list (string * string * Z)) (ticks : list Tick)
  : Outcome :=
  if Nat.eqb (List.length event_logs) 0 then Left (SystemExit 0)
  else
    match make_exit_checks exit_conditions with
    | Raise e => Left (Error e)
    | Ok exit_checks => loop exit_checks (new_tracker names) ticks
    end.

(** [cli]: an exception is re-raised in debug mode and turned into
    [sys.exit(1)] otherwise; [SystemExit] is no [Exception] and passes. *)
Definition cli (debug : bool) (event_logs : list string)
    (names : dict Z (option string))
    (exit_conditions : list (string * string * Z)) (ticks : list Tick)
  : Outcome :=
  match watch_q event_logs names exit_conditions ticks with
  | Left (Error e) => if debug then Left (Error e) else Left (SystemExit 1)
  | o => o
  end.

(** The exit status of the process: the argument of [sys.exit], or [1]
    when an exception reaches the top of the program. *)
Definition exit_code (o : Outcome) : option Z :=
  match o with
  | Running _ => None
  | Left (SystemExit status) => Some status
  | Left (Error _) => Some 1
  end.

(* ================================================================== *)
(** * Definitions for the statements *)
(* ================================================================== *)

(** The totals of three jobs: one idle, one running, one held. *)
Definition three_jobs_totals : dict Column Z :=
  [(TOTAL, 3); (Status REMOVED, 0); (Status HELD, 1); (Status IDLE, 1);
   (Status RUNNING, 1); (Status COMPLETED, 0);
   (Status TRANSFERRING_OUTPUT, 0); (Status SUSPENDED, 0)].

(** The order of the specification on (cluster id, proc id) pairs. *)
Definition job_ltb (a b : Z * Z) : bool :=
  (fst a <? fst b)%Z || ((fst a =? fst b)%Z && (snd a <? snd b)%Z).

(** The active jobs of the clusters as pairs, in the order of the
    loops. *)
Definition active_jobs (cs : list Cluster) : list (Z * Z) :=
  flat_map (fun c =>
              map (fun j => (cluster_id c, fst j))
                  (filter (fun j => is_active (snd j)) (job_to_state c))) cs.

(** The cell as the specification words it: the identifiers of the
    active jobs in ascending numeric order of (cluster id, proc id). *)
Definition numeric_active_jobs_text (cs : list Cluster) : string :=
  active_jobs_text
    (map (fun j => job_id_string (fst j) (snd j))
         (sort_by job_ltb (fun j => j) (active_jobs cs))).

(** Eleven jobs of cluster 5 are submitted: procs 0 to 10. *)
Definition eleven_submits : list (list (string * list ReaderItem)) :=
  [[("/home/user/job.log",
     map (fun p => Parsed {| ev_type := SUBMIT; ev_cluster := 5; ev_proc := p |})
         [0; 1; 2; 3; 4; 5; 6; 7; 8; 9; 10])]].

(** The counting part of a row whose count of status [s] is [n s]. *)
Definition counts_row (n : JobStatus -> Z) : Row :=
  map (fun js => (Status js, VInt (n js))) JobStatus_members.

(** How many jobs of the clusters have status [s]. *)
Definition count_jobs (s : JobStatus) (jobs : list (Z * JobStatus)) : Z :=
  Z.of_nat (List.length (filter (fun j => JobStatus_eqb (snd j) s) jobs)).

Definition count_status (s : JobStatus) (cs : list Cluster) : Z :=
  fold_right (fun c acc => count_jobs s (job_to_state c) + acc) 0 cs.

(** How many jobs the clusters hold. *)
Definition number_of_jobs (cs : list Cluster) : Z :=
  fold_right (fun c acc => Z.of_nat (List.length (job_to_state c)) + acc) 0 cs.

(** The identifiers of the active jobs, in the order of the loops. *)
Definition active_ids_of_jobs (cid : Z) (jobs : list (Z * JobStatus))
  : list string :=
  map (fun j => job_id_string cid (fst j))
      (filter (fun j => is_active (snd j)) jobs).

Definition active_ids (cs : list Cluster) : list string :=
  flat_map (fun c => active_ids_of_jobs (cluster_id c) (job_to_state c)) cs.

(** The sum of the counts of the seven statuses. *)
Definition sum_counts (n : JobStatus -> Z) : Z :=
  n REMOVED + n HELD + n IDLE + n RUNNING + n COMPLETED
  + n TRANSFERRING_OUTPUT + n SUSPENDED.

(** The row that [row_data_from_job_state] returns: it never raises. *)
Definition row_of_clusters (cs : list Cluster) : Row :=
  (counts_row (fun s => count_status s cs)
   ++ [(TOTAL, VInt (number_of_jobs cs));
       (ACTIVE_JOBS,
        VStr (active_jobs_text
                (sort_by list_string_ltb job_id_key (active_ids cs))))])%list.

(** The totals after the row of the clusters [cs] is added to them. *)
Definition totals_after (cs : list Cluster) (totals : dict Column Z)
  : dict Column Z :=
  fold_left (fun t s =>
               dict_set (Status s) (totals_get (Status s) t + count_status s cs) t)
            JobStatus_members
            (dict_set TOTAL (totals_get TOTAL totals + number_of_jobs cs) totals).

(** The sum of a measure over the groups. *)
Definition sum_groups (f : list Cluster -> Z)
    (groups : dict Value (list Cluster)) : Z :=
  fold_right (fun g acc => f (snd g) + acc) 0 groups.

(** The sums over the groups of a dictionary of groups. *)
Definition jobs_in_groups (groups : dict Value (list Cluster)) : Z :=
  fold_right (fun g acc => number_of_jobs (snd g) + acc) 0 groups.

Definition status_in_groups (s : JobStatus)
    (groups : dict Value (list Cluster)) : Z :=
  fold_right (fun g acc => count_status s (snd g) + acc) 0 groups.

(** Every group has a cell for the grouping column. *)
Definition cells_defined (nice_path : string -> string) (key : Column)
    (groups : dict Value (list Cluster))
  : Prop :=
  Forall (fun g => exists cell, key_cell nice_path key (fst g) = Ok cell)
         groups.

(** The groups of [group_clusters_by_key] for attribute [a]. *)
Definition grouped (a : GroupBy) (cs : list Cluster)
    (groups : dict Value (list Cluster)) : dict Value (list Cluster) :=
  fold_left (fun groups c => groups_append groups (getter a c) c) cs groups.

(** The keys of the clusters are distinct, every cluster sits under its
    own id, and the procs of a cluster are distinct. *)
Definition tracker_wf (t : JobStateTracker) : Prop :=
  NoDup (keys (cluster_id_to_cluster t))
  /\ Forall (fun kc => cluster_id (snd kc) = fst kc
                       /\ NoDup (keys (job_to_state (snd kc))))
            (cluster_id_to_cluster t).

(** The order of a sort by an integer key. *)
Definition key_le {A : Type} (key : A -> Z) (a b : A) : Prop := key a <= key b.

(** [x] comes before [y] in [l]. *)
Definition precedes {A : Type} (x y : A) (l : list A) : Prop :=
  exists l1 l2 l3, l = (l1 ++ x :: l2 ++ y :: l3)%list.

(** [m] is the least cluster id of the clusters [cs]. *)
Definition least_cluster_id (m : Z) (cs : list Cluster) : Prop :=
  In m (map cluster_id cs) /\ Forall (fun c => m <= cluster_id c) cs.

(** The order between two rows that the sort goes by. *)
Definition sort_key_le (groups : dict Value (list Cluster))
    (r1 r2 : Value * Row) : Prop :=
  exists m1 m2, row_sort_key groups r1 = Ok m1
                /\ row_sort_key groups r2 = Ok m2 /\ m1 <= m2.

(** The cell of column [h] of [row] is there and is zero. *)
Definition cell_is_zero (h : Column) (row : Row) : bool :=
  match dict_get h row with
  | Some v => is_zero v
  | None => false
  end.

(** Every column of [hs] is a key of [row]. *)
Definition has_columns (hs : list Column) (row : Row) : Prop :=
  Forall (fun h => dict_mem h row = true) hs.

(** Two dictionaries of rows with the same keys, the rows of the second
    being the rows of the first without the columns [cols]. *)
Definition rows_without (cols : list Column) (rows rows' : dict Value Row)
  : Prop :=
  Forall2 (fun kr kr' =>
             fst kr' = fst kr
             /\ forall c, ~ In c cols ->
                  dict_get c (snd kr') = dict_get c (snd kr))
          rows rows'.

(** The columns that [strip_empty_columns] leaves out. *)
Definition dont_include (rows : list Row) : list Column :=
  filter (fun h => negb (column_in h ALWAYS_INCLUDE))
         (filter (fun h => forallb (cell_is_zero h) rows) HEADERS).

(** The table part of a tick of [watch_q]: the headers and the sorted
    rows.  ([abbreviate_path], which reads directories and only rewrites
    the cell of the [LOG] column, is left out.) *)
Definition tick_table (nice_path : string -> string) (dag : bool) (a : GroupBy)
    (dagman_clusters_to_path : dict Z string) (t : JobStateTracker)
  : result (list Column * list (Value * Row)) :=
  agg <- aggregate nice_path dag a dagman_clusters_to_path t ;;
  let groups_by_key := fst (fst agg) in
  hr <- strip_empty_columns (snd (fst agg)) ;;
  rows <- sort_rows groups_by_key (strip_zero_cells (snd hr)) ;;
  Ok (GROUPBY_ATTRIBUTE_TO_AD_KEY a :: fst hr, rows).

(** A float that is zero, or finite with its exponent between [lo] and
    [hi] and a mantissa of at most 54 digits. *)
Definition fbounded (lo hi : Z) (f : spec_float) : Prop :=
  match f with
  | S754_zero _ => True
  | S754_finite _ m e => (lo <= e <= hi)%Z /\ (Zdigits2 (Zpos m) <= 54)%Z
  | _ => False
  end.

(** [k] is the first place of a greatest element of [l]. *)
Definition first_greatest (k : nat) (l : list Z) : Prop :=
  (k < List.length l)%nat
  /\ (forall j, (j < List.length l)%nat -> nth j l 0 <= nth k l 0)
  /\ (forall j, (j < k)%nat -> nth j l 0 < nth k l 0).

(** The fractions of totals that are not huge. *)
Definition small_fraction (x : Number) : Prop :=
  match x with
  | NInt z => z = 0
  | NFloat f => fbounded (-1074) 67 f
  end.

(** A node job of a DAG and a job outside the DAG are submitted. *)
Definition dag_and_plain_submits : list (list (string * list ReaderItem)) :=
  [[("/home/user/dag.nodes.log",
     [Parsed {| ev_type := SUBMIT; ev_cluster := 6; ev_proc := 0 |}]);
    ("/home/user/plain.log",
     [Parsed {| ev_type := SUBMIT; ev_cluster := 7; ev_proc := 0 |}])]].

(** The same two submits, read from the two logs in the other order. *)
Definition plain_and_dag_submits : list (list (string * list ReaderItem)) :=
  [[("/home/user/plain.log",
     [Parsed {| ev_type := SUBMIT; ev_cluster := 7; ev_proc := 0 |}]);
    ("/home/user/dag.nodes.log",
     [Parsed {| ev_type := SUBMIT; ev_cluster := 6; ev_proc := 0 |}])]].

(** A cluster with one idle job. *)
Definition one_idle_job (cid : Z) (batch : option string) : Cluster :=
  {| cluster_id := cid;
     event_log_path := "/home/user/job.log";
     _batch_name := batch;
     job_to_state := [(0, IDLE)] |}.

(** Two groups, the second holding the least cluster id, and their
    rows. *)
Definition two_groups : dict Value (list Cluster) :=
  [(VStr "late", [one_idle_job 12 (Some "late")]);
   (VStr "early", [one_idle_job 9 (Some "early");
                   one_idle_job 15 (Some "early")])].

Definition two_rows : dict Value Row :=
  [(VStr "late", dict_set BATCH_NAME (VStr "late")
                   (row_of_clusters [one_idle_job 12 (Some "late")]));
   (VStr "early", dict_set BATCH_NAME (VStr "early")
                    (row_of_clusters [one_idle_job 9 (Some "early");
                                      one_idle_job 15 (Some "early")]))].

(** A submit of job 1.0 and then its hold. *)
Definition submit_tick : Tick :=
  Events [("/home/user/job.log",
           [Parsed {| ev_type := SUBMIT; ev_cluster := 1; ev_proc := 0 |}])].

Definition hold_readers : list (string * list ReaderItem) :=
  [("/home/user/job.log",
    [Parsed {| ev_type := JOB_HELD; ev_cluster := 1; ev_proc := 0 |}])].

(** Three jobs of cluster 1 are submitted; job 1.0 then starts to run and
    job 1.1 is held. *)
Definition three_jobs_readers : list (string * list ReaderItem) :=
  [("/home/user/job.log",
    [Parsed {| ev_type := SUBMIT; ev_cluster := 1; ev_proc := 0 |};
     Parsed {| ev_type := SUBMIT; ev_cluster := 1; ev_proc := 1 |};
     Parsed {| ev_type := SUBMIT; ev_cluster := 1; ev_proc := 2 |};
     Parsed {| ev_type := EXECUTE; ev_cluster := 1; ev_proc := 0 |};
     Parsed {| ev_type := JOB_HELD; ev_cluster := 1; ev_proc := 1 |}])].

(* ================================================================== *)
(** * The messages of process_events *)
(* ================================================================== *)

(** The messages that the parse failures of one reader give, in order. *)
Definition failure_messages (path : string) (items : list ReaderItem)
  : list string :=
  flat_map (fun i => match i with
                     | ParseFailure reason => [parse_failure_message path reason]
                     | Parsed _ => []
                     end) items.

Definition messages_of (readers : list (string * list ReaderItem))
  : list string :=
  flat_map (fun r => failure_messages (fst r) (snd r)) readers.

(** The readers without the items that fail to parse. *)
Definition is_parsed (i : ReaderItem) : bool :=
  match i with Parsed _ => true | ParseFailure _ => false end.

Definition without_failures (readers : list (string * list ReaderItem))
  : list (string * list ReaderItem) :=
  map (fun r => (fst r, filter is_parsed (snd r))) readers.

(** An event with a mapped status that addresses cluster [c]. *)
Definition touches_cluster (c : Z) (pe : string * JobEvent) : Prop :=
  mapped (snd pe) = true /\ ev_cluster (snd pe) = c.

(** An event with a mapped status that addresses job [j]. *)
Definition touches_job (j : Z * Z) (pe : string * JobEvent) : Prop :=
  mapped (snd pe) = true /\ job_of (snd pe) = j.

(** How many of the statuses are [s]. *)
Definition count_of (s : JobStatus) (states : list JobStatus) : Z :=
  Z.of_nat (List.length (filter (fun x => JobStatus_eqb x s) states)).

(** The statuses of the jobs of some clusters, as [job_states] lists
    them. *)
Definition states_of (cs : list Cluster) : list JobStatus :=
  flat_map (fun c => values (job_to_state c)) cs.

(** The log of the first event with a mapped status that addresses
    cluster [c]. *)
Definition first_log_of (c : Z) (evs : list (string * JobEvent))
  : option string :=
  match find (fun pe => mapped (snd pe) && (ev_cluster (snd pe) =? c)%Z) evs with
  | Some pe => Some (fst pe)
  | None => None
  end.

(** The distinct elements of [l] in the order of their first
    occurrences, after those of [seen]. *)
Definition first_seen_from (seen l : list Z) : list Z :=
  fold_left (fun acc x => if existsb (Z.eqb x) acc then acc
                          else (acc ++ [x])%list) l seen.

Definition first_seen (l : list Z) : list Z := first_seen_from [] l.

(** The events with a mapped status, and those of them that address
    cluster [c]. *)
Definition mapped_events (evs : list (string * JobEvent)) : list JobEvent :=
  filter mapped (map snd evs).

Definition events_on_cluster (c : Z) (evs : list (string * JobEvent))
  : list JobEvent :=
  filter (fun e => (ev_cluster e =? c)%Z) (mapped_events evs).

(** [cluster.event_log_path in dagman_path_to_clusters] *)
Definition in_dag (dagman_clusters_to_path : dict Z string) (c : Cluster)
  : bool :=
  dict_mem (event_log_path c) (reverse_dict dagman_clusters_to_path).

(* ================================================================== *)
(** * The colour of a row *)
(* ================================================================== *)

(** The other members of [class Color] that the rows use. *)
Definition YELLOW : string := ESC ++ "[33m".
Definition BRIGHT_WHITE : string := ESC ++ "[37;1m".

(** [row.get(c, default)] *)
Definition row_get (c : Column) (default : Value) (row : Row) : Value :=
  match dict_get c row with
  | Some v => v
  | None => default
  end.




(** The cell that a table shows for a count: none for zero. *)
Definition shown_count (n : Z) : option Value :=
  if (n =? 0)%Z then None else Some (VInt n).

(** A row without the cells of the columns [cols]. *)
Definition without_columns (cols : list Column) (row : Row) : Row :=
  filter (fun kv => negb (column_in (fst kv) cols)) row.

(** A row without its cells that equal [0]. *)
Definition without_zeros (row : Row) : Row :=
  filter (fun kv => negb (is_zero (snd kv))) row.

(* ================================================================== *)
(** * The actions of the command line *)
(* ================================================================== *)

(** [s.rstrip(c)] for one character [c]. *)
Fixpoint rstrip (c : ascii) (s : string) : string :=
  match s with
  | EmptyString => EmptyString
  | String a s' =>
      match rstrip c s' with
      | EmptyString => if Ascii.eqb a c then EmptyString
                       else String a EmptyString
      | rest => String a rest
      end
  end.

(** [NegateAction]: the value that is stored for the option that was
    written as [option_string]. *)
Definition NegateAction (option_string : string) : bool :=
  String.prefix "no" (rstrip "-" option_string).

(** What [ExitConditions] does with the value of one [-exit] option:
    it appends a condition to the list, or it calls [parser.error],
    which ends the program with the message. *)
Inductive Parsed_exit :=
| Appended (conditions : list (string * string * Z))
| ParserError (message : string).

Definition DQUOTE : string := String (ascii_of_nat 34) EmptyString.

Section ExitConditions.
(** [int(s)] for a string: the integer, or nothing for [ValueError]. *)
Variable int_of_string : string -> option Z.

(** [k in d] for the two tables of the exit conditions. *)
Definition is_grouper (name : string) : bool :=
  match EXIT_GROUPERS name with Ok _ => true | Raise _ => false end.

Definition is_job_status_check (name : string) : bool :=
  match EXIT_JOB_STATUS_CHECK name with Ok _ => true | Raise _ => false end.

(** The part of [ExitConditions.__call__] after the fields are taken
    apart; [exit_status] is the third field, or nothing when there are
    two fields and the status is the integer [0]. *)
Definition check_exit_condition (dest : option (list (string * string * Z)))
    (grouper status : string) (exit_status : option string) : Parsed_exit :=
  if negb (is_grouper grouper)
  then ParserError ("invalid GROUPER " ++ DQUOTE ++ grouper ++ DQUOTE
                    ++ ", must be one of {all, any, none}")
  else if negb (is_job_status_check status)
  then ParserError ("invalid JOB_STATUS " ++ DQUOTE ++ status ++ DQUOTE
                    ++ ", must be one of {active, done, idle, held}")
  else
    match exit_status with
    | None =>
        Appended (match dest with Some l => l | None => [] end
                  ++ [(grouper, status, 0)])%list
    | Some text =>
        match int_of_string text with
        | Some n =>
            Appended (match dest with Some l => l | None => [] end
                      ++ [(grouper, status, n)])%list
        | None =>
            ParserError ("exit_status must be an integer, but was "
                         ++ DQUOTE ++ text ++ DQUOTE)
        end
    end.

(** [ExitConditions.__call__]: [dest] is what the earlier [-exit]
    options have left in [args.exit]. *)
Definition ExitConditions (dest : option (list (string * string * Z)))
    (values : string) : Parsed_exit :=
  match split_on "," values with
  | [grouper; status; exit_status] =>
      check_exit_condition dest grouper status (Some exit_status)
  | [grouper; status] => check_exit_condition dest grouper status None
  | _ => ParserError "invalid -exit specification"
  end.
End ExitConditions.

(* ================================================================== *)
(** * The summary line with totals *)
(* ================================================================== *)

(** The line for one value of [strip]: the statuses with a positive
    total, each with the first [strip] characters of its message. *)
Definition totals_line (totals : dict Column Z) (strip : nat) : string :=
  "Total: " ++ string_of_Z (totals_get TOTAL totals) ++ " jobs; "
  ++ String.concat ", "
       (map (fun sm => string_of_Z (totals_get (Status (fst sm)) totals)
                       ++ " " ++ substring 0 strip (snd sm))
            (filter (fun sm => (0 <? totals_get (Status (fst sm)) totals)%Z)
                    (combine SUMMARY_STATES SUMMARY_MESSAGES))).

(** [width is None or len(summary) <= width] *)
Definition fits (width : option Z) (summary : string) : bool :=
  match width with
  | None => true
  | Some w => (Z.of_nat (String.length summary) <=? w)%Z
  end.

(** The [while True] loop of [make_summary_with_totals]; [strip] is the
    value after [strip -= 1]. *)
Fixpoint summary_loop (totals : dict Column Z) (width : option Z)
    (strip : nat) : string :=
  let summary := totals_line totals strip in
  match strip with
  | O => summary
  | S strip' =>
      if fits width summary || (strip <=? 2)%nat then summary
      else summary_loop totals width strip'
  end.

(** [make_summary_with_totals] *)
Definition make_summary_with_totals (totals : dict Column Z)
    (width : option Z) : list string :=
  [summary_loop totals width 10].

(* ================================================================== *)
(** * Escape sequences *)
(* ================================================================== *)

(** A character between two codes. *)
Definition in_range (lo hi : nat) (c : ascii) : bool :=
  (lo <=? nat_of_ascii c)%nat && (nat_of_ascii c <=? hi)%nat.

(** The length of the longest prefix of characters that satisfy [p], and
    what follows it. *)
Fixpoint span (p : ascii -> bool) (s : string) : nat * string :=
  match s with
  | EmptyString => (O, EmptyString)
  | String c rest =>
      if p c then let (n, r) := span p rest in (S n, r) else (O, s)
  end.

(** How many characters after an escape character [ANSI_ESCAPE_RE]
    matches at the start of [s], if it matches: one character of
    [[@-Z\\-_]], or a bracket, characters of [[0-?]], characters of
    [[ -/]] and one character of [[@-~]].  The three classes are
    disjoint, so the greedy match is the only one. *)
Definition escape_length (s : string) : option nat :=
  match s with
  | EmptyString => None
  | String c rest =>
      if in_range 64 90 c || in_range 92 95 c then Some 1%nat
      else if Ascii.eqb c "[" then
        let (n1, r1) := span (in_range 48 63) rest in
        let (n2, r2) := span (in_range 32 47) r1 in
        match r2 with
        | String f _ =>
            if in_range 64 126 f then Some (1 + n1 + n2 + 1)%nat else None
        | EmptyString => None
        end
      else None
  end.

(** [ANSI_ESCAPE_RE.sub("", s)]: the matches are taken from left to
    right and do not overlap; [skip] characters are still to be left
    out. *)
Fixpoint strip_ansi_from (skip : nat) (s : string) : string :=
  match s with
  | EmptyString => EmptyString
  | String c rest =>
      match skip with
      | S k => strip_ansi_from k rest
      | O =>
          if Ascii.eqb c (ascii_of_nat 27) then
            match escape_length rest with
            | Some n => strip_ansi_from n rest
            | None => String c (strip_ansi_from 0 rest)
            end
          else String c (strip_ansi_from 0 rest)
      end
  end.

(** [strip_ansi] *)
Definition strip_ansi (s : string) : string := strip_ansi_from 0 s.

(** The members of [class Color]. *)
Definition Color_members : list string :=
  [ESC ++ "[30m"; RED; ESC ++ "[31;1m"; GREEN; ESC ++ "[32;1m"; YELLOW;
   BRIGHT_YELLOW; ESC ++ "[34m"; ESC ++ "[34;1m"; ESC ++ "[35m";
   ESC ++ "[35;1m"; CYAN; ESC ++ "[36;1m"; ESC ++ "[37m"; BRIGHT_WHITE;
   RESET].

(** The text holds no escape character. *)
Fixpoint no_escape (s : string) : bool :=
  match s with
  | EmptyString => true
  | String c rest => negb (Ascii.eqb c (ascii_of_nat 27)) && no_escape rest
  end.

(* ================================================================== *)
(** * Finding the event logs *)
(* ================================================================== *)

(** A job ad as [find_job_event_logs] reads it: the attributes of
    [PROJECTION] that bear on what is returned, each one there or not.
    ([DAG_NodesTotal] only feeds a set that is not returned.) *)
Record JobAd := {
  ClusterId : option Z;
  JobBatchName : option string;
  UserLog : option string;
  DAGManNodesLog : option string;
  Iwd : option string
}.

(** [ad[attribute]] *)
Definition ad_getitem {A : Type} (attribute : option A) : result A :=
  match attribute with
  | Some v => Ok v
  | None => Raise KeyError
  end.

(** [s.add(x)] for a set that is kept as the list of its elements. *)
Definition set_add {A : Type} (eqb : A -> A -> bool) (x : A) (s : list A)
  : list A :=
  if existsb (eqb x) s then s else (s ++ [x])%list.

(** What [find_job_event_logs] returns. *)
Record Found := {
  found_clusters : list Z;
  found_event_logs : list string;
  found_batch_names : dict Z (option string);
  found_dagman_clusters_to_path : dict Z string
}.

Section FindLogs.
(** [os.path.abspath], [os.path.isabs] and [os.path.join] read the
    working directory or depend on the platform; they are taken as
    given. *)
Variable abspath : string -> string.
Variable isabs : string -> bool.
Variable join : string -> string -> string.

(** The body of the loop over the ads (the warning for an ad without
    [UserLog] is printed and is no part of the result). *)
Definition add_ad (st : Found) (ad : JobAd) : result Found :=
  cluster_id <- ad_getitem (ClusterId ad) ;;
  let clusters := set_add Z.eqb cluster_id (found_clusters st) in
  let batch_names :=
    dict_set cluster_id (JobBatchName ad) (found_batch_names st) in
  match UserLog ad with
  | None =>
      Ok {| found_clusters := clusters;
            found_event_logs := found_event_logs st;
            found_batch_names := batch_names;
            found_dagman_clusters_to_path := found_dagman_clusters_to_path st |}
  | Some log_path =>
      match DAGManNodesLog ad with
      | Some nodes_log =>
          Ok {| found_clusters := clusters;
                found_event_logs :=
                  set_add String.eqb nodes_log (found_event_logs st);
                found_batch_names := batch_names;
                found_dagman_clusters_to_path :=
                  dict_set cluster_id nodes_log
                           (found_dagman_clusters_to_path st) |}
      | None =>
          log_path <-
            (if isabs log_path then Ok log_path
             else iwd <- ad_getitem (Iwd ad) ;;
                  Ok (abspath (join iwd log_path))) ;;
          Ok {| found_clusters := clusters;
                found_event_logs :=
                  set_add String.eqb log_path (found_event_logs st);
                found_batch_names := batch_names;
                found_dagman_clusters_to_path :=
                  found_dagman_clusters_to_path st |}
      end
  end.

(** [find_job_event_logs]: [files] are the event logs named on the
    command line and [ads] what [get_ads] returns for the users,
    clusters and batches. *)
Definition find_job_event_logs (files : list string) (ads : list JobAd)
  : result Found :=
  foldM add_ad ads
        {| found_clusters := [];
           found_event_logs :=
             fold_left (fun s f => set_add String.eqb (abspath f) s) files [];
           found_batch_names := [];
           found_dagman_clusters_to_path := [] |}.
End FindLogs.

(** The invariant of the loop over the ads: a cluster with a nodes log
    has that log among the event logs, a batch name entry, and is among
    the clusters. *)
Definition found_wf (st : Found) : Prop :=
  forall k p,
    dict_get k (found_dagman_clusters_to_path st) = Some p ->
    In p (found_event_logs st)
    /\ In k (keys (found_batch_names st))
    /\ In k (found_clusters st).

(* ================================================================== *)
(** * The table *)
(* ================================================================== *)

(** [str(h)] for a key of a row: the value of a [JobStatus] member, or
    the string itself. *)
Definition JobStatus_value (s : JobStatus) : string :=
  match s with
  | REMOVED => "REMOVED"
  | HELD => "HELD"
  | IDLE => "IDLE"
  | RUNNING => "RUN"
  | COMPLETED => "DONE"
  | TRANSFERRING_OUTPUT => "TRANSFERRING_OUTPUT"
  | SUSPENDED => "SUSPENDED"
  end.

Definition str_of_Column (h : Column) : string :=
  match h with
  | Status s => JobStatus_value s
  | Name n => n
  end.

(** [str(v)] for a cell. *)
Definition str_of_Value (v : Value) : string :=
  match v with
  | VInt z => string_of_Z z
  | VStr s => s
  | VNone => "None"
  end.

(** The methods of [str] that align a cell. *)
Inductive Align := ljust | rjust | center.

(** [TABLE_ALIGNMENT.get(h, "center")] *)
Definition TABLE_ALIGNMENT (h : Column) : Align :=
  match h with
  | Status _ => rjust
  | Name n =>
      if String.eqb n "LOG" then ljust
      else if String.eqb n "CLUSTER" then ljust
      else if String.eqb n "TOTAL" then rjust
      else if String.eqb n "JOB_IDS" then ljust
      else if String.eqb n "BATCH" then ljust
      else center
  end.

(** [" " * n] *)
Fixpoint spaces (n : nat) : string :=
  match n with
  | O => EmptyString
  | S n' => String " " (spaces n')
  end.

(** [getattr(s, a)(width)]: [s.ljust(width)], [s.rjust(width)] and
    [s.center(width)], which puts the odd space on the left when the
    width is odd. *)
Definition align (a : Align) (s : string) (width : nat) : string :=
  let marg := (width - String.length s)%nat in
  match a with
  | ljust => s ++ spaces marg
  | rjust => spaces marg ++ s
  | center =>
      let left := (marg / 2
                   + (if Nat.odd marg && Nat.odd width then 1 else 0))%nat in
      spaces left ++ s ++ spaces (marg - left)
  end.

(** [s.rstrip()] on the blanks of ASCII. *)
Definition is_space (c : ascii) : bool :=
  let n := nat_of_ascii c in
  ((9 <=? n)%nat && (n <=? 13)%nat) || ((28 <=? n)%nat && (n <=? 32)%nat).

Fixpoint rstrip_spaces (s : string) : string :=
  match s with
  | EmptyString => EmptyString
  | String a s' =>
      match rstrip_spaces s' with
      | EmptyString => if is_space a then EmptyString else String a EmptyString
      | rest => String a rest
      end
  end.

(** [s[:n]] *)
Definition slice_to (n : Z) (s : string) : string :=
  if (0 <=? n)%Z then substring 0 (Z.to_nat n) s
  else substring 0 (String.length s - Z.to_nat (- n)) s.

(** [[str(row.get(key, fill)) + " " for key in headers]] *)
Definition processed_row (headers : list Column) (fill : string) (row : Row)
  : list string :=
  map (fun key => str_of_Value (row_get key (VStr fill) row) ++ " ") headers.

(** [[max(curr, len(entry)) for curr, entry in zip(lengths, row)]] *)
Definition widen (lengths : list nat) (row : list string) : list nat :=
  map (fun ce => Nat.max (fst ce) (String.length (snd ce)))
      (combine lengths row).

(** The list [lengths] after the loop over the processed rows. *)
Definition column_lengths (headers : list Column) (processed : list (list string))
  : list nat :=
  fold_left widen processed
            (map (fun h => String.length (str_of_Column h)) headers).

(** [getattr(f, a)(l) for f, l, a in zip(fields, lengths, align_methods)] *)
Fixpoint aligned (fields : list string) (lengths : list nat)
    (align_methods : list Align) : list string :=
  match fields, lengths, align_methods with
  | f :: fields', l :: lengths', a :: methods' =>
      align a f l :: aligned fields' lengths' methods'
  | _, _, _ => []
  end.

Section Table.
(** The text of [make_progress_bar(row, remaining_columns, color=color)]:
    the bar at the end of a row, for the row and the columns that
    remain. *)
Variable row_bar : Row -> Z -> result string.

(** [make_table] as [watch_q] calls it ([alignment=TABLE_ALIGNMENT], no
    [header_fmt]); [row_fmt] is [None] or a function of the line and
    the row. *)
Definition make_table (row_progress_bar : bool) (terminal_columns : Z)
    (headers : list Column) (rows : list Row) (fill : string)
    (row_fmt : option (string -> Row -> result string))
  : result (list string) :=
  let align_methods := map TABLE_ALIGNMENT headers in
  let processed_rows := map (processed_row headers fill) rows in
  let lengths := column_lengths headers processed_rows in
  let header :=
    rstrip_spaces
      (String.concat "  "
         (aligned (map str_of_Column headers) lengths align_methods)) in
  lines <-
    mapM (fun op =>
            let line :=
              String.concat "  " (aligned (snd op) lengths align_methods) in
            match row_fmt with
            | Some fmt => fmt line (fst op)
            | None => Ok line
            end)
         (combine rows processed_rows) ;;
  let remaining_columns :=
    match lines with
    | first :: _ =>
        (terminal_columns - Z.of_nat (String.length (strip_ansi first)))%Z
    | [] => 0%Z
    end in
  lines <-
    (if row_progress_bar && (10 <? remaining_columns)%Z
     then mapM (fun lr => bar <- row_bar (snd lr) remaining_columns ;;
                          Ok (fst lr ++ bar))
               (combine lines rows)
     else Ok (map (slice_to terminal_columns) lines)) ;;
  Ok (header :: lines).
End Table.

(** The width of a table with these column lengths: the columns and two
    blanks between neighbours. *)
Definition table_width (lengths : list nat) : nat :=
  (fold_right Nat.add 0 lengths + 2 * (List.length lengths - 1))%nat.

(** Every field fits the length of its column. *)
Definition fits_columns (lengths : list nat) (fields : list string) : Prop :=
  Forall2 (fun l f => (String.length f <= l)%nat) lengths fields.

(* ================================================================== *)
(** * Arguments that argparse does not know *)
(* ================================================================== *)

(** [needle in hay] *)
Fixpoint contains (needle hay : string) : bool :=
  String.prefix needle hay
  || match hay with
     | EmptyString => false
     | String _ rest => contains needle rest
     end.

(** The loops [for next_arg in unknown_args] of [_check_unknown_arg]:
    they stop at the first argument that begins with a dash and collect
    the arguments before it that [keep] accepts. *)
Fixpoint collect_args (keep : string -> bool) (unknown_args : list string)
  : list string :=
  match unknown_args with
  | [] => []
  | next_arg :: rest =>
      if String.prefix "-" next_arg then []
      else if keep next_arg then next_arg :: collect_args keep rest
      else collect_args keep rest
  end.

Section UnknownArgs.
(** [str.isdigit] *)
Variable isdigit : string -> bool.

(** [_check_unknown_arg]: [unknown_args] is what the iterator still
    holds after [arg]. *)
Definition _check_unknown_arg (arg : string) (unknown_args : list string)
  : option string :=
  if isdigit arg then
    Some ("to track specific cluster IDs, try -clusters "
          ++ String.concat " " (arg :: collect_args isdigit unknown_args))
  else if contains "-totals" arg then
    Some "to only print totals, try -no-table"
  else if contains "-userlog" arg then
    Some ("to track jobs from specific event logs, try -files "
          ++ String.concat " " (collect_args (fun _ => true) unknown_args))
  else if contains "-nobatch" arg then
    Some "to group by something other than batch name, try -groupby {{batch,log,cluster}}"
  else if negb (String.prefix "-" arg) then
    Some ("to track jobs from specific users, try -users "
          ++ String.concat " "
               (arg :: collect_args (fun a => negb (isdigit a)) unknown_args))
  else None.

(** [check_unknown_args_for_known_errors]: the argument and the message
    of the error that ends the program with status 1, or nothing when
    the loop comes to its end.  An argument without a message takes
    nothing from the iterator, so the next one is checked next. *)
Fixpoint check_unknown_args_for_known_errors (unknown_args : list string)
  : option (string * string) :=
  match unknown_args with
  | [] => None
  | arg :: rest =>
      match _check_unknown_arg arg rest with
      | Some error_message => Some (arg, error_message)
      | None => check_unknown_args_for_known_errors rest
      end
  end.

(** An argument that [_check_unknown_arg] has no message for. *)
Definition passes (arg : string) : bool :=
  String.prefix "-" arg && negb (isdigit arg)
  && negb (contains "-totals" arg) && negb (contains "-userlog" arg)
  && negb (contains "-nobatch" arg).
End UnknownArgs.

(* ================================================================== *)
(** * Definitions for the further statements *)
(* ================================================================== *)




(** What the names of the exit conditions stand for. *)
Definition checker_holds (name : string) (s : JobStatus) : Prop :=
  if String.eqb name "active" then In s ACTIVE_STATES
  else if String.eqb name "done" then s = COMPLETED
  else if String.eqb name "idle" then s = IDLE
  else s = HELD.

Definition grouper_holds (name : string) (P : JobStatus -> Prop)
    (states : list JobStatus) : Prop :=
  if String.eqb name "all" then Forall P states
  else if String.eqb name "any" then Exists P states
  else Forall (fun s => ~ P s) states.

(** The readers of the ticks in which events are read. *)
Definition readers_of (ticks : list Tick)
  : list (list (string * list ReaderItem)) :=
  flat_map (fun tick => match tick with
                        | Events readers => [readers]
                        | _ => []
                        end) ticks.

(** A tick that is an interrupt or a failure. *)
Definition ends_the_loop (tick : Tick) : bool :=
  match tick with
  | Events _ => false
  | _ => true
  end.

(** A tick without the items that fail to parse. *)
Definition drop_failures (tick : Tick) : Tick :=
  match tick with
  | Events readers => Events (without_failures readers)
  | other => other
  end.

(* ================================================================== *)
(** * Properties *)
(* ================================================================== *)

(** ** Equality of keys *)

#[export] Instance EqKeyLaws_Z : EqKeyLaws Z := Z.eqb_spec.
#[export] Instance EqKeyLaws_string : EqKeyLaws string := String.eqb_spec.

#[export] Instance EqKeyLaws_JobStatus : EqKeyLaws JobStatus.
Proof. intros a b; destruct a, b; constructor; congruence. Qed.

#[export] Instance EqKeyLaws_Column : EqKeyLaws Column.
Proof.
  intros [s|n] [t|m]; unfold keqb, EqKey_Column; simpl;
    try (constructor; congruence).
  - destruct s, t; simpl; constructor; congruence.
  - destruct (String.eqb_spec n m); constructor; congruence.
Qed.

#[export] Instance EqKeyLaws_Value : EqKeyLaws Value.
Proof.
  intros [x|s|] [y|t|]; unfold keqb, EqKey_Value; simpl;
    try (constructor; congruence).
  - destruct (Z.eqb_spec x y); constructor; congruence.
  - destruct (String.eqb_spec s t); constructor; congruence.
Qed.

(** ** Dictionaries *)

Section DictFacts.
Context {K V : Type} `{EqKeyLaws K}.
Implicit Types (d : dict K V) (k : K) (v : V).

Lemma keqb_refl k : keqb k k = true.
Proof. destruct (keqb_spec k k); congruence. Qed.

Lemma keqb_neq k k' : k <> k' -> keqb k k' = false.
Proof. destruct (keqb_spec k k'); congruence. Qed.

Lemma dict_get_set_same k v d : dict_get k (dict_set k v d) = Some v.
Proof.
  induction d as [|[k' v'] d IH]; simpl.
  - now rewrite keqb_refl.
  - destruct (keqb_spec k k') as [->|Hne]; simpl.
    + now rewrite keqb_refl.
    + now rewrite (keqb_neq _ _ Hne).
Qed.

Lemma dict_get_set_other k k' v d :
  k <> k' -> dict_get k' (dict_set k v d) = dict_get k' d.
Proof.
  intros Hne. induction d as [|[k0 v0] d IH]; simpl.
  - rewrite keqb_neq; congruence.
  - destruct (keqb_spec k k0) as [->|Hne0]; simpl.
    + rewrite keqb_neq; congruence.
    + now rewrite IH.
Qed.

Lemma dict_set_set k v v' d :
  dict_set k v (dict_set k v' d) = dict_set k v d.
Proof.
  induction d as [|[k0 v0] d IH]; simpl.
  - now rewrite keqb_refl.
  - destruct (keqb_spec k k0) as [->|Hne]; simpl.
    + now rewrite keqb_refl.
    + rewrite (keqb_neq _ _ Hne). now rewrite IH.
Qed.

Lemma dict_get_In k v d : dict_get k d = Some v -> In (k, v) d.
Proof.
  induction d as [|[k0 v0] d IH]; simpl; [discriminate|].
  destruct (keqb_spec k k0) as [->|Hne].
  - intros [= ->]. now left.
  - intros Hg. right. auto.
Qed.

Lemma dict_get_None_keys k d : dict_get k d = None <-> ~ In k (keys d).
Proof.
  induction d as [|[k0 v0] d IH]; simpl.
  - tauto.
  - destruct (keqb_spec k k0) as [->|Hne].
    + split; [discriminate|]. intros Hn. exfalso. apply Hn. now left.
    + rewrite IH. split.
      * intros Hn [Heq|Hin]; [congruence|tauto].
      * tauto.
Qed.

Lemma dict_get_Some_keys k d :
  (exists v, dict_get k d = Some v) <-> In k (keys d).
Proof.
  destruct (dict_get k d) as [v|] eqn:Hg.
  - split; [intros _|intros _; now exists v].
    apply dict_get_In in Hg. apply (in_map fst) in Hg. exact Hg.
  - split; [intros [v Hv]; discriminate|].
    intros Hin. apply dict_get_None_keys in Hg. tauto.
Qed.

Lemma keys_set_present k v d :
  In k (keys d) -> keys (dict_set k v d) = keys d.
Proof.
  induction d as [|[k0 v0] d IH]; simpl; [tauto|].
  destruct (keqb_spec k k0) as [->|Hne]; simpl; [reflexivity|].
  intros [Heq|Hin]; [congruence|]. now rewrite IH.
Qed.

Lemma keys_set_absent k v d :
  ~ In k (keys d) -> keys (dict_set k v d) = (keys d ++ [k])%list.
Proof.
  induction d as [|[k0 v0] d IH]; simpl; [reflexivity|].
  destruct (keqb_spec k k0) as [->|Hne]; simpl; [tauto|].
  intros Hn. rewrite IH; tauto.
Qed.

Lemma In_keys_set k k' v d :
  In k' (keys (dict_set k v d)) <-> k' = k \/ In k' (keys d).
Proof.
  destruct (in_dec (fun a b => reflect_dec _ _ (keqb_spec a b)) k (keys d))
    as [Hin|Hn].
  - rewrite keys_set_present by assumption.
    split; [tauto|]. intros [->|?]; assumption.
  - rewrite keys_set_absent by assumption.
    rewrite in_app_iff. simpl. split; [intros [?|[?|[]]]|intros [?|?]]; auto.
Qed.

Lemma NoDup_keys_set k v d : NoDup (keys d) -> NoDup (keys (dict_set k v d)).
Proof.
  intros Hnd.
  destruct (in_dec (fun a b => reflect_dec _ _ (keqb_spec a b)) k (keys d))
    as [Hin|Hn].
  - now rewrite keys_set_present.
  - rewrite keys_set_absent by assumption.
    apply NoDup_app; [assumption|repeat constructor; simpl; tauto|].
    intros x Hx [<-|[]]. tauto.
Qed.

Lemma dict_set_same k v d : dict_get k d = Some v -> dict_set k v d = d.
Proof.
  induction d as [|[k0 v0] d IH]; simpl; [discriminate|].
  destruct (keqb_spec k k0) as [->|Hne].
  - now intros [= ->].
  - intros Hg. now rewrite IH.
Qed.
End DictFacts.

(** ** The tracker applies the events in the order read *)

Lemma drain_reader_run path items acc :
  snd (drain_reader path items acc)
  = run_events (parsed_events path items) (snd acc).
Proof.
  revert acc. induction items as [|[e|reason] items IH]; intros acc; simpl.
  - reflexivity.
  - now rewrite IH.
  - now rewrite IH.
Qed.

Lemma run_events_app evs evs' t :
  run_events (evs ++ evs')%list t = run_events evs' (run_events evs t).
Proof. apply fold_left_app. Qed.

Lemma process_readers_run readers acc :
  snd (process_readers readers acc) = run_events (events_of readers) (snd acc).
Proof.
  revert acc. induction readers as [|[path items] readers IH]; intros acc.
  - reflexivity.
  - simpl. rewrite IH, drain_reader_run.
    unfold events_of at 2. simpl. now rewrite run_events_app.
Qed.

Lemma process_events_run t readers :
  snd (process_events t readers) = run_events (events_of readers) t.
Proof. unfold process_events. now rewrite process_readers_run. Qed.

Lemma tracker_after_run names ticks :
  tracker_after names ticks
  = run_events (events_of_ticks ticks) (new_tracker names).
Proof.
  unfold tracker_after. generalize (new_tracker names) as t.
  induction ticks as [|readers ticks IH]; intros t; simpl.
  - reflexivity.
  - rewrite IH, process_events_run. unfold events_of_ticks. simpl.
    now rewrite run_events_app.
Qed.

(** ** One event *)

Lemma job_status_apply_mapped path t e s :
  JOB_EVENT_STATUS_TRANSITIONS (ev_type e) = Some s ->
  job_status (apply_event path t e) (ev_cluster e) (ev_proc e) = Some s.
Proof.
  intros Hs. unfold apply_event, job_status. rewrite Hs. simpl.
  rewrite dict_get_set_same. simpl. apply dict_get_set_same.
Qed.

Lemma job_status_apply_other path t e c p :
  (c, p) <> (ev_cluster e, ev_proc e) ->
  job_status (apply_event path t e) c p = job_status t c p.
Proof.
  intros Hne. unfold apply_event, job_status.
  destruct (JOB_EVENT_STATUS_TRANSITIONS (ev_type e)) as [s|]; [|reflexivity].
  simpl. destruct (Z.eq_dec (ev_cluster e) c) as [Hc|Hc].
  - subst c. rewrite dict_get_set_same. simpl.
    assert (Hp : ev_proc e <> p) by congruence.
    rewrite dict_get_set_other by assumption.
    destruct (dict_get (ev_cluster e) (cluster_id_to_cluster t)); reflexivity.
  - now rewrite dict_get_set_other.
Qed.

(** C2.  The transition table is the one of the source; every event that
    [process_events] reads is applied, in order, by [apply_event]; an
    event of a kind in the table leaves the job it addresses with the
    status of the table and every other job as it was; an event of any
    other kind leaves the tracker (so every status and the set of
    clusters) unchanged. *)
Theorem process_events_follows_transition_table :
  (JOB_EVENT_STATUS_TRANSITIONS SUBMIT = Some IDLE
   /\ JOB_EVENT_STATUS_TRANSITIONS JOB_EVICTED = Some IDLE
   /\ JOB_EVENT_STATUS_TRANSITIONS JOB_UNSUSPENDED = Some IDLE
   /\ JOB_EVENT_STATUS_TRANSITIONS JOB_RELEASED = Some IDLE
   /\ JOB_EVENT_STATUS_TRANSITIONS SHADOW_EXCEPTION = Some IDLE
   /\ JOB_EVENT_STATUS_TRANSITIONS JOB_RECONNECT_FAILED = Some IDLE
   /\ JOB_EVENT_STATUS_TRANSITIONS EXECUTE = Some RUNNING
   /\ JOB_EVENT_STATUS_TRANSITIONS JOB_HELD = Some HELD
   /\ JOB_EVENT_STATUS_TRANSITIONS JOB_SUSPENDED = Some SUSPENDED
   /\ JOB_EVENT_STATUS_TRANSITIONS JOB_TERMINATED = Some COMPLETED
   /\ JOB_EVENT_STATUS_TRANSITIONS JOB_ABORTED = Some REMOVED
   /\ forall code, JOB_EVENT_STATUS_TRANSITIONS (OTHER_EVENT code) = None)
  /\ (forall t readers,
        snd (process_events t readers) = run_events (events_of readers) t)
  /\ (forall path t e,
        match JOB_EVENT_STATUS_TRANSITIONS (ev_type e) with
        | Some s =>
            job_status (apply_event path t e) (ev_cluster e) (ev_proc e) = Some s
            /\ forall c p, (c, p) <> (ev_cluster e, ev_proc e) ->
                 job_status (apply_event path t e) c p = job_status t c p
        | None => apply_event path t e = t
        end).
Proof.
  split; [repeat split|split].
  - apply process_events_run.
  - intros path t e.
    destruct (JOB_EVENT_STATUS_TRANSITIONS (ev_type e)) as [s|] eqn:Hs.
    + split.
      * now apply job_status_apply_mapped.
      * intros c p Hne. now apply job_status_apply_other.
    + unfold apply_event. now rewrite Hs.
Qed.

(** ** Applying an event twice *)

Lemma cluster_setitem_twice c p s :
  cluster_setitem (cluster_setitem c p s) p s = cluster_setitem c p s.
Proof. unfold cluster_setitem. simpl. now rewrite dict_set_set. Qed.

Lemma apply_event_twice path path' t e :
  apply_event path' (apply_event path t e) e = apply_event path t e.
Proof.
  unfold apply_event.
  destruct (JOB_EVENT_STATUS_TRANSITIONS (ev_type e)) as [s|] eqn:Hs;
    rewrite ?Hs; [|reflexivity].
  simpl. rewrite dict_get_set_same, cluster_setitem_twice.
  now rewrite dict_set_set.
Qed.

(** C9.  Applying the same event a second time changes nothing: the
    tracker after two applications is the tracker after one (whatever
    reader gives the second copy), and a call of [process_events] that
    reads the event twice returns what a call that reads it once
    returns. *)
Theorem same_event_twice_is_idempotent :
  (forall path path' t e,
     apply_event path' (apply_event path t e) e = apply_event path t e)
  /\ (forall path t e c p,
        job_status (apply_event path (apply_event path t e) e) c p
        = job_status (apply_event path t e) c p)
  /\ (forall path t e,
        process_events t [(path, [Parsed e; Parsed e])]
        = process_events t [(path, [Parsed e])]).
Proof.
  split; [|split].
  - intros. apply apply_event_twice.
  - intros. now rewrite apply_event_twice.
  - intros. unfold process_events. simpl. now rewrite apply_event_twice.
Qed.

(** ** The row of a list of clusters *)

Lemma row_add_counts s n :
  row_add (Status s) 1 (counts_row n)
  = Ok (counts_row (fun js => n js + (if JobStatus_eqb js s then 1 else 0))).
Proof.
  destruct s; unfold row_add, counts_row; simpl;
    rewrite ?Z.add_0_r; reflexivity.
Qed.

Lemma counts_row_ext n m : (forall s, n s = m s) -> counts_row n = counts_row m.
Proof.
  intros Hext. unfold counts_row. apply map_ext. intros s. now rewrite Hext.
Qed.

Lemma count_jobs_cons s j jobs :
  count_jobs s (j :: jobs)
  = (if JobStatus_eqb (snd j) s then 1 else 0) + count_jobs s jobs.
Proof.
  unfold count_jobs. cbn [filter].
  destruct (JobStatus_eqb (snd j) s); cbn [List.length]; lia.
Qed.

Lemma JobStatus_eqb_sym a b : JobStatus_eqb a b = JobStatus_eqb b a.
Proof. destruct a, b; reflexivity. Qed.

Lemma foldM_count_job cid jobs n ids :
  foldM (count_job cid) jobs (counts_row n, ids)
  = Ok (counts_row (fun s => n s + count_jobs s jobs),
        (ids ++ active_ids_of_jobs cid jobs)%list).
Proof.
  revert n ids. induction jobs as [|[p st] jobs IH]; intros n ids.
  - simpl. rewrite app_nil_r. f_equal. f_equal. apply counts_row_ext.
    intros s. unfold count_jobs. simpl. lia.
  - simpl. unfold count_job at 1. simpl. rewrite row_add_counts. simpl.
    rewrite IH. f_equal. f_equal.
    + apply counts_row_ext. intros s. rewrite count_jobs_cons. simpl.
      rewrite (JobStatus_eqb_sym s st). lia.
    + unfold active_ids_of_jobs. simpl.
      destruct (is_active st); simpl; [now rewrite <- app_assoc|reflexivity].
Qed.

Lemma foldM_count_cluster cs n ids :
  foldM count_cluster cs (counts_row n, ids)
  = Ok (counts_row (fun s => n s + count_status s cs),
        (ids ++ active_ids cs)%list).
Proof.
  revert n ids. induction cs as [|c cs IH]; intros n ids.
  - simpl. rewrite app_nil_r. f_equal. f_equal. apply counts_row_ext.
    intros s. lia.
  - simpl. unfold count_cluster at 1. rewrite foldM_count_job. simpl.
    rewrite IH. f_equal. f_equal.
    + apply counts_row_ext. intros s. lia.
    + now rewrite <- app_assoc.
Qed.

Lemma sum_values_counts n :
  sum_values (values (counts_row n))
  = Ok (n REMOVED + n HELD + n IDLE + n RUNNING + n COMPLETED
        + n TRANSFERRING_OUTPUT + n SUSPENDED).
Proof. reflexivity. Qed.

Lemma sum_counts_jobs jobs :
  sum_counts (fun s => count_jobs s jobs) = Z.of_nat (List.length jobs).
Proof.
  unfold sum_counts. induction jobs as [|[p st] jobs IH].
  - reflexivity.
  - rewrite !count_jobs_cons. cbn [List.length snd].
    destruct st; cbn [JobStatus_eqb]; lia.
Qed.

Lemma sum_counts_status cs :
  sum_counts (fun s => count_status s cs) = number_of_jobs cs.
Proof.
  induction cs as [|c cs IH].
  - reflexivity.
  - simpl. rewrite <- IH, <- sum_counts_jobs. unfold sum_counts. lia.
Qed.

Lemma row_data_from_job_state_eq cs :
  row_data_from_job_state cs = Ok (row_of_clusters cs).
Proof.
  unfold row_data_from_job_state.
  change (map (fun js => (Status js, VInt 0)) JobStatus_members)
    with (counts_row (fun _ => 0)).
  rewrite foldM_count_cluster. simpl.
  unfold row_of_clusters. rewrite <- sum_counts_status. reflexivity.
Qed.

(** ** The totals *)

Lemma totals_get_set c c' v (d : dict Column Z) :
  totals_get c' (dict_set c v d) = if keqb c c' then v else totals_get c' d.
Proof.
  unfold totals_get. destruct (keqb_spec c c') as [->|Hne].
  - now rewrite dict_get_set_same.
  - now rewrite dict_get_set_other.
Qed.

Lemma totals_add_eq c n totals :
  totals_add c (VInt n) totals = Ok (dict_set c (totals_get c totals + n) totals).
Proof. reflexivity. Qed.

Section AggregationFacts.
Variable nice_path : string -> string.

Lemma add_group_eq key rows totals v cs :
  add_group nice_path key (rows, totals) (v, cs)
  = (cell <- key_cell nice_path key v ;;
     Ok (dict_set v (dict_set key cell (row_of_clusters cs)) rows,
         totals_after cs totals)).
Proof.
  unfold add_group. cbn [fst snd].
  rewrite row_data_from_job_state_eq. cbn [bind].
  change (getitem TOTAL (row_of_clusters cs))
    with (Ok (A := Value) (VInt (number_of_jobs cs))). cbn [bind].
  rewrite totals_add_eq. cbn [bind].
  unfold JobStatus_members. cbn [foldM].
  repeat match goal with
  | |- context [getitem (Status ?s) (row_of_clusters cs)] =>
      change (getitem (Status s) (row_of_clusters cs))
        with (Ok (A := Value) (VInt (count_status s cs)));
      cbn [bind]; rewrite totals_add_eq; cbn [bind]
  end.
  reflexivity.
Qed.

Lemma totals_after_get cs totals :
  totals_get TOTAL (totals_after cs totals)
  = totals_get TOTAL totals + number_of_jobs cs
  /\ forall s, totals_get (Status s) (totals_after cs totals)
               = totals_get (Status s) totals + count_status s cs.
Proof.
  unfold totals_after, JobStatus_members. cbn [fold_left]. split.
  - rewrite !totals_get_set. reflexivity.
  - intros s. rewrite !totals_get_set. destruct s; cbn; lia.
Qed.

Lemma add_group_spec key rows totals v cs cell :
  key_cell nice_path key v = Ok cell ->
  exists totals',
    add_group nice_path key (rows, totals) (v, cs)
    = Ok (dict_set v (dict_set key cell (row_of_clusters cs)) rows, totals')
    /\ totals_get TOTAL totals' = totals_get TOTAL totals + number_of_jobs cs
    /\ forall s, totals_get (Status s) totals'
                 = totals_get (Status s) totals + count_status s cs.
Proof.
  intros Hcell. rewrite add_group_eq, Hcell. cbn [bind].
  exists (totals_after cs totals). split; [reflexivity|].
  apply totals_after_get.
Qed.

Lemma foldM_add_group key groups rows totals :
  cells_defined nice_path key groups ->
  exists rows' totals',
    foldM (add_group nice_path key) groups (rows, totals) = Ok (rows', totals')
    /\ totals_get TOTAL totals'
       = totals_get TOTAL totals + jobs_in_groups groups
    /\ forall s, totals_get (Status s) totals'
                 = totals_get (Status s) totals + status_in_groups s groups.
Proof.
  intros Hcells. revert rows totals.
  induction Hcells as [|[v cs] groups [cell Hcell] _ IH]; intros rows totals.
  - exists rows, totals. simpl. repeat split; intros; lia.
  - destruct (add_group_spec key rows totals v cs cell Hcell)
      as (totals1 & Hadd & Htot & Hst).
    cbn [foldM]. rewrite Hadd. cbn [bind].
    destruct (IH (dict_set v (dict_set key cell (row_of_clusters cs)) rows)
                 totals1) as (rows' & totals' & Hfold & Htot' & Hst').
    exists rows', totals'. split; [exact Hfold|]. split.
    + rewrite Htot', Htot. simpl. lia.
    + intros s. rewrite Hst', Hst. simpl. lia.
Qed.

Lemma make_rows_from_groups_totals key groups :
  cells_defined nice_path key groups ->
  exists rows totals,
    make_rows_from_groups nice_path groups key = Ok (rows, totals)
    /\ totals_get TOTAL totals = jobs_in_groups groups
    /\ forall s, totals_get (Status s) totals = status_in_groups s groups.
Proof.
  intros Hcells.
  destruct (foldM_add_group key groups [] [] Hcells)
    as (rows & totals & Hfold & Htot & Hst).
  exists rows, totals. split; [exact Hfold|]. split.
  - rewrite Htot. reflexivity.
  - intros s. rewrite Hst. reflexivity.
Qed.

Lemma jobs_in_groups_sum groups :
  jobs_in_groups groups
  = sum_counts (fun s => status_in_groups s groups).
Proof.
  induction groups as [|[v cs] groups IH].
  - reflexivity.
  - simpl. rewrite IH, <- sum_counts_status. unfold sum_counts. simpl. lia.
Qed.
End AggregationFacts.

(** ** Grouping keeps every cluster, once *)

Lemma number_of_jobs_app cs cs' :
  number_of_jobs (cs ++ cs')%list = number_of_jobs cs + number_of_jobs cs'.
Proof. induction cs as [|c cs IH]; simpl; lia. Qed.

Lemma count_status_app s cs cs' :
  count_status s (cs ++ cs')%list = count_status s cs + count_status s cs'.
Proof. induction cs as [|c cs IH]; simpl; lia. Qed.

Lemma sum_groups_set f v l groups :
  sum_groups f (dict_set v l groups)
  = sum_groups f groups + f l
    - match dict_get v groups with Some l0 => f l0 | None => 0 end.
Proof.
  induction groups as [|[v0 l0] groups IH].
  - simpl. lia.
  - cbn [dict_get dict_set]. destruct (keqb v v0) eqn:Hv.
    + unfold sum_groups. cbn [fold_right snd]. lia.
    + unfold sum_groups in *. cbn [fold_right snd]. rewrite IH. lia.
Qed.

Lemma sum_groups_append f groups v c :
  (forall l, f (l ++ [c])%list = f l + f [c]) ->
  sum_groups f (groups_append groups v c) = sum_groups f groups + f [c].
Proof.
  intros Hf. unfold groups_append.
  destruct (dict_get v groups) as [l|] eqn:Hg;
    rewrite sum_groups_set, Hg; [rewrite Hf|]; lia.
Qed.

Lemma jobs_in_groups_append groups v c :
  jobs_in_groups (groups_append groups v c)
  = jobs_in_groups groups + number_of_jobs [c].
Proof.
  apply (sum_groups_append number_of_jobs).
  intros l. apply number_of_jobs_app.
Qed.

Lemma status_in_groups_append s groups v c :
  status_in_groups s (groups_append groups v c)
  = status_in_groups s groups + count_status s [c].
Proof.
  apply (sum_groups_append (count_status s)).
  intros l. apply count_status_app.
Qed.

Lemma keys_groups_append groups v c k :
  In k (keys (groups_append groups v c)) -> k = v \/ In k (keys groups).
Proof.
  unfold groups_append.
  destruct (dict_get v groups); intros Hin; apply In_keys_set in Hin; exact Hin.
Qed.

Lemma group_clusters_by_key_eq cs a :
  group_clusters_by_key cs (GROUPBY_ATTRIBUTE_TO_AD_KEY a)
  = Ok (grouped a cs []).
Proof. destruct a; reflexivity. Qed.

Lemma grouped_jobs a cs groups :
  jobs_in_groups (grouped a cs groups)
  = jobs_in_groups groups + number_of_jobs cs.
Proof.
  revert groups. induction cs as [|c cs IH]; intros groups; simpl.
  - lia.
  - rewrite IH, jobs_in_groups_append. simpl. lia.
Qed.

Lemma grouped_status s a cs groups :
  status_in_groups s (grouped a cs groups)
  = status_in_groups s groups + count_status s cs.
Proof.
  revert groups. induction cs as [|c cs IH]; intros groups; simpl.
  - lia.
  - rewrite IH, status_in_groups_append. simpl. lia.
Qed.

Lemma grouped_keys a cs groups k :
  In k (keys (grouped a cs groups)) ->
  In k (keys groups) \/ exists c, In c cs /\ k = getter a c.
Proof.
  revert groups. induction cs as [|c cs IH]; intros groups; simpl.
  - tauto.
  - intros Hin. apply IH in Hin. destruct Hin as [Hin|(c' & Hc' & ->)].
    + apply keys_groups_append in Hin. destruct Hin as [->|Hin]; [|tauto].
      right. exists c. tauto.
    + right. exists c'. tauto.
Qed.

Lemma grouped_cells_defined nice_path a cs :
  cells_defined nice_path (GROUPBY_ATTRIBUTE_TO_AD_KEY a) (grouped a cs []).
Proof.
  unfold cells_defined. apply Forall_forall. intros [v l] Hin.
  apply (in_map fst) in Hin. apply grouped_keys in Hin.
  destruct Hin as [[]|(c & _ & Hv)]. cbn [fst] in *. subst v.
  destruct a; cbn; eexists; reflexivity.
Qed.

(** ** The jobs a tracker holds are the jobs the events refer to *)

Lemma In_tracker_jobs t c p :
  NoDup (keys (cluster_id_to_cluster t)) ->
  In (c, p) (tracker_jobs t) <->
  exists cl, dict_get c (cluster_id_to_cluster t) = Some cl
             /\ In p (keys (job_to_state cl)).
Proof.
  unfold tracker_jobs. generalize (cluster_id_to_cluster t) as d.
  induction d as [|[k cl] d IH]; intros Hnd.
  - simpl. split; [tauto|]. intros (cl & Hcl & _). discriminate.
  - cbn [flat_map]. rewrite in_app_iff. cbn [dict_get fst snd].
    inversion Hnd as [|? ? Hk Hnd']; subst.
    rewrite IH by assumption. rewrite in_map_iff.
    destruct (keqb_spec c k) as [->|Hne].
    + split.
      * intros [(p' & [= ->] & Hp)|(cl' & Hcl' & _)].
        -- exists cl. tauto.
        -- exfalso. apply Hk. apply dict_get_Some_keys. now exists cl'.
      * intros (cl' & [= <-] & Hp). left. exists p. tauto.
    + split.
      * intros [(p' & [= Hc _] & _)|Hr]; [congruence|exact Hr].
      * intros Hr. right. exact Hr.
Qed.

Lemma Forall_dict_set {K V : Type} `{EqKeyLaws K} (P : K * V -> Prop) k v
    (d : dict K V) :
  Forall P d -> P (k, v) -> Forall P (dict_set k v d).
Proof.
  intros Hall Hp. induction Hall as [|[k0 v0] d Hp0 Hall IH]; simpl.
  - now constructor.
  - destruct (keqb_spec k k0) as [->|Hne]; constructor; assumption.
Qed.

Lemma tracker_wf_new names : tracker_wf (new_tracker names).
Proof. split; constructor. Qed.

Lemma tracker_wf_apply path t e :
  tracker_wf t -> tracker_wf (apply_event path t e).
Proof.
  intros [Hnd Hall]. unfold apply_event.
  destruct (JOB_EVENT_STATUS_TRANSITIONS (ev_type e)) as [s|]; [|now split].
  split; cbn [cluster_id_to_cluster].
  - now apply NoDup_keys_set.
  - apply Forall_dict_set; [assumption|]. cbn [fst snd].
    destruct (dict_get (ev_cluster e) (cluster_id_to_cluster t)) as [cl|] eqn:Hg.
    + apply dict_get_In in Hg. rewrite Forall_forall in Hall.
      destruct (Hall _ Hg) as [Hid Hprocs]. cbn [fst snd] in *.
      split; [exact Hid|]. cbn. now apply NoDup_keys_set.
    + split; [reflexivity|]. cbn. repeat constructor. simpl. tauto.
Qed.

Lemma tracker_wf_run evs t : tracker_wf t -> tracker_wf (run_events evs t).
Proof.
  revert t. induction evs as [|[path e] evs IH]; intros t Hwf; simpl.
  - exact Hwf.
  - apply IH. now apply tracker_wf_apply.
Qed.

Lemma NoDup_tracker_jobs t : tracker_wf t -> NoDup (tracker_jobs t).
Proof.
  intros [Hnd Hall]. unfold tracker_jobs.
  revert Hnd Hall. generalize (cluster_id_to_cluster t) as d.
  induction d as [|[k cl] d IH]; intros Hnd Hall.
  - constructor.
  - cbn [flat_map fst snd].
    inversion Hnd as [|? ? Hk Hnd']; subst.
    inversion Hall as [|? ? [_ Hprocs] Hall']; subst. cbn [snd] in Hprocs.
    apply NoDup_app.
    + apply Finite.Injective_map_NoDup; [|assumption].
      intros p p' [= ->]. reflexivity.
    + now apply IH.
    + intros [c p] Hin Hin'. apply in_map_iff in Hin.
      destruct Hin as (p' & [= <- <-] & _).
      apply in_flat_map in Hin'. destruct Hin' as ([k' cl'] & Hd & Hp).
      apply in_map_iff in Hp. destruct Hp as (p'' & [= <- <-] & _).
      apply Hk. apply (in_map fst) in Hd. exact Hd.
Qed.

Lemma In_tracker_jobs_apply path t e c p :
  tracker_wf t ->
  In (c, p) (tracker_jobs (apply_event path t e)) <->
  In (c, p) (tracker_jobs t) \/ (mapped e = true /\ (c, p) = job_of e).
Proof.
  intros Hwf. pose proof (tracker_wf_apply path t e Hwf) as Hwf'.
  destruct Hwf as [Hnd _], Hwf' as [Hnd' _].
  rewrite !In_tracker_jobs by assumption.
  unfold apply_event, mapped, job_of in *.
  destruct (JOB_EVENT_STATUS_TRANSITIONS (ev_type e)) as [s|].
  - cbn [cluster_id_to_cluster].
    destruct (Z.eq_dec (ev_cluster e) c) as [Hc|Hc].
    + subst c. rewrite dict_get_set_same. split.
      * intros (cl & [= <-] & Hp). cbn in Hp.
        apply In_keys_set in Hp. destruct Hp as [->|Hp]; [now right|].
        destruct (dict_get (ev_cluster e) (cluster_id_to_cluster t)) as [cl|];
          [|destruct Hp]. left. now exists cl.
      * intros [(cl & Hcl & Hp)|[_ [= ->]]]; eexists; (split; [reflexivity|]);
          cbn; apply In_keys_set; [|now left].
        rewrite Hcl. now right.
    + rewrite dict_get_set_other by assumption. split; [tauto|].
      intros [Hl|[_ [= Hc' _]]]; [exact Hl|congruence].
  - split; [tauto|]. intros [Hl|[Hm _]]; [exact Hl|discriminate].
Qed.

Lemma In_tracker_jobs_run evs t j :
  tracker_wf t ->
  In j (tracker_jobs (run_events evs t)) <->
  In j (tracker_jobs t) \/ In j (map job_of (filter mapped (map snd evs))).
Proof.
  revert t. induction evs as [|[path e] evs IH]; intros t Hwf.
  - simpl. tauto.
  - cbn [run_events fold_left fst snd map filter].
    change (fold_left _ evs ?t0) with (run_events evs t0).
    rewrite IH by now apply tracker_wf_apply.
    destruct j as [c p]. rewrite In_tracker_jobs_apply by assumption.
    destruct (mapped e); cbn [map In]; intuition (try discriminate; auto).
Qed.

Lemma length_tracker_jobs t :
  Z.of_nat (List.length (tracker_jobs t)) = number_of_jobs (clusters t).
Proof.
  unfold tracker_jobs, clusters, values.
  induction (cluster_id_to_cluster t) as [|[k cl] d IH].
  - reflexivity.
  - cbn [flat_map map number_of_jobs fold_right fst snd].
    unfold keys, number_of_jobs in *.
    rewrite length_app, !length_map. lia.
Qed.

(** The number of jobs of a fresh tracker after the events [evs]. *)
Lemma tracker_jobs_referenced names evs :
  number_of_jobs (clusters (run_events evs (new_tracker names)))
  = Z.of_nat (List.length (referenced_jobs evs)).
Proof.
  rewrite <- length_tracker_jobs. f_equal.
  apply Permutation_length. apply NoDup_Permutation.
  - apply NoDup_tracker_jobs, tracker_wf_run, tracker_wf_new.
  - apply NoDup_nodup.
  - intros j. unfold referenced_jobs. rewrite nodup_In.
    rewrite In_tracker_jobs_run by apply tracker_wf_new.
    simpl. tauto.
Qed.

(** ** The total of the totals *)

Lemma aggregate_totals nice_path a dagman names evs :
  exists groups rows totals,
    aggregate nice_path false a dagman (run_events evs (new_tracker names))
    = Ok (groups, rows, totals)
    /\ totals_get TOTAL totals = sum_of_statuses totals
    /\ totals_get TOTAL totals = Z.of_nat (List.length (referenced_jobs evs)).
Proof.
  unfold aggregate. rewrite group_clusters_by_key_eq. cbn [bind].
  set (cs := clusters (run_events evs (new_tracker names))).
  destruct (make_rows_from_groups_totals nice_path
              (GROUPBY_ATTRIBUTE_TO_AD_KEY a) (grouped a cs [])
              (grouped_cells_defined nice_path a cs))
    as (rows & totals & Hmake & Htot & Hst).
  rewrite Hmake. cbn [bind fst snd].
  exists (grouped a cs []), rows, totals. split; [reflexivity|]. split.
  - rewrite Htot, jobs_in_groups_sum. unfold sum_of_statuses, sum_counts.
    cbn [fold_right JobStatus_members]. rewrite !Hst. lia.
  - rewrite Htot, grouped_jobs. cbn [jobs_in_groups fold_right].
    unfold cs. rewrite tracker_jobs_referenced. lia.
Qed.

Lemma referenced_jobs_incl evs evs' :
  (forall j, In j (map job_of (filter mapped (map snd evs))) ->
             In j (map job_of (filter mapped (map snd evs')))) ->
  (List.length (referenced_jobs evs) <= List.length (referenced_jobs evs'))%nat.
Proof.
  intros Hincl. apply NoDup_incl_length; [apply NoDup_nodup|].
  intros j. unfold referenced_jobs. rewrite !nodup_In. apply Hincl.
Qed.

Lemma referenced_jobs_perm evs evs' :
  Permutation evs evs' ->
  List.length (referenced_jobs evs) = List.length (referenced_jobs evs').
Proof.
  intros Hperm.
  assert (Hin : forall j, In j (map job_of (filter mapped (map snd evs))) <->
                          In j (map job_of (filter mapped (map snd evs')))).
  { intros j. rewrite !in_map_iff. split; intros (e & He & Hf); exists e;
      (split; [exact He|]); rewrite filter_In in *; destruct Hf as [Hf Hm];
      (split; [|exact Hm]); rewrite in_map_iff in *;
      destruct Hf as (pe & Hpe & Hpin); exists pe; (split; [exact Hpe|]).
    - now apply (Permutation_in _ Hperm).
    - now apply (Permutation_in _ (Permutation_sym Hperm)). }
  apply Nat.le_antisymm; apply referenced_jobs_incl; intros j; apply Hin.
Qed.

(** C1, amended.  With the clusters grouped by [group_clusters_by_key]
    (a tick of [watch_q] without the [dag] option), and whatever the
    grouping attribute: after any finite sequence of calls of
    [process_events] on a fresh tracker the aggregation returns, and
    [totals[TOTAL]] is the sum of the totals of the seven statuses, is
    the number of distinct (cluster id, proc id) pairs that the events
    with a mapped status refer to, is the same for every reordering of
    the events, and does not decrease when more events are processed. *)
Theorem total_counts_distinct_jobs nice_path a dagman names ticks :
  exists groups rows totals,
    aggregate nice_path false a dagman (tracker_after names ticks)
    = Ok (groups, rows, totals)
    /\ totals_get TOTAL totals = sum_of_statuses totals
    /\ totals_get TOTAL totals
       = Z.of_nat (List.length (referenced_jobs (events_of_ticks ticks)))
    /\ (forall ticks',
          Permutation (events_of_ticks ticks) (events_of_ticks ticks') ->
          exists groups' rows' totals',
            aggregate nice_path false a dagman (tracker_after names ticks')
            = Ok (groups', rows', totals')
            /\ totals_get TOTAL totals' = totals_get TOTAL totals)
    /\ (forall more,
          exists groups' rows' totals',
            aggregate nice_path false a dagman
                      (tracker_after names (ticks ++ more)%list)
            = Ok (groups', rows', totals')
            /\ totals_get TOTAL totals <= totals_get TOTAL totals').
Proof.
  rewrite tracker_after_run.
  destruct (aggregate_totals nice_path a dagman names (events_of_ticks ticks))
    as (groups & rows & totals & Hagg & Hsum & Hcount).
  exists groups, rows, totals. repeat split; try assumption.
  - intros ticks' Hperm. rewrite tracker_after_run.
    destruct (aggregate_totals nice_path a dagman names (events_of_ticks ticks'))
      as (groups' & rows' & totals' & Hagg' & _ & Hcount').
    exists groups', rows', totals'. split; [exact Hagg'|].
    rewrite Hcount, Hcount'. f_equal. symmetry.
    now apply referenced_jobs_perm.
  - intros more. rewrite tracker_after_run.
    destruct (aggregate_totals nice_path a dagman names
                (events_of_ticks (ticks ++ more)%list))
      as (groups' & rows' & totals' & Hagg' & _ & Hcount').
    exists groups', rows', totals'. split; [exact Hagg'|].
    rewrite Hcount, Hcount'. apply inj_le. apply referenced_jobs_incl.
    intros j. unfold events_of_ticks. rewrite flat_map_app, map_app, filter_app,
      map_app, in_app_iff. tauto.
Qed.

(** ** Sorting by an integer key *)

Section SortFacts.
Context {A : Type} (key : A -> Z).

Lemma insert_by_perm x l : Permutation (x :: l) (insert_by Z.ltb key x l).
Proof.
  induction l as [|y l IH]; simpl.
  - reflexivity.
  - destruct (key y <? key x)%Z.
    + rewrite perm_swap. now apply perm_skip.
    + reflexivity.
Qed.

Lemma sort_by_perm l : Permutation l (sort_by Z.ltb key l).
Proof.
  induction l as [|x l IH]; simpl.
  - reflexivity.
  - rewrite <- insert_by_perm. now apply perm_skip.
Qed.

Lemma insert_by_sorted x l :
  StronglySorted (key_le key) l -> StronglySorted (key_le key) (insert_by Z.ltb key x l).
Proof.
  induction l as [|y l IH]; intros Hs; simpl.
  - repeat constructor.
  - inversion Hs as [|? ? Hl Hy]; subst.
    destruct (Z.ltb_spec (key y) (key x)) as [Hlt|Hge].
    + constructor; [now apply IH|].
      apply Forall_forall. intros z Hz.
      apply (Permutation_in _ (Permutation_sym (insert_by_perm x l))) in Hz.
      destruct Hz as [<-|Hz]; [unfold key_le; lia|].
      rewrite Forall_forall in Hy. now apply Hy.
    + constructor; [assumption|]. constructor; [exact Hge|].
      rewrite Forall_forall in *. intros z Hz. unfold key_le in *.
      specialize (Hy z Hz). lia.
Qed.

Lemma sort_by_sorted l : StronglySorted (key_le key) (sort_by Z.ltb key l).
Proof.
  induction l as [|x l IH]; simpl.
  - constructor.
  - now apply insert_by_sorted.
Qed.
End SortFacts.

Lemma sorted_precedes {A : Type} (R : A -> A -> Prop) (x y : A) l :
  StronglySorted R l -> In x l -> In y l -> ~ R y x -> x <> y ->
  precedes x y l.
Proof.
  intros Hs Hx Hy Hnr Hne. induction Hs as [|a l Hs IH Hall].
  - destruct Hx.
  - destruct Hx as [->|Hx], Hy as [->|Hy].
    + congruence.
    + apply in_split in Hy. destruct Hy as (l2 & l3 & ->).
      now exists [], l2, l3.
    + rewrite Forall_forall in Hall. specialize (Hall x Hx). tauto.
    + destruct (IH Hx Hy) as (l1 & l2 & l3 & ->).
      now exists (a :: l1), l2, l3.
Qed.

(** ** The order of the rows *)

Lemma fold_left_min_le l a :
  fold_left Z.min l a <= a /\ Forall (fun z => fold_left Z.min l a <= z) l.
Proof.
  revert a. induction l as [|z l IH]; intros a; simpl.
  - split; [lia|constructor].
  - destruct (IH (Z.min a z)) as [Hle Hall]. split; [lia|].
    constructor; [lia|exact Hall].
Qed.

Lemma fold_left_min_In l a :
  fold_left Z.min l a = a \/ In (fold_left Z.min l a) l.
Proof.
  revert a. induction l as [|z l IH]; intros a; simpl.
  - now left.
  - destruct (IH (Z.min a z)) as [Heq|Hin]; [|tauto].
    rewrite Heq. destruct (Z.min_spec a z) as [[_ ->]|[_ ->]]; tauto.
Qed.

Lemma min_cluster_id_least cs :
  cs <> [] -> exists m, min_cluster_id cs = Ok m /\ least_cluster_id m cs.
Proof.
  destruct cs as [|c cs]; [congruence|]. intros _. simpl.
  eexists. split; [reflexivity|].
  destruct (fold_left_min_le (map cluster_id cs) (cluster_id c)) as [Hle Hall].
  split.
  - destruct (fold_left_min_In (map cluster_id cs) (cluster_id c)) as [->|Hin];
      simpl; tauto.
  - constructor; [exact Hle|]. rewrite Forall_map in Hall. exact Hall.
Qed.

Lemma mapM_row_sort_key groups rows :
  Forall (fun kr => group_of groups (fst kr) <> []) rows ->
  exists ks, mapM (row_sort_key groups) rows = Ok ks
             /\ Forall2 (fun k kr => row_sort_key groups kr = Ok k) ks rows.
Proof.
  induction 1 as [|kr rows Hne _ IH].
  - exists []. split; [reflexivity|constructor].
  - destruct IH as (ks & Hks & Hall).
    destruct (min_cluster_id_least _ Hne) as (m & Hm & _).
    exists (m :: ks). cbn [mapM]. unfold row_sort_key at 1. rewrite Hm.
    cbn [bind]. rewrite Hks. cbn [bind]. split; [reflexivity|].
    constructor; assumption.
Qed.

Lemma combine_Forall2 {A B : Type} (P : A -> B -> Prop) l l' :
  Forall2 P l l' ->
  Forall (fun ab => P (fst ab) (snd ab)) (combine l l')
  /\ map snd (combine l l') = l'.
Proof.
  induction 1 as [|a b l l' Hab _ [IH1 IH2]]; simpl.
  - split; [constructor|reflexivity].
  - split; [now constructor|now rewrite IH2].
Qed.

Lemma StronglySorted_map {A B : Type} (R : A -> A -> Prop) (S : B -> B -> Prop)
    (f : A -> B) l :
  (forall a b, In a l -> In b l -> R a b -> S (f a) (f b)) ->
  StronglySorted R l -> StronglySorted S (map f l).
Proof.
  intros Hrs Hs. induction Hs as [|a l Hs IH Hall]; simpl.
  - constructor.
  - constructor.
    + apply IH. intros x y Hx Hy. apply Hrs; now right.
    + rewrite Forall_map. rewrite Forall_forall in *. intros x Hx.
      apply Hrs; [now left|now right|now apply Hall].
Qed.

Lemma sort_rows_spec groups rows_by_key :
  Forall (fun kr => group_of groups (fst kr) <> []) rows_by_key ->
  exists sorted,
    sort_rows groups rows_by_key = Ok sorted
    /\ Permutation rows_by_key sorted
    /\ (forall r, In r sorted ->
          exists m, row_sort_key groups r = Ok m
                    /\ least_cluster_id m (group_of groups (fst r)))
    /\ StronglySorted (sort_key_le groups) sorted
    /\ (forall r1 r2 m1 m2,
          In r1 sorted -> In r2 sorted ->
          row_sort_key groups r1 = Ok m1 ->
          row_sort_key groups r2 = Ok m2 ->
          m1 < m2 -> precedes r1 r2 sorted).
Proof.
  intros Hne.
  destruct (mapM_row_sort_key groups rows_by_key Hne) as (ks & Hks & Hall).
  destruct (combine_Forall2 _ _ _ Hall) as [Hcomb Hsnd].
  unfold sort_rows. rewrite Hks. cbn [bind].
  set (items := combine ks rows_by_key) in *.
  pose proof (sort_by_perm fst items) as Hperm.
  assert (Hperm' : Permutation rows_by_key
                     (map snd (sort_by Z.ltb fst items))).
  { rewrite <- Hsnd at 1. now apply Permutation_map. }
  assert (Hsorted : StronglySorted (sort_key_le groups)
                      (map snd (sort_by Z.ltb fst items))).
  { apply (StronglySorted_map (key_le fst)); [|apply sort_by_sorted].
    intros a b Ha Hb Hab. rewrite Forall_forall in Hcomb.
    exists (fst a), (fst b). repeat split; [| |exact Hab]; apply Hcomb;
      eapply Permutation_in; try eassumption; now apply Permutation_sym. }
  eexists. split; [reflexivity|]. split; [exact Hperm'|].
  split; [|split; [exact Hsorted|]].
  - intros r Hr. apply (Permutation_in _ (Permutation_sym Hperm')) in Hr.
    rewrite Forall_forall in Hne. specialize (Hne r Hr).
    destruct (min_cluster_id_least _ Hne) as (m & Hm & Hleast).
    exists m. split; assumption.
  - intros r1 r2 m1 m2 H1 H2 Hk1 Hk2 Hlt.
    apply (sorted_precedes (sort_key_le groups)); try assumption.
    + intros (n2 & n1 & Hn2 & Hn1 & Hle). rewrite Hk1 in Hn1. rewrite Hk2 in Hn2.
      injection Hn1 as <-. injection Hn2 as <-. lia.
    + intros ->. rewrite Hk1 in Hk2. injection Hk2 as ->. lia.
Qed.

(** ** Pruning the columns *)

Lemma dict_get_remove_other {K V : Type} `{EqKeyLaws K} (k k' : K)
    (d : dict K V) :
  k <> k' -> dict_get k' (dict_remove k d) = dict_get k' d.
Proof.
  intros Hne. induction d as [|[k0 v0] d IH]; simpl.
  - reflexivity.
  - destruct (keqb_spec k k0) as [->|Hne0]; simpl.
    + rewrite keqb_neq; congruence.
    + now rewrite IH.
Qed.

Lemma all_zero_eq h rows :
  Forall (fun row => dict_mem h row = true) rows ->
  all_zero h rows = Ok (forallb (cell_is_zero h) rows).
Proof.
  induction 1 as [|row rows Hmem _ IH]; simpl.
  - reflexivity.
  - unfold getitem, cell_is_zero, dict_mem in *.
    destruct (dict_get h row) as [v|]; [|discriminate]. cbn [bind].
    destruct (is_zero v); [exact IH|reflexivity].
Qed.

Lemma empty_columns_eq hs rows :
  Forall (has_columns hs) rows ->
  empty_columns hs rows
  = Ok (filter (fun h => forallb (cell_is_zero h) rows) hs).
Proof.
  induction hs as [|h hs IH]; intros Hall; simpl.
  - reflexivity.
  - rewrite all_zero_eq.
    + cbn [bind]. rewrite IH.
      * cbn [bind]. now destruct (forallb (cell_is_zero h) rows).
      * eapply Forall_impl; [|exact Hall]. intros row Hrow.
        now inversion Hrow.
    + eapply Forall_impl; [|exact Hall]. intros row Hrow.
      now inversion Hrow.
Qed.

Lemma pop_column_spec rows h :
  Forall (fun kr => dict_mem h (snd kr) = true) rows ->
  exists rows', pop_column rows h = Ok rows' /\ rows_without [h] rows rows'.
Proof.
  unfold pop_column. induction 1 as [|[k row] rows Hmem _ IH].
  - exists []. split; [reflexivity|constructor].
  - destruct IH as (rows' & Hpop & Hwo). cbn [mapM fst snd] in *.
    unfold pop at 1. unfold dict_mem in Hmem.
    destruct (dict_get h row) as [v|] eqn:Hg; [|discriminate]. cbn [bind].
    rewrite Hpop. cbn [bind]. eexists. split; [reflexivity|].
    constructor; [|exact Hwo]. cbn [fst snd]. split; [reflexivity|].
    intros c Hc. apply dict_get_remove_other. intros ->. apply Hc. now left.
Qed.

Lemma rows_without_refl rows : rows_without [] rows rows.
Proof.
  unfold rows_without. induction rows; constructor; [tauto|assumption].
Qed.

Lemma rows_without_trans cols h rows rows' rows'' :
  rows_without [h] rows rows' -> rows_without cols rows' rows'' ->
  rows_without (h :: cols) rows rows''.
Proof.
  unfold rows_without. intros H1. revert rows''.
  induction H1 as [|kr kr' rows rows' [Hk Hc] _ IH]; intros rows'' H2;
    inversion H2 as [|? kr'' ? rows3 [Hk' Hc'] H2']; subst; constructor.
  - split; [congruence|]. intros c Hn. simpl in Hn.
    rewrite Hc', Hc; [reflexivity| |]; simpl; tauto.
  - now apply IH.
Qed.

Lemma foldM_pop_column cols rows :
  NoDup cols ->
  Forall (fun kr => has_columns cols (snd kr)) rows ->
  exists rows', foldM pop_column cols rows = Ok rows'
                /\ rows_without cols rows rows'.
Proof.
  intros Hnd. revert rows. induction Hnd as [|h cols Hh Hnd IH]; intros rows Hall.
  - exists rows. split; [reflexivity|apply rows_without_refl].
  - destruct (pop_column_spec rows h) as (rows1 & Hpop & Hwo).
    { eapply Forall_impl; [|exact Hall]. intros kr Hkr. now inversion Hkr. }
    cbn [foldM]. rewrite Hpop. cbn [bind].
    destruct (IH rows1) as (rows' & Hfold & Hwo').
    { clear - Hall Hwo Hh. unfold rows_without in Hwo.
      induction Hwo as [|kr kr' rows rows1 [_ Hc] _ IHw]; [constructor|].
      inversion Hall as [|? ? Hkr Hall']; subst.
      constructor; [|now apply IHw].
      inversion Hkr as [|? ? _ Hcols]; subst.
      unfold has_columns in *. rewrite Forall_forall in *.
      intros c Hcin. unfold dict_mem. rewrite Hc.
      - now apply Hcols.
      - intros [->|[]]. contradiction. }
    exists rows'. split; [exact Hfold|].
    now apply (rows_without_trans cols h rows rows1 rows').
Qed.

Lemma column_in_In h s : column_in h s = true <-> In h s.
Proof.
  unfold column_in. rewrite existsb_exists. split.
  - intros (x & Hx & Heq). destruct (keqb_spec h x); congruence.
  - intros Hin. exists h. split; [exact Hin|apply keqb_refl].
Qed.

Lemma NoDup_HEADERS : NoDup HEADERS.
Proof.
  unfold HEADERS, ordered, TOTAL, ACTIVE_JOBS. simpl.
  repeat constructor; simpl; intuition discriminate.
Qed.

Lemma In_dont_include h rows :
  In h (dont_include rows) <->
  In h HEADERS /\ ~ In h ALWAYS_INCLUDE
  /\ forall row, In row rows -> cell_is_zero h row = true.
Proof.
  unfold dont_include. rewrite !filter_In, negb_true_iff, forallb_forall.
  pose proof (column_in_In h ALWAYS_INCLUDE) as Hin.
  destruct (column_in h ALWAYS_INCLUDE); intuition congruence.
Qed.

Lemma strip_empty_columns_eq rows_by_key :
  Forall (fun kr => has_columns HEADERS (snd kr)) rows_by_key ->
  exists rows',
    strip_empty_columns rows_by_key
    = Ok (filter (fun h => negb (column_in h (dont_include (values rows_by_key))))
                 HEADERS, rows')
    /\ rows_without (dont_include (values rows_by_key)) rows_by_key rows'.
Proof.
  intros Hall. unfold strip_empty_columns.
  rewrite empty_columns_eq.
  2:{ unfold values. rewrite Forall_map. exact Hall. }
  cbn [bind]. fold (dont_include (values rows_by_key)).
  destruct (foldM_pop_column (dont_include (values rows_by_key)) rows_by_key)
    as (rows' & Hfold & Hwo).
  - unfold dont_include. apply NoDup_filter, NoDup_filter, NoDup_HEADERS.
  - eapply Forall_impl; [|exact Hall]. intros kr Hkr.
    unfold has_columns in *. rewrite Forall_forall in *.
    intros h Hh. apply Hkr. apply In_dont_include in Hh. tauto.
  - rewrite Hfold. cbn [bind]. exists rows'. split; [reflexivity|exact Hwo].
Qed.

Lemma is_zero_true v : is_zero v = true <-> v = VInt 0.
Proof.
  destruct v as [z|s|]; simpl; split; try discriminate.
  - intros Hz. apply Z.eqb_eq in Hz. now subst.
  - intros [= ->]. reflexivity.
Qed.

Lemma cell_is_zero_true h row :
  cell_is_zero h row = true <-> dict_get h row = Some (VInt 0).
Proof.
  unfold cell_is_zero. destruct (dict_get h row) as [v|].
  - rewrite is_zero_true. split; congruence.
  - split; discriminate.
Qed.

Lemma rows_without_keys cols rows rows' :
  rows_without cols rows rows' -> keys rows' = keys rows.
Proof.
  induction 1 as [|kr kr' rows rows' [Hk _] _ IH]; [reflexivity|].
  unfold keys in *. simpl. f_equal; assumption.
Qed.

Lemma rows_without_In cols rows rows' kr' :
  rows_without cols rows rows' -> In kr' rows' ->
  exists kr, In kr rows /\ fst kr' = fst kr
             /\ forall c, ~ In c cols ->
                  dict_get c (snd kr') = dict_get c (snd kr).
Proof.
  induction 1 as [|kr0 kr0' rows rows' Hkr _ IH]; intros Hin.
  - destruct Hin.
  - destruct Hin as [<-|Hin].
    + exists kr0. split; [now left|exact Hkr].
    + destruct (IH Hin) as (kr & Hkr' & Hrest). exists kr. split; [now right|].
      exact Hrest.
Qed.

Lemma key_column_not_header a : ~ In (GROUPBY_ATTRIBUTE_TO_AD_KEY a) HEADERS.
Proof. destruct a; simpl; intuition discriminate. Qed.

Lemma strip_empty_columns_spec rows_by_key :
  Forall (fun kr => has_columns HEADERS (snd kr)) rows_by_key ->
  exists headers rows',
    strip_empty_columns rows_by_key = Ok (headers, rows')
    /\ (forall h, In h HEADERS ->
          (~ In h headers <->
           ~ In h ALWAYS_INCLUDE
           /\ forall kr, In kr rows_by_key ->
                dict_get h (snd kr) = Some (VInt 0)))
    /\ (forall h, In h headers -> In h HEADERS)
    /\ (In (Status IDLE) headers /\ In (Status RUNNING) headers
        /\ In (Status COMPLETED) headers /\ In TOTAL headers)
    /\ keys rows' = keys rows_by_key
    /\ (forall kr' h, In kr' rows' -> In h headers ->
          dict_mem h (snd kr') = true)
    /\ Forall2 (fun kr kr' =>
                  fst kr' = fst kr
                  /\ (forall h, In h headers ->
                        dict_get h (snd kr') = dict_get h (snd kr))
                  /\ (forall a,
                        dict_get (GROUPBY_ATTRIBUTE_TO_AD_KEY a) (snd kr')
                        = dict_get (GROUPBY_ATTRIBUTE_TO_AD_KEY a) (snd kr)))
               rows_by_key rows'.
Proof.
  intros Hall.
  destruct (strip_empty_columns_eq rows_by_key Hall) as (rows' & Hstrip & Hwo).
  set (di := dont_include (values rows_by_key)) in *.
  set (headers := filter (fun h => negb (column_in h di)) HEADERS) in *.
  assert (Hin : forall h, In h headers <-> In h HEADERS /\ ~ In h di).
  { intros h. unfold headers. rewrite filter_In, negb_true_iff.
    pose proof (column_in_In h di). destruct (column_in h di);
      intuition congruence. }
  assert (Hdi : forall h, In h di <->
            In h HEADERS /\ ~ In h ALWAYS_INCLUDE
            /\ forall kr, In kr rows_by_key ->
                 dict_get h (snd kr) = Some (VInt 0)).
  { intros h. unfold di. rewrite In_dont_include. unfold values.
    split; intros (Hh & Hn & Hz); (split; [exact Hh|split; [exact Hn|]]).
    - intros kr Hkr. apply cell_is_zero_true. apply Hz. now apply in_map.
    - intros row Hrow. apply in_map_iff in Hrow.
      destruct Hrow as (kr & <- & Hkr). apply cell_is_zero_true. now apply Hz. }
  assert (Hkept : forall h, In h HEADERS -> In h ALWAYS_INCLUDE -> In h headers).
  { intros h Hh Ha. apply Hin. split; [exact Hh|]. rewrite Hdi. tauto. }
  exists headers, rows'. split; [exact Hstrip|].
  split; [|split; [|split; [|split; [|split]]]].
  - intros h Hh. rewrite Hin. pose proof (Hdi h) as Hd.
    destruct (in_dec (fun a b => reflect_dec _ _ (keqb_spec a b)) h di); tauto.
  - intros h Hh. now apply Hin.
  - repeat split; apply Hkept; simpl; tauto.
  - now apply rows_without_keys in Hwo.
  - intros kr' h Hkr' Hh. apply Hin in Hh. destruct Hh as [Hh Hn].
    destruct (rows_without_In _ _ _ _ Hwo Hkr') as (kr & Hkr & _ & Hsame).
    unfold dict_mem. rewrite (Hsame h Hn).
    rewrite Forall_forall in Hall. specialize (Hall kr Hkr).
    unfold has_columns in Hall. rewrite Forall_forall in Hall.
    now apply Hall.
  - unfold rows_without in Hwo. eapply Forall2_impl; [|exact Hwo].
    intros kr kr' [Hk Hsame]. split; [exact Hk|]. split.
    + intros h Hh. apply Hsame. now apply Hin in Hh.
    + intros a. apply Hsame. intros Ha. apply Hdi in Ha.
      now apply (key_column_not_header a).
Qed.

(** C6.  On rows that have a cell for every header, [strip_empty_columns]
    returns; a header is left out exactly when it is not in
    [ALWAYS_INCLUDE] and its cell is [0] in every row, so [IDLE],
    [RUNNING], [COMPLETED] and [TOTAL] are always kept; the rows keep
    their keys; every header that is kept is still a key of every row,
    with the cell it had; and the cell of the grouping column, which is
    no header, stays in every row. *)
Theorem strip_empty_columns_keeps_nonzero_columns rows_by_key :
  Forall (fun kr => has_columns HEADERS (snd kr)) rows_by_key ->
  exists headers rows',
    strip_empty_columns rows_by_key = Ok (headers, rows')
    /\ (forall h, In h HEADERS ->
          (~ In h headers <->
           ~ In h ALWAYS_INCLUDE
           /\ forall kr, In kr rows_by_key ->
                dict_get h (snd kr) = Some (VInt 0)))
    /\ (forall h, In h headers -> In h HEADERS)
    /\ (In (Status IDLE) headers /\ In (Status RUNNING) headers
        /\ In (Status COMPLETED) headers /\ In TOTAL headers)
    /\ keys rows' = keys rows_by_key
    /\ (forall kr' h, In kr' rows' -> In h headers ->
          dict_mem h (snd kr') = true)
    /\ Forall2 (fun kr kr' =>
                  fst kr' = fst kr
                  /\ (forall h, In h headers ->
                        dict_get h (snd kr') = dict_get h (snd kr))
                  /\ (forall a,
                        dict_get (GROUPBY_ATTRIBUTE_TO_AD_KEY a) (snd kr')
                        = dict_get (GROUPBY_ATTRIBUTE_TO_AD_KEY a) (snd kr)))
               rows_by_key rows'.
Proof. apply strip_empty_columns_spec. Qed.

Lemma row_of_clusters_columns cs : has_columns HEADERS (row_of_clusters cs).
Proof. unfold has_columns, HEADERS. simpl. repeat constructor. Qed.

(** C10.  When there is at least one row and the [JOB_IDS] cell of
    every row is a string, as in every row that
    [row_data_from_job_state] builds (where it is the empty string when
    no job is active), [strip_empty_columns] keeps the [JOB_IDS] header
    and leaves that cell in every row; on no rows at all it keeps only
    [IDLE], [RUNNING], [COMPLETED] and [TOTAL], so [JOB_IDS], [REMOVED],
    [HELD], [SUSPENDED] and [TRANSFERRING_OUTPUT] are left out. *)
Theorem job_ids_column_pruned_only_without_rows :
  (forall rows_by_key,
     rows_by_key <> [] ->
     Forall (fun kr => has_columns HEADERS (snd kr)) rows_by_key ->
     Forall (fun kr => exists text,
                 dict_get ACTIVE_JOBS (snd kr) = Some (VStr text)) rows_by_key ->
     exists headers rows',
       strip_empty_columns rows_by_key = Ok (headers, rows')
       /\ In ACTIVE_JOBS headers
       /\ Forall (fun kr' => exists text,
                    dict_get ACTIVE_JOBS (snd kr') = Some (VStr text)) rows')
  /\ (forall cs, exists row text,
        row_data_from_job_state cs = Ok row
        /\ has_columns HEADERS row
        /\ dict_get ACTIVE_JOBS row = Some (VStr text)
        /\ (active_ids cs = [] -> text = EmptyString))
  /\ strip_empty_columns []
     = Ok ([Status IDLE; Status RUNNING; Status COMPLETED; TOTAL], []).
Proof.
  split; [|split].
  - intros rows_by_key Hne Hall Hstr.
    destruct (strip_empty_columns_spec rows_by_key Hall)
      as (headers & rows' & Hstrip & Hiff & _ & _ & _ & _ & Hsame).
    assert (Hkept : In ACTIVE_JOBS headers).
    { destruct (in_dec (fun a b => reflect_dec _ _ (keqb_spec a b))
                       ACTIVE_JOBS headers) as [Hin|Hn]; [exact Hin|].
      exfalso. apply Hiff in Hn; [|simpl; tauto]. destruct Hn as [_ Hz].
      destruct rows_by_key as [|kr rows]; [congruence|].
      inversion Hstr as [|? ? [text Htext] _]; subst.
      specialize (Hz kr (or_introl eq_refl)).
      pose proof (eq_trans (eq_sym Hz) Htext) as Hc. discriminate Hc. }
    exists headers, rows'. split; [exact Hstrip|]. split; [exact Hkept|].
    clear - Hsame Hstr Hkept.
    induction Hsame as [|kr kr' rows rows' (_ & Hh & _) _ IH]; [constructor|].
    inversion Hstr as [|? ? [text Htext] Hstr']; subst.
    constructor; [|now apply IH].
    exists text. now rewrite (Hh _ Hkept).
  - intros cs. eexists. eexists. rewrite row_data_from_job_state_eq.
    split; [reflexivity|]. split; [apply row_of_clusters_columns|].
    split; [reflexivity|]. intros ->. reflexivity.
  - reflexivity.
Qed.

(** ** Digits *)

Section FloatFacts.
Local Close Scope string_scope.

Lemma digits2_pos_log2 p : Zpos (digits2_pos p) = Z.log2 (Zpos p) + 1.
Proof.
  assert (Hsize : forall q, digits2_pos q = Pos.size q).
  { induction q; simpl; congruence. }
  destruct p; simpl; rewrite ?Hsize; lia.
Qed.

Lemma Zdigits2_nonneg z : 0 <= Zdigits2 z.
Proof. destruct z; simpl; lia. Qed.

Lemma Zdigits2_pos_log2 z : 0 < z -> Zdigits2 z = Z.log2 z + 1.
Proof. destruct z; try lia. intros _. apply digits2_pos_log2. Qed.

Lemma Zdigits2_le a b : 0 <= a <= b -> Zdigits2 a <= Zdigits2 b.
Proof.
  intros [Ha Hab]. destruct (Z.eq_dec a 0) as [->|Hne].
  - apply Zdigits2_nonneg.
  - rewrite !Zdigits2_pos_log2 by lia.
    pose proof (Z.log2_le_mono a b Hab). lia.
Qed.

Lemma Zdigits2_succ a : 0 <= a -> Zdigits2 (a + 1) <= Zdigits2 a + 1.
Proof.
  intros Ha. destruct (Z.eq_dec a 0) as [->|Hne]; [simpl; lia|].
  rewrite !Zdigits2_pos_log2 by lia.
  pose proof (Z.log2_succ_le a). unfold Z.succ in *. lia.
Qed.

Lemma Zdigits2_mul a b :
  0 < a -> 0 < b -> Zdigits2 (a * b) <= Zdigits2 a + Zdigits2 b.
Proof.
  intros Ha Hb. rewrite !Zdigits2_pos_log2 by lia.
  pose proof (Z.log2_mul_above a b). lia.
Qed.

Lemma Zdigits2_shiftl a n :
  0 < a -> 0 <= n -> Zdigits2 (Z.shiftl a n) = Zdigits2 a + n.
Proof.
  intros Ha Hn.
  assert (0 < Z.shiftl a n).
  { rewrite Z.shiftl_mul_pow2 by assumption.
    apply Z.mul_pos_pos; [assumption|]. now apply Z.pow_pos_nonneg. }
  rewrite !Zdigits2_pos_log2 by assumption.
  rewrite Z.log2_shiftl by lia. lia.
Qed.

Lemma Zdigits2_lt_pow2 z k : 0 <= k -> Z.abs z < 2 ^ k -> Zdigits2 z <= k.
Proof.
  intros Hk Hz. destruct z as [|p|p]; [simpl; lia| |];
    cbn [Zdigits2]; rewrite digits2_pos_log2;
    cbn [Z.abs] in Hz; apply Z.log2_lt_pow2 in Hz; lia.
Qed.

(** ** Shifting a mantissa to the right *)

Lemma shr_1_digits mrs :
  0 <= shr_m mrs ->
  0 <= shr_m (shr_1 mrs)
  /\ Zdigits2 (shr_m (shr_1 mrs)) = Z.max 0 (Zdigits2 (shr_m mrs) - 1).
Proof.
  destruct mrs as [m r s]. cbn [shr_m]. intros Hm.
  destruct m as [|p|p]; [simpl; lia| |lia].
  destruct p; cbn [shr_1 shr_m Zdigits2 digits2_pos]; lia.
Qed.

Lemma iter_shr_1_digits p mrs :
  0 <= shr_m mrs ->
  0 <= shr_m (iter_pos shr_1 p mrs)
  /\ Zdigits2 (shr_m (iter_pos shr_1 p mrs))
     = Z.max 0 (Zdigits2 (shr_m mrs) - Zpos p).
Proof.
  revert mrs. induction p as [p IH|p IH|]; intros mrs Hm; cbn [iter_pos].
  - destruct (shr_1_digits mrs Hm) as [H1 D1].
    destruct (IH _ H1) as [H2 D2]. destruct (IH _ H2) as [H3 D3].
    split; [exact H3|]. rewrite D3, D2, D1. lia.
  - destruct (IH _ Hm) as [H2 D2]. destruct (IH _ H2) as [H3 D3].
    split; [exact H3|]. rewrite D3, D2. lia.
  - apply shr_1_digits, Hm.
Qed.

Lemma shr_m_of_loc m l : shr_m (shr_record_of_loc m l) = m.
Proof. destruct l as [|[]]; reflexivity. Qed.

(** [shr_fexp] on a mantissa that is not negative: the exponent does not
    decrease, it is at least the exponent of the format, and the digits
    that are shifted out are gone. *)
Lemma shr_fexp_digits m e l :
  0 <= m ->
  let r := shr_fexp prec emax m e l in
  0 <= shr_m (fst r)
  /\ snd r = Z.max e (fexp prec emax (Zdigits2 m + e))
  /\ Zdigits2 (shr_m (fst r)) = Z.max 0 (Zdigits2 m - (snd r - e)).
Proof.
  intros Hm. unfold shr_fexp, shr.
  remember (fexp prec emax (Zdigits2 m + e) - e) as n eqn:Hn.
  pose proof (Zdigits2_nonneg m) as Hdm.
  assert (Hrec : 0 <= shr_m (shr_record_of_loc m l))
    by now rewrite shr_m_of_loc.
  destruct n as [|p|p]; cbn [fst snd].
  - rewrite shr_m_of_loc. repeat split; lia.
  - destruct (iter_shr_1_digits p _ Hrec) as [H1 D1].
    rewrite shr_m_of_loc in D1. repeat split; [exact H1|lia|].
    rewrite D1. lia.
  - rewrite shr_m_of_loc. repeat split; lia.
Qed.

Lemma fbounded_weaken lo hi lo' hi' f :
  fbounded lo hi f -> lo' <= lo -> hi <= hi' -> fbounded lo' hi' f.
Proof. destruct f; simpl; try tauto. intros [[? ?] ?] ? ?. lia. Qed.

Lemma round_nearest_even_bounds m l :
  m <= round_nearest_even m l <= m + 1.
Proof.
  unfold round_nearest_even. destruct l as [|[]]; try lia.
  destruct (Z.even m); lia.
Qed.

(** Rounding a number that is far below the largest float gives zero or
    a finite float. *)
Lemma binary_round_aux_bounded s mx ex lx :
  0 <= mx -> ex <= 970 -> Zdigits2 mx + ex <= 1023 ->
  fbounded ex (Z.max (Z.max ex (Zdigits2 mx + ex - 53)) (-1074) + 1)
           (binary_round_aux prec emax s mx ex lx).
Proof.
  intros Hm He Hd. unfold binary_round_aux.
  pose proof (shr_fexp_digits mx ex lx Hm) as H1. cbv zeta in H1.
  destruct (shr_fexp prec emax mx ex lx) as [mrs' e'].
  cbn [fst snd] in H1. destruct H1 as (Hm' & He' & Hd').
  set (m2 := round_nearest_even (shr_m mrs') (loc_of_shr_record mrs')).
  pose proof (round_nearest_even_bounds (shr_m mrs') (loc_of_shr_record mrs'))
    as Hm2. fold m2 in Hm2.
  assert (Hm2' : 0 <= m2) by lia.
  pose proof (shr_fexp_digits m2 e' loc_Exact Hm2') as H2. cbv zeta in H2.
  destruct (shr_fexp prec emax m2 e' loc_Exact) as [mrs'' e''].
  cbn [fst snd] in H2. destruct H2 as (Hm'' & He'' & Hd'').
  assert (Hfexp : forall x, fexp prec emax x = Z.max (x - 53) (-1074)).
  { intros x. unfold fexp, emin, prec, emax. lia. }
  rewrite Hfexp in He', He''.
  assert (Hdm' : Zdigits2 (shr_m mrs') <= 53) by lia.
  assert (Hdm2 : Zdigits2 m2 <= 54).
  { pose proof (Zdigits2_le m2 (shr_m mrs' + 1)).
    pose proof (Zdigits2_succ (shr_m mrs') Hm'). lia. }
  pose proof (Zdigits2_nonneg m2) as Hd2.
  destruct (shr_m mrs'') as [|m|m] eqn:Hs; [exact I| |lia].
  assert (Hle : (e'' <=? emax - prec) = true).
  { apply Z.leb_le. unfold emax, prec. lia. }
  rewrite Hle. cbn [fbounded]. split; [lia|]. lia.
Qed.

(** ** Conversion, division and product of small numbers *)

Lemma digits2_pos_iter_xO m d :
  digits2_pos (Pos.iter xO m d) = (digits2_pos m + d)%positive.
Proof.
  induction d as [|d IH] using Pos.peano_ind.
  - simpl. lia.
  - rewrite Pos.iter_succ. cbn [digits2_pos]. rewrite IH. lia.
Qed.

Lemma shl_align_digits mx ex ex' :
  snd (shl_align mx ex ex') = Z.min ex ex'
  /\ Zpos (digits2_pos (fst (shl_align mx ex ex'))) + snd (shl_align mx ex ex')
     = Zpos (digits2_pos mx) + ex.
Proof.
  unfold shl_align. destruct (ex' - ex) as [|d|d] eqn:Hd; cbn [fst snd].
  - lia.
  - lia.
  - rewrite digits2_pos_iter_xO. lia.
Qed.

Lemma binary_round_bounded s m k :
  0 <= k <= 1000 -> Zpos m < 2 ^ k ->
  fbounded (-52) (Z.max 0 (k - 53) + 1) (binary_round prec emax s m 0).
Proof.
  intros Hk Hm. unfold binary_round.
  pose proof (shl_align_digits m 0
                (fexp prec emax (Zpos (digits2_pos m) + 0))) as [He Hd].
  destruct (shl_align m 0 (fexp prec emax (Zpos (digits2_pos m) + 0)))
    as [mz ez]. cbn [fst snd] in *.
  assert (Hdig : Zpos (digits2_pos m) <= k).
  { apply (Zdigits2_lt_pow2 (Zpos m)); [lia|]. simpl. exact Hm. }
  assert (Hfexp : fexp prec emax (Zpos (digits2_pos m) + 0)
                  = Z.max (Zpos (digits2_pos m) - 53) (-1074)).
  { unfold fexp, emin, prec, emax. lia. }
  rewrite Hfexp in He.
  eapply fbounded_weaken.
  - apply binary_round_aux_bounded; cbn [Zdigits2]; lia.
  - lia.
  - cbn [Zdigits2]. lia.
Qed.

Lemma float_of_int_bounded n k :
  0 <= k <= 1000 -> Z.abs n < 2 ^ k ->
  exists f, float_of_int n = Ok f
            /\ fbounded (-52) (Z.max 0 (k - 53) + 1) f.
Proof.
  intros Hk Hn. unfold float_of_int, binary_normalize.
  destruct n as [|m|m].
  - eexists. split; [reflexivity|exact I].
  - pose proof (binary_round_bounded false m k Hk Hn) as Hb.
    destruct (binary_round prec emax false m 0); try contradiction;
      eexists; (split; [reflexivity|exact Hb]).
  - pose proof (binary_round_bounded true m k Hk Hn) as Hb.
    destruct (binary_round prec emax true m 0); try contradiction;
      eexists; (split; [reflexivity|exact Hb]).
Qed.

Lemma SFmul_bounded lo1 hi1 lo2 hi2 x y :
  fbounded lo1 hi1 x -> fbounded lo2 hi2 y ->
  hi1 + hi2 <= 900 ->
  fbounded (lo1 + lo2) (Z.max (hi1 + hi2 + 55) (-1074) + 1)
           (SFmul prec emax x y).
Proof.
  intros Hx Hy Hhi.
  destruct x as [sx| | |sx mx ex], y as [sy| | |sy my ey];
    cbn [fbounded SFmul] in *; try tauto.
  destruct Hx as [Hex Hdx], Hy as [Hey Hdy].
  pose proof (Zdigits2_mul (Zpos mx) (Zpos my) eq_refl eq_refl) as Hmul.
  eapply fbounded_weaken.
  - apply binary_round_aux_bounded; [lia|lia|].
    change (Zpos (mx * my)) with (Zpos mx * Zpos my). lia.
  - lia.
  - change (Zpos (mx * my)) with (Zpos mx * Zpos my). lia.
Qed.

Lemma SFdiv_bounded lo1 hi1 lo2 hi2 x y :
  fbounded lo1 hi1 x -> fbounded lo2 hi2 y -> float_is_zero y = false ->
  hi1 - lo2 <= 900 ->
  fbounded (Z.min (-1074) (lo1 - hi2)) (Z.max (hi1 - lo2 + 2) (-1074) + 1)
           (SFdiv prec emax x y).
Proof.
  intros Hx Hy Hnz Hhi.
  destruct x as [sx| | |sx mx ex], y as [sy| | |sy my ey];
    cbn [fbounded SFdiv float_is_zero] in *; try tauto; try discriminate.
  destruct Hx as [Hex Hdx], Hy as [Hey Hdy].
  unfold SFdiv_core_binary.
  set (d1 := Zdigits2 (Zpos mx)) in *. set (d2 := Zdigits2 (Zpos my)) in *.
  set (e' := Z.min (fexp prec emax (d1 + ex - (d2 + ey))) (ex - ey)).
  assert (Hfexp : forall x, fexp prec emax x = Z.max (x - 53) (-1074)).
  { intros x. unfold fexp, emin, prec, emax. lia. }
  assert (He'lo : Z.min (-1074) (lo1 - hi2) <= e') by (unfold e'; rewrite Hfexp; lia).
  assert (He'hi : e' <= ex - ey) by (unfold e'; lia).
  set (sh := ex - ey - e').
  set (m' := match sh with
             | 0 => Zpos mx
             | Zpos _ => Z.shiftl (Zpos mx) sh
             | Zneg _ => 0
             end).
  assert (Hm' : 0 < m' /\ Zdigits2 m' = d1 + sh).
  { unfold m'. assert (Hsh : 0 <= sh) by (unfold sh; lia).
    destruct sh as [|p|p] eqn:Hs; [split; [lia|unfold d1; lia]| |lia].
    rewrite Zdigits2_shiftl by lia. split; [|reflexivity].
    rewrite Z.shiftl_mul_pow2 by lia. apply Z.mul_pos_pos; [lia|].
    now apply Z.pow_pos_nonneg. }
  destruct Hm' as [Hm'pos Hm'dig].
  pose proof (Z_div_mod m' (Zpos my) eq_refl) as Hdiv.
  destruct (Z.div_eucl m' (Zpos my)) as [q r]. destruct Hdiv as [Hqr Hr].
  assert (Hq : 0 <= q <= m') by nia.
  pose proof (Zdigits2_le q m' Hq) as Hdq.
  assert (Hd1 : 1 <= d1) by (unfold d1; simpl; lia).
  eapply fbounded_weaken.
  - apply binary_round_aux_bounded; unfold sh in *; lia.
  - lia.
  - unfold sh in *. lia.
Qed.

End FloatFacts.

(** ** The sections of the bar *)

Lemma fold_left_add_start l a :
  fold_left Z.add l a = a + fold_left Z.add l 0.
Proof.
  revert a. induction l as [|y l IH]; intros a; cbn [fold_left].
  - lia.
  - rewrite (IH (a + y)), (IH (0 + y)). lia.
Qed.

Lemma sum_cons x l : sum (x :: l) = x + sum l.
Proof. unfold sum. cbn [fold_left]. rewrite fold_left_add_start. lia. Qed.

Lemma add_at_spec i d l :
  (i < List.length l)%nat ->
  exists l', add_at i d l = Ok l'
             /\ List.length l' = List.length l
             /\ sum l' = sum l + d
             /\ forall j, nth j l' 0
                          = if Nat.eqb j i then nth j l 0 + d else nth j l 0.
Proof.
  revert i. induction l as [|x l IH]; intros i Hi; [simpl in Hi; lia|].
  destruct i as [|i]; cbn [add_at].
  - eexists. split; [reflexivity|]. split; [reflexivity|].
    split; [rewrite !sum_cons; lia|]. intros [|j]; reflexivity.
  - destruct (IH i) as (l' & Hadd & Hlen & Hsum & Hnth); [simpl in Hi; lia|].
    rewrite Hadd. cbn [bind]. eexists. split; [reflexivity|].
    split; [simpl; lia|]. split; [rewrite !sum_cons; lia|].
    intros [|j]; [reflexivity|]. cbn [nth Nat.eqb]. apply Hnth.
Qed.

Lemma argmax_from_spec l pre n best_i best :
  n = List.length pre -> best = nth best_i pre 0 ->
  first_greatest best_i pre ->
  first_greatest (argmax_from n best_i best l) (pre ++ l).
Proof.
  revert pre n best_i best.
  induction l as [|x l IH]; intros pre n best_i best Hn Hbest Hfg.
  - simpl. now rewrite app_nil_r.
  - cbn [argmax_from]. destruct Hfg as (Hlt & Hmax & Hfirst).
    replace (pre ++ x :: l)%list with ((pre ++ [x]) ++ l)%list
      by now rewrite <- app_assoc.
    assert (Hlen : S n = List.length (pre ++ [x])%list)
      by (rewrite length_app; simpl; lia).
    assert (Hlast : nth n (pre ++ [x]) 0 = x)
      by (rewrite app_nth2, Hn, Nat.sub_diag by lia; reflexivity).
    destruct (Z.ltb_spec best x) as [Hx|Hx].
    + apply IH; [exact Hlen|now rewrite Hlast|]. repeat split.
      * lia.
      * intros j Hj. rewrite Hlast. rewrite <- Hlen in Hj.
        destruct (Nat.eq_dec j n) as [->|Hne]; [lia|].
        rewrite app_nth1 by lia. specialize (Hmax j). lia.
      * intros j Hj. rewrite Hlast, app_nth1 by lia.
        specialize (Hmax j). lia.
    + apply IH; [exact Hlen|now rewrite app_nth1 by lia|]. repeat split.
      * rewrite <- Hlen. lia.
      * intros j Hj. rewrite <- Hlen in Hj.
        rewrite (app_nth1 pre [x] 0 (n := best_i)) by lia.
        destruct (Nat.eq_dec j n) as [->|Hne]; [lia|].
        rewrite app_nth1 by lia. apply Hmax. lia.
      * intros j Hj. rewrite !app_nth1 by lia. now apply Hfirst.
Qed.

Lemma argmax_spec l :
  l <> [] -> exists k, argmax l = Ok k /\ first_greatest k l.
Proof.
  destruct l as [|x l]; [congruence|]. intros _. eexists.
  split; [reflexivity|].
  apply (argmax_from_spec l [x] 1%nat 0%nat x); try reflexivity.
  repeat split; simpl; intros; try lia.
  destruct j as [|[|j]]; simpl; lia.
Qed.

Lemma mapM_ok {A B : Type} (f : A -> result B) (P : B -> Prop) l :
  Forall (fun x => exists y, f x = Ok y /\ P y) l ->
  exists ys, mapM f l = Ok ys /\ List.length ys = List.length l /\ Forall P ys.
Proof.
  induction 1 as [|x l (y & Hy & Py) _ (ys & Hys & Hlen & HP)].
  - exists []. repeat split. constructor.
  - exists (y :: ys). cbn [mapM]. rewrite Hy. cbn [bind]. rewrite Hys.
    cbn [bind]. repeat split; [simpl; lia|now constructor].
Qed.

Lemma safe_divide_small n d :
  match n with Some z => Z.abs z < 2 ^ 64 | None => True end ->
  fbounded (-52) 12 d ->
  exists x, safe_divide n (NFloat d) = Ok x /\ small_fraction x.
Proof.
  intros Hn Hd. unfold safe_divide. destruct n as [z|].
  - destruct (z =? 0)%Z eqn:Hz; cbn [orb].
    + exists (NInt 0). split; reflexivity.
    + cbn [number_is_zero]. destruct (float_is_zero d) eqn:Hzero.
      * exists (NInt 0). split; reflexivity.
      * cbn [true_divide].
        destruct (float_of_int_bounded z 64) as (f & Hf & Hb); [lia|exact Hn|].
        rewrite Hf. cbn [bind]. eexists. split; [reflexivity|].
        cbn [small_fraction].
        eapply fbounded_weaken;
          [apply (SFdiv_bounded (-52) 12 (-52) 12); try assumption; lia|lia|lia].
  - exists (NInt 0). split; reflexivity.
Qed.

Lemma section_length_small w x :
  Z.abs w < 2 ^ 65 -> small_fraction x ->
  exists n, section_length w x = Ok n /\ (x = NInt 0 -> n = 0).
Proof.
  intros Hw Hx. destruct x as [z|f]; cbn [section_length small_fraction] in *.
  - subst z. exists 0. split; [f_equal; lia|reflexivity].
  - destruct (float_of_int_bounded w 65) as (fw & Hfw & Hb); [lia|exact Hw|].
    rewrite Hfw. cbn [bind]. cbn [Z.max] in Hb.
    pose proof (SFmul_bounded (-52) 13 (-1074) 67 fw f Hb Hx ltac:(lia)) as Hp.
    destruct (SFmul prec emax fw f); cbn [fbounded] in Hp; try contradiction;
      eexists; (split; [reflexivity|discriminate]).
Qed.

Lemma bar_section_lengths_sum totals width lengths :
  bar_section_lengths totals width = Ok lengths ->
  sum lengths = effective_width width.
Proof.
  unfold bar_section_lengths.
  destruct (truncated_lengths totals width) as [raw|]; [|discriminate].
  cbn [bind]. destruct raw as [|x raw]; [discriminate|].
  destruct (argmax_spec (x :: raw)) as (k & Hk & Hfg & _); [discriminate|].
  rewrite Hk. cbn [bind]. intros Hadd.
  destruct (add_at_spec k (effective_width width - sum (x :: raw)) (x :: raw) Hfg)
    as (l' & Hl' & _ & Hsum & _).
  rewrite Hl' in Hadd. injection Hadd as <-. lia.
Qed.

Lemma safe_divide_by_zero n s :
  safe_divide n (NFloat (S754_zero s)) = Ok (NInt 0).
Proof.
  unfold safe_divide. destruct n as [z|]; [|reflexivity].
  destruct (z =? 0)%Z; reflexivity.
Qed.

Lemma totals_get_small totals c :
  Forall (fun kv => Z.abs (snd kv) < 2 ^ 64) totals ->
  Z.abs (totals_get c totals) < 2 ^ 64.
Proof.
  intros Hall. unfold totals_get.
  destruct (dict_get c totals) as [n|] eqn:Hg; [|simpl; lia].
  apply dict_get_In in Hg. rewrite Forall_forall in Hall.
  apply (Hall _ Hg).
Qed.

Lemma dict_get_small (totals : dict Column Z) c :
  Forall (fun kv => Z.abs (snd kv) < 2 ^ 64) totals ->
  match dict_get c totals with Some z => Z.abs z < 2 ^ 64 | None => True end.
Proof.
  intros Hall. destruct (dict_get c totals) as [n|] eqn:Hg; [|exact I].
  apply dict_get_In in Hg. rewrite Forall_forall in Hall.
  apply (Hall _ Hg).
Qed.

Lemma truncated_lengths_defined totals width :
  Forall (fun kv => Z.abs (snd kv) < 2 ^ 64) totals ->
  - 2 ^ 64 < width ->
  exists raw, truncated_lengths totals width = Ok raw
              /\ List.length raw = 6%nat.
Proof.
  intros Hsmall Hwidth. unfold truncated_lengths, bar_fractions.
  destruct (float_of_int_bounded (totals_get TOTAL totals) 64)
    as (num_total & Hnum & Hb); [lia|now apply totals_get_small|].
  rewrite Hnum. cbn [bind]. cbn [Z.max Z.add] in Hb.
  destruct (mapM_ok (fun s => safe_divide (dict_get (Status s) totals)
                                          (NFloat num_total))
                    small_fraction
                    [COMPLETED; RUNNING; IDLE; HELD; SUSPENDED; REMOVED])
    as (fractions & Hfr & Hlen & Hgood).
  { apply Forall_forall. intros s _. apply safe_divide_small; [|exact Hb].
    now apply dict_get_small. }
  rewrite Hfr. cbn [bind].
  destruct (mapM_ok (section_length (effective_width width))
                    (fun _ => True) fractions) as (raw & Hraw & Hlen' & _).
  { eapply Forall_impl; [|exact Hgood]. intros x Hx.
    destruct (section_length_small (effective_width width) x) as (n & Hn & _);
      [unfold effective_width; lia|exact Hx|].
    exists n. split; [exact Hn|exact I]. }
  exists raw. split; [exact Hraw|]. rewrite Hlen', Hlen. reflexivity.
Qed.

Lemma bar_section_lengths_defined totals width :
  Forall (fun kv => Z.abs (snd kv) < 2 ^ 64) totals ->
  - 2 ^ 64 < width ->
  exists raw k lengths,
    truncated_lengths totals width = Ok raw
    /\ argmax raw = Ok k
    /\ first_greatest k raw
    /\ bar_section_lengths totals width = Ok lengths
    /\ List.length lengths = 6%nat
    /\ (forall j, nth j lengths 0
                  = if Nat.eqb j k
                    then nth j raw 0 + (effective_width width - sum raw)
                    else nth j raw 0)
    /\ sum lengths = effective_width width
    /\ (totals_get TOTAL totals = 0 ->
        lengths = [effective_width width; 0; 0; 0; 0; 0]).
Proof.
  intros Hsmall Hwidth.
  destruct (truncated_lengths_defined totals width Hsmall Hwidth)
    as (raw & Hraw & Hlen).
  destruct (argmax_spec raw) as (k & Hk & Hfg).
  { intros ->. discriminate Hlen. }
  destruct (add_at_spec k (effective_width width - sum raw) raw (proj1 Hfg))
    as (lengths & Hadd & Hlen' & Hsum & Hnth).
  assert (Hbar : bar_section_lengths totals width = Ok lengths).
  { unfold bar_section_lengths. rewrite Hraw. cbn [bind]. rewrite Hk.
    cbn [bind]. exact Hadd. }
  exists raw, k, lengths.
  repeat (split; [first [assumption|congruence|lia]|]).
  intros Hzero. revert Hbar.
  unfold bar_section_lengths, truncated_lengths, bar_fractions.
  rewrite Hzero. cbn [float_of_int binary_normalize bind mapM].
  rewrite !safe_divide_by_zero. cbn [bind mapM section_length].
  rewrite !Z.mul_0_r. cbn [bind argmax argmax_from Z.ltb Z.compare add_at].
  intros [= <-]. f_equal. unfold sum. simpl. lia.
Qed.

(** C3.  Whatever the totals and the width, the section lengths that
    [make_progress_bar] computes sum to the effective width
    [min(width, 79) - 2] exactly.  For totals below [2^64] in absolute
    value and a width above [-2^64] the computation does not raise: the
    six truncated products [int(width * f)] come first, the first
    greatest of them then receives what is left of the effective width,
    and the six lengths that result sum to the effective width.  When
    [totals[TOTAL]] is zero the first section takes the whole width. *)
Theorem progress_bar_sections_fill_width :
  (forall totals width lengths,
     bar_section_lengths totals width = Ok lengths ->
     sum lengths = effective_width width)
  /\ (forall totals width,
     Forall (fun kv => Z.abs (snd kv) < 2 ^ 64) totals ->
     - 2 ^ 64 < width ->
     exists raw k lengths,
       truncated_lengths totals width = Ok raw
       /\ argmax raw = Ok k
       /\ first_greatest k raw
       /\ bar_section_lengths totals width = Ok lengths
       /\ List.length lengths = 6%nat
       /\ (forall j, nth j lengths 0
                     = if Nat.eqb j k
                       then nth j raw 0 + (effective_width width - sum raw)
                       else nth j raw 0)
       /\ sum lengths = effective_width width
       /\ (totals_get TOTAL totals = 0 ->
           lengths = [effective_width width; 0; 0; 0; 0; 0])).
Proof.
  split.
  - exact bar_section_lengths_sum.
  - exact bar_section_lengths_defined.
Qed.

(** ** The summary line with percentages *)

Lemma first_char_summary_text total percentages labels :
  first_char (summary_text total percentages labels) = Ok "T".
Proof. reflexivity. Qed.

Lemma initials_of_messages :
  mapM initial SUMMARY_MESSAGES = Ok ["C"; "R"; "I"; "R"; "H"; "S"].
Proof. reflexivity. Qed.

(** C7 (what the code does).  [make_summary_with_percentages] takes the
    form with one-letter labels exactly when the width is below [1], the
    length of the first character of the line, and not when the line is
    wider than the width: with a width of 60 the totals of three jobs
    give the full line of 86 characters, although the short line has 52. *)
Theorem percentages_summary_shortened_only_below_width_one :
  (forall totals w,
     make_summary_with_percentages totals (Some w)
     = if (w <? 1)%Z
       then (s <- short_summary totals ;; Ok [s])
       else (s <- full_summary totals ;; Ok [s]))
  /\ make_summary_with_percentages three_jobs_totals (Some 60)
     = Ok ["Total: 3 jobs; 0% completed, 0% removed, 33% idle, 33% running, 33% held, 0% suspended"]
  /\ full_summary three_jobs_totals
     = Ok "Total: 3 jobs; 0% completed, 0% removed, 33% idle, 33% running, 33% held, 0% suspended"
  /\ short_summary three_jobs_totals
     = Ok "Total: 3 jobs; 0% C, 0% R, 33% I, 33% R, 33% H, 0% S"
  /\ String.length "Total: 3 jobs; 0% completed, 0% removed, 33% idle, 33% running, 33% held, 0% suspended"
     = 86%nat
  /\ String.length "Total: 3 jobs; 0% C, 0% R, 33% I, 33% R, 33% H, 0% S" = 52%nat.
Proof.
  split; [|repeat split; vm_compute; reflexivity].
  intros totals w.
  unfold make_summary_with_percentages, short_summary, full_summary.
  destruct (mapM (percentage totals) SUMMARY_STATES) as [ps|e]; cbn [bind].
  - rewrite first_char_summary_text. cbn [bind String.length Z.of_nat].
    change (Z.pos (Pos.of_succ_nat 0)) with 1.
    destruct (w <? 1)%Z; [rewrite initials_of_messages|]; reflexivity.
  - now destruct (w <? 1)%Z.
Qed.

(** ** The cell of the active jobs *)

(** C4 (what the code does).  The identifiers of the active jobs are
    sorted as lists of strings, not as numbers: for the eleven idle jobs
    5.0 to 5.10 the cell reads "5.0 ... 5.9", whereas the numeric order
    of the specification gives "5.0 ... 5.10".  In general the cell is
    the text of the identifiers in their order as split strings. *)
Theorem active_jobs_cell_sorted_as_text :
  (forall cs,
     exists row,
       row_data_from_job_state cs = Ok row
       /\ dict_get ACTIVE_JOBS row
          = Some (VStr (active_jobs_text
                          (sort_by list_string_ltb job_id_key (active_ids cs)))))
  /\ (exists row,
        row_data_from_job_state (clusters (tracker_after [] eleven_submits))
        = Ok row
        /\ dict_get ACTIVE_JOBS row = Some (VStr "5.0 ... 5.9"))
  /\ numeric_active_jobs_text (clusters (tracker_after [] eleven_submits))
     = "5.0 ... 5.10".
Proof.
  split; [|split].
  - intros cs. exists (row_of_clusters cs).
    split; [apply row_data_from_job_state_eq|reflexivity].
  - eexists. split; vm_compute; reflexivity.
  - vm_compute. reflexivity.
Qed.

(** ** Leaving watch_q *)

Lemma loop_app exit_checks t ticks ticks' :
  loop exit_checks t (ticks ++ ticks')%list
  = match loop exit_checks t ticks with
    | Running t' => loop exit_checks t' ticks'
    | Left r => Left r
    end.
Proof.
  revert t. induction ticks as [|tick ticks IH]; intros t.
  - reflexivity.
  - destruct tick as [readers| |e]; cbn [app loop]; try reflexivity.
    destruct (first_satisfied exit_checks (snd (process_events t readers)));
      [reflexivity|apply IH].
Qed.

Lemma find_first {A : Type} (f : A -> bool) l x :
  find f l = Some x <->
  exists before after,
    l = (before ++ x :: after)%list
    /\ Forall (fun y => f y = false) before /\ f x = true.
Proof.
  induction l as [|y l IH]; cbn [find].
  - split; [discriminate|]. intros ([|? ?] & after & Heq & _); discriminate.
  - destruct (f y) eqn:Hy.
    + split.
      * intros [= <-]. exists [], l. repeat split; [constructor|exact Hy].
      * intros (before & after & Heq & Hall & Hx).
        destruct before as [|b before]; injection Heq as <- _; [reflexivity|].
        inversion Hall; congruence.
    + rewrite IH. split.
      * intros (before & after & -> & Hall & Hx).
        exists (y :: before), after. repeat split; [now constructor|exact Hx].
      * intros (before & after & Heq & Hall & Hx).
        destruct before as [|b before]; injection Heq as <- Hl; [congruence|].
        exists before, after. inversion Hall. now repeat split.
Qed.

Lemma watch_q_loop logs names conds checks ticks :
  logs <> [] -> make_exit_checks conds = Ok checks ->
  watch_q logs names conds ticks = loop checks (new_tracker names) ticks.
Proof.
  intros Hlogs Hchecks. unfold watch_q. rewrite Hchecks.
  destruct logs; [congruence|reflexivity].
Qed.

(** C8.  With no event log [watch_q] leaves by [sys.exit(0)].  Otherwise,
    after any ticks that ran to their end without an exit condition
    holding: an interrupt gives exit status 0; an exception gives exit
    status 1, in debug mode or not; and a tick after which a condition
    holds gives the status of the first such condition in the order
    given, while a tick after which none holds lets the loop go on.  An
    exit condition that names no grouper or no check also gives 1. *)
Theorem exit_status_of_the_process :
  (forall debug names conds ticks,
     exit_code (cli debug [] names conds ticks) = Some 0)
  /\ (forall debug logs names conds checks quiet t rest,
        logs <> [] ->
        make_exit_checks conds = Ok checks ->
        loop checks (new_tracker names) quiet = Running t ->
        exit_code (cli debug logs names conds (quiet ++ Interrupt :: rest)%list)
        = Some 0
        /\ (forall e,
              exit_code (cli debug logs names conds
                             (quiet ++ Failure e :: rest)%list)
              = Some 1)
        /\ (forall readers,
              match first_satisfied checks (snd (process_events t readers)) with
              | Some status =>
                  exit_code (cli debug logs names conds
                                 (quiet ++ Events readers :: rest)%list)
                  = Some status
              | None =>
                  loop checks (new_tracker names) (quiet ++ [Events readers])%list
                  = Running (snd (process_events t readers))
              end))
  /\ (forall checks t status,
        first_satisfied checks t = Some status <->
        exists before c after,
          checks = (before ++ c :: after)%list
          /\ Forall (fun b => satisfied t b = false) before
          /\ satisfied t c = true
          /\ exit_status c = status)
  /\ (forall debug logs names conds ticks e,
        logs <> [] ->
        make_exit_checks conds = Raise e ->
        exit_code (cli debug logs names conds ticks) = Some 1).
Proof.
  split; [|split; [|split]].
  - reflexivity.
  - intros debug logs names conds checks quiet t rest Hlogs Hchecks Hquiet.
    unfold cli. rewrite !(watch_q_loop logs names conds checks) by assumption.
    split; [|split].
    + rewrite loop_app, Hquiet. reflexivity.
    + intros e.
      rewrite (watch_q_loop logs names conds checks) by assumption.
      rewrite loop_app, Hquiet. cbn [loop]. now destruct debug.
    + intros readers.
      destruct (first_satisfied checks (snd (process_events t readers)))
        as [status|] eqn:Hfirst.
      * rewrite (watch_q_loop logs names conds checks) by assumption.
        rewrite loop_app, Hquiet. cbn [loop]. rewrite Hfirst. reflexivity.
      * rewrite loop_app, Hquiet. cbn [loop]. rewrite Hfirst. reflexivity.
  - intros checks t status. unfold first_satisfied.
    destruct (find (satisfied t) checks) as [c|] eqn:Hfind.
    + split.
      * intros [= <-]. apply find_first in Hfind.
        destruct Hfind as (before & after & Heq & Hall & Hc).
        now exists before, c, after.
      * intros (before & c' & after & Heq & Hall & Hc & <-).
        assert (Hf : find (satisfied t) checks = Some c')
          by (apply find_first; now exists before, after).
        congruence.
    + split; [discriminate|].
      intros (before & c' & after & Heq & Hall & Hc & _).
      assert (Hf : find (satisfied t) checks = Some c')
        by (apply find_first; now exists before, after).
      congruence.
  - intros debug logs names conds ticks e Hlogs Hraise.
    unfold cli, watch_q. rewrite Hraise.
    destruct logs; [congruence|]. cbn. now destruct debug.
Qed.

(** ** The rows of a tick *)

Lemma has_columns_set_key a cell row :
  has_columns HEADERS row ->
  has_columns HEADERS (dict_set (GROUPBY_ATTRIBUTE_TO_AD_KEY a) cell row).
Proof.
  unfold has_columns. rewrite !Forall_forall. intros Hrow h Hh.
  unfold dict_mem. rewrite dict_get_set_other; [now apply Hrow|].
  intros <-. now apply (key_column_not_header a).
Qed.

Lemma foldM_add_group_rows nice_path a groups rows totals rows' totals'
    (Q : Value * Row -> Prop) :
  foldM (add_group nice_path (GROUPBY_ATTRIBUTE_TO_AD_KEY a)) groups
        (rows, totals) = Ok (rows', totals') ->
  (forall g row, In g groups -> has_columns HEADERS row -> Q (fst g, row)) ->
  Forall Q rows -> Forall Q rows'.
Proof.
  revert rows totals. induction groups as [|[v cs] groups IH];
    intros rows totals Hfold HQ Hrows.
  - injection Hfold as <- _. exact Hrows.
  - cbn [foldM] in Hfold.
    destruct (key_cell nice_path (GROUPBY_ATTRIBUTE_TO_AD_KEY a) v)
      as [cell|e] eqn:Hcell.
    + destruct (add_group_spec nice_path _ rows totals v cs cell Hcell)
        as (totals1 & Hadd & _). rewrite Hadd in Hfold. cbn [bind] in Hfold.
      apply (IH _ _ Hfold).
      * intros g row Hg. apply HQ. now right.
      * apply Forall_dict_set; [exact Hrows|].
        apply (HQ (v, cs)); [now left|].
        apply has_columns_set_key, row_of_clusters_columns.
    + rewrite add_group_eq, Hcell in Hfold. discriminate Hfold.
Qed.

Lemma groups_append_nonempty groups v c :
  Forall (fun g => snd g <> []) groups ->
  Forall (fun g => snd g <> []) (groups_append groups v c).
Proof.
  intros Hall. unfold groups_append.
  destruct (dict_get v groups) as [l|]; apply Forall_dict_set; try assumption;
    cbn [snd]; [destruct l|]; discriminate.
Qed.

Lemma grouped_nonempty a cs groups :
  Forall (fun g => snd g <> []) groups ->
  Forall (fun g => snd g <> []) (grouped a cs groups).
Proof.
  revert groups. induction cs as [|c cs IH]; intros groups Hall; simpl.
  - exact Hall.
  - apply IH. now apply groups_append_nonempty.
Qed.

Lemma group_of_nonempty groups k :
  Forall (fun g => snd g <> []) groups ->
  In k (keys groups) -> group_of groups k <> [].
Proof.
  intros Hall Hin. unfold group_of.
  apply dict_get_Some_keys in Hin. destruct Hin as [cs Hcs]. rewrite Hcs.
  apply dict_get_In in Hcs. rewrite Forall_forall in Hall.
  apply (Hall _ Hcs).
Qed.

Lemma strip_zero_cells_keys rows : keys (strip_zero_cells rows) = keys rows.
Proof. unfold keys, strip_zero_cells. rewrite map_map. reflexivity. Qed.

Lemma tick_table_rows nice_path a dagman t :
  exists groups rows totals headers stripped,
    aggregate nice_path false a dagman t = Ok (groups, rows, totals)
    /\ strip_empty_columns rows = Ok (headers, stripped)
    /\ Forall (fun kr => group_of groups (fst kr) <> [])
              (strip_zero_cells stripped).
Proof.
  unfold aggregate. rewrite group_clusters_by_key_eq. cbn [bind].
  set (groups := grouped a (clusters t) []).
  destruct (make_rows_from_groups_totals nice_path
              (GROUPBY_ATTRIBUTE_TO_AD_KEY a) groups
              (grouped_cells_defined nice_path a (clusters t)))
    as (rows & totals & Hmake & _).
  rewrite Hmake. cbn [bind fst snd].
  assert (Hrows : Forall (fun kr => In (fst kr) (keys groups)
                                    /\ has_columns HEADERS (snd kr)) rows).
  { apply (foldM_add_group_rows nice_path a groups [] [] rows totals);
      [exact Hmake| |constructor].
    intros g row Hg Hrow. cbn [fst snd]. split; [|exact Hrow].
    now apply (in_map fst). }
  destruct (strip_empty_columns_spec rows) as
    (headers & stripped & Hstrip & _ & _ & _ & Hkeys & _).
  { eapply Forall_impl; [|exact Hrows]. intros kr [_ Hkr]. exact Hkr. }
  exists groups, rows, totals, headers, stripped.
  split; [reflexivity|]. split; [exact Hstrip|].
  apply Forall_forall. intros kr Hkr.
  apply group_of_nonempty.
  - apply grouped_nonempty. constructor.
  - apply (in_map fst) in Hkr. fold (keys (strip_zero_cells stripped)) in Hkr.
    rewrite strip_zero_cells_keys, Hkeys in Hkr.
    unfold keys in Hkr. apply in_map_iff in Hkr.
    destruct Hkr as (kr0 & <- & Hin0). rewrite Forall_forall in Hrows.
    apply (Hrows kr0 Hin0).
Qed.

(** C5.  The sort of the rows goes by the least cluster id of the group
    of each row.  When every row belongs to a group that holds a
    cluster, the sort returns; its result holds the same rows; the key
    of each row is the least cluster id of its group; the rows are in
    ascending order of that key; and of two rows the one whose group has
    the smaller least cluster id comes first.  The rows of a tick of
    [watch_q] that groups with [group_clusters_by_key] are such rows,
    whatever the tracker holds. *)
Theorem rows_ordered_by_least_cluster_id :
  (forall groups rows_by_key,
     Forall (fun kr => group_of groups (fst kr) <> []) rows_by_key ->
     exists sorted,
       sort_rows groups rows_by_key = Ok sorted
       /\ Permutation rows_by_key sorted
       /\ (forall r, In r sorted ->
             exists m, row_sort_key groups r = Ok m
                       /\ least_cluster_id m (group_of groups (fst r)))
       /\ StronglySorted (sort_key_le groups) sorted
       /\ (forall r1 r2 m1 m2,
             In r1 sorted -> In r2 sorted ->
             row_sort_key groups r1 = Ok m1 ->
             row_sort_key groups r2 = Ok m2 ->
             m1 < m2 -> precedes r1 r2 sorted))
  /\ (forall nice_path a dagman t,
        exists groups rows totals headers stripped sorted,
          aggregate nice_path false a dagman t = Ok (groups, rows, totals)
          /\ strip_empty_columns rows = Ok (headers, stripped)
          /\ tick_table nice_path false a dagman t
             = Ok (GROUPBY_ATTRIBUTE_TO_AD_KEY a :: headers, sorted)
          /\ sort_rows groups (strip_zero_cells stripped) = Ok sorted
          /\ Permutation (strip_zero_cells stripped) sorted
          /\ StronglySorted (sort_key_le groups) sorted).
Proof.
  split; [exact sort_rows_spec|].
  intros nice_path a dagman t.
  destruct (tick_table_rows nice_path a dagman t)
    as (groups & rows & totals & headers & stripped & Hagg & Hstrip & Hne).
  destruct (sort_rows_spec groups (strip_zero_cells stripped) Hne)
    as (sorted & Hsort & Hperm & _ & Hsorted & _).
  exists groups, rows, totals, headers, stripped, sorted.
  repeat (split; [assumption|]). split; [|repeat split; assumption].
  unfold tick_table. rewrite Hagg. cbn [bind fst snd]. rewrite Hstrip.
  cbn [bind fst snd]. rewrite Hsort. reflexivity.
Qed.

(** ** Grouping by DAG *)

(** C1, counterexample.  With the [dag] option the totals leave out the
    jobs of the clusters whose event log is no nodes log of a DAG: two
    jobs are referred to, and [totals[TOTAL]] is [1]. *)
Lemma dag_totals_leave_out_clusters :
  exists groups rows totals,
    aggregate (fun p => p) true By_batch_name
              [(6, "/home/user/dag.nodes.log")]
              (tracker_after [(6, Some "dag"); (7, Some "plain")]
                             dag_and_plain_submits)
    = Ok (groups, rows, totals)
    /\ totals_get TOTAL totals = 1
    /\ List.length (referenced_jobs (events_of_ticks dag_and_plain_submits))
       = 2%nat
    /\ totals_get TOTAL totals
       <> Z.of_nat (List.length
                      (referenced_jobs (events_of_ticks dag_and_plain_submits))).
Proof.
  eexists. eexists. eexists. split; [vm_compute; reflexivity|].
  split; [reflexivity|]. split; [reflexivity|]. vm_compute. discriminate.
Qed.

(** ** A run of three jobs *)

(** After three submits, one start and one hold the statuses are
    running, held and idle; the totals count one job of each and three
    in all; and the exit condition [any,held,1] ends the process with
    status 1. *)
Example three_jobs_run :
  job_states (tracker_after [] [three_jobs_readers]) = [RUNNING; HELD; IDLE]
  /\ (exists groups rows totals,
        aggregate (fun p => p) false By_batch_name []
                  (tracker_after [] [three_jobs_readers])
        = Ok (groups, rows, totals)
        /\ totals_get (Status IDLE) totals = 1
        /\ totals_get (Status RUNNING) totals = 1
        /\ totals_get (Status HELD) totals = 1
        /\ totals_get TOTAL totals = 3)
  /\ exit_code (cli false ["/home/user/job.log"] [] [("any", "held", 1)]
                    [Events three_jobs_readers]) = Some 1.
Proof.
  split; [reflexivity|]. split; [|reflexivity].
  eexists. eexists. eexists. split; [vm_compute; reflexivity|].
  repeat split.
Qed.

(** ** Instances of the theorems *)

(** C2 at one event: a submit of job 6.0 leaves job 7.0 as it was. *)
Lemma process_events_follows_transition_table_witness :
  (7, 0) <> (6, 0)
  /\ job_status
       (apply_event "/home/user/job.log" (new_tracker [])
                    {| ev_type := SUBMIT; ev_cluster := 6; ev_proc := 0 |}) 7 0
     = job_status (new_tracker []) 7 0.
Proof.
  split; [discriminate|].
  destruct process_events_follows_transition_table as (_ & _ & H).
  specialize (H "/home/user/job.log" (new_tracker [])
                {| ev_type := SUBMIT; ev_cluster := 6; ev_proc := 0 |}).
  cbn in H. destruct H as [_ H]. apply H. discriminate.
Defined.

(** C1 at two submits read in either order: the total is 2. *)
Lemma total_counts_distinct_jobs_witness :
  Permutation (events_of_ticks dag_and_plain_submits)
              (events_of_ticks plain_and_dag_submits)
  /\ exists groups rows totals,
       aggregate (fun p => p) false By_batch_name []
                 (tracker_after [] plain_and_dag_submits)
       = Ok (groups, rows, totals)
       /\ totals_get TOTAL totals = 2.
Proof.
  assert (Hperm : Permutation (events_of_ticks dag_and_plain_submits)
                              (events_of_ticks plain_and_dag_submits))
    by apply perm_swap.
  split; [exact Hperm|].
  destruct (total_counts_distinct_jobs (fun p => p) By_batch_name [] []
                                       dag_and_plain_submits)
    as (groups & rows & totals & _ & _ & Hcount & Hsame & _).
  destruct (Hsame plain_and_dag_submits Hperm)
    as (groups' & rows' & totals' & Hagg' & Heq).
  exists groups', rows', totals'. split; [exact Hagg'|].
  rewrite Heq, Hcount. reflexivity.
Defined.

(** C3 at the totals of three jobs and a width of 80: the sections sum
    to 77. *)
Lemma progress_bar_sections_fill_width_witness :
  Forall (fun kv => Z.abs (snd kv) < 2 ^ 64) three_jobs_totals
  /\ - 2 ^ 64 < 80
  /\ exists lengths,
       bar_section_lengths three_jobs_totals 80 = Ok lengths
       /\ sum lengths = 77.
Proof.
  assert (Hsmall : Forall (fun kv => Z.abs (snd kv) < 2 ^ 64) three_jobs_totals)
    by (repeat constructor).
  assert (Hwidth : - 2 ^ 64 < 80) by reflexivity.
  split; [exact Hsmall|]. split; [exact Hwidth|].
  destruct progress_bar_sections_fill_width as [_ Hdefined].
  destruct (Hdefined three_jobs_totals 80 Hsmall Hwidth)
    as (raw & k & lengths & _ & _ & _ & Hbar & _ & _ & Hsum & _).
  exists lengths. split; [exact Hbar|exact Hsum].
Defined.

(** C5 at two groups: the group that holds cluster 9 comes first. *)
Lemma rows_ordered_by_least_cluster_id_witness :
  Forall (fun kr => group_of two_groups (fst kr) <> []) two_rows
  /\ exists sorted,
       sort_rows two_groups two_rows = Ok sorted
       /\ map fst sorted = [VStr "early"; VStr "late"]
       /\ StronglySorted (sort_key_le two_groups) sorted.
Proof.
  assert (Hne : Forall (fun kr => group_of two_groups (fst kr) <> []) two_rows)
    by (repeat constructor; discriminate).
  split; [exact Hne|].
  destruct rows_ordered_by_least_cluster_id as [Hsort _].
  destruct (Hsort two_groups two_rows Hne)
    as (sorted & Hsorted & _ & _ & Hss & _).
  exists sorted. split; [exact Hsorted|]. split; [|exact Hss].
  assert (Heq : sort_rows two_groups two_rows
                = Ok [nth 1 two_rows (VNone, []); nth 0 two_rows (VNone, [])])
    by reflexivity.
  rewrite Heq in Hsorted. injection Hsorted as <-. reflexivity.
Defined.

(** C6 at the rows of two groups. *)
Lemma strip_empty_columns_keeps_nonzero_columns_witness :
  Forall (fun kr => has_columns HEADERS (snd kr)) two_rows
  /\ exists headers rows',
       strip_empty_columns two_rows = Ok (headers, rows')
       /\ In (Status IDLE) headers
       /\ keys rows' = keys two_rows.
Proof.
  assert (Hall : Forall (fun kr => has_columns HEADERS (snd kr)) two_rows)
    by (repeat constructor).
  split; [exact Hall|].
  destruct (strip_empty_columns_keeps_nonzero_columns two_rows Hall)
    as (headers & rows' & Hstrip & _ & _ & (Hidle & _) & Hkeys & _).
  exists headers, rows'. repeat split; assumption.
Defined.

(** C10 at the rows of two groups. *)
Lemma job_ids_column_pruned_only_without_rows_witness :
  two_rows <> []
  /\ Forall (fun kr => has_columns HEADERS (snd kr)) two_rows
  /\ Forall (fun kr => exists text,
               dict_get ACTIVE_JOBS (snd kr) = Some (VStr text)) two_rows
  /\ exists headers rows',
       strip_empty_columns two_rows = Ok (headers, rows')
       /\ In ACTIVE_JOBS headers.
Proof.
  assert (Hne : two_rows <> []) by discriminate.
  assert (Hall : Forall (fun kr => has_columns HEADERS (snd kr)) two_rows)
    by (repeat constructor).
  assert (Hstr : Forall (fun kr => exists text,
                           dict_get ACTIVE_JOBS (snd kr) = Some (VStr text))
                        two_rows)
    by (repeat constructor; eexists; reflexivity).
  split; [exact Hne|]. split; [exact Hall|]. split; [exact Hstr|].
  destruct job_ids_column_pruned_only_without_rows as (Hkeep & _ & _).
  destruct (Hkeep two_rows Hne Hall Hstr) as (headers & rows' & Hstrip & Hin & _).
  exists headers, rows'. split; assumption.
Defined.

(** C8 at a submit followed by an interrupt, and by a hold under the
    exit condition [any,held,1]. *)
Lemma exit_status_of_the_process_witness :
  ["/home/user/job.log"] <> []
  /\ exit_code (cli false ["/home/user/job.log"] [] [("any", "held", 1)]
                    ([submit_tick] ++ Interrupt :: [])%list) = Some 0
  /\ exit_code (cli false ["/home/user/job.log"] [] [("any", "held", 1)]
                    ([submit_tick] ++ Events hold_readers :: [])%list) = Some 1.
Proof.
  assert (Hlogs : ["/home/user/job.log"] <> []) by discriminate.
  split; [exact Hlogs|].
  destruct exit_status_of_the_process as (_ & Hloop & _ & _).
  destruct (make_exit_checks [("any", "held", 1)]) as [checks|e] eqn:Hchecks;
    [|discriminate Hchecks].
  destruct (loop checks (new_tracker []) [submit_tick]) as [t|r] eqn:Hquiet.
  - destruct (Hloop false ["/home/user/job.log"] [] [("any", "held", 1)]
                    checks [submit_tick] t [] Hlogs Hchecks Hquiet)
      as (Hint & _ & Hev).
    split; [exact Hint|].
    specialize (Hev hold_readers).
    injection Hchecks as <-. injection Hquiet as <-.
    exact Hev.
  - injection Hchecks as <-. discriminate Hquiet.
Defined.
(* ================================================================== *)
(** * More properties of the tracker *)
(* ================================================================== *)

(** ** Parse failures *)

Lemma drain_reader_messages path items acc :
  fst (drain_reader path items acc)
  = (fst acc ++ failure_messages path items)%list.
Proof.
  revert acc. induction items as [|[e|reason] items IH]; intros acc; simpl.
  - now rewrite app_nil_r.
  - now rewrite IH.
  - rewrite IH. simpl. now rewrite <- app_assoc.
Qed.

Lemma process_readers_messages readers acc :
  fst (process_readers readers acc) = (fst acc ++ messages_of readers)%list.
Proof.
  revert acc. induction readers as [|[path items] readers IH]; intros acc.
  - simpl. now rewrite app_nil_r.
  - simpl. rewrite IH, drain_reader_messages. unfold messages_of at 2.
    simpl. now rewrite <- app_assoc.
Qed.

Lemma parsed_events_without_failures path items :
  parsed_events path (filter is_parsed items) = parsed_events path items.
Proof.
  induction items as [|[e|reason] items IH]; simpl; [reflexivity| |exact IH].
  unfold parsed_events in *. simpl. now rewrite IH.
Qed.

Lemma events_of_without_failures readers :
  events_of (without_failures readers) = events_of readers.
Proof.
  induction readers as [|[path items] readers IH]; [reflexivity|].
  unfold events_of in *. simpl. now rewrite IH, parsed_events_without_failures.
Qed.

Lemma messages_of_without_failures readers :
  messages_of (without_failures readers) = [].
Proof.
  induction readers as [|[path items] readers IH]; [reflexivity|].
  unfold messages_of in *. simpl. rewrite IH, app_nil_r.
  induction items as [|[e|reason] items IHi]; simpl; auto.
Qed.

(** X1.  [process_events] returns one message for each item that fails
    to parse, in the order read and naming the log it came from, and the
    tracker it leaves is the one it would leave had those items not
    been there: a failure costs a message and nothing else. *)
Theorem parse_failures_only_give_messages t readers :
  fst (process_events t readers) = messages_of readers
  /\ List.length (fst (process_events t readers))
     = List.length (filter (fun i => negb (is_parsed i))
                           (flat_map snd readers))
  /\ snd (process_events t readers)
     = snd (process_events t (without_failures readers))
  /\ fst (process_events t (without_failures readers)) = [].
Proof.
  unfold process_events. rewrite !process_readers_messages.
  rewrite !process_readers_run, events_of_without_failures,
    messages_of_without_failures. cbn [fst snd app].
  repeat split.
  induction readers as [|[path items] readers IH]; [reflexivity|].
  unfold messages_of in *. cbn [flat_map fst snd].
  rewrite filter_app, !length_app, IH. f_equal.
  clear. induction items as [|[e|reason] items IHi]; simpl; auto.
Qed.

(** ** The last event on a job decides its status *)

Lemma job_status_run_untouched evs t c p :
  Forall (fun pe => ~ touches_job (c, p) pe) evs ->
  job_status (run_events evs t) c p = job_status t c p.
Proof.
  revert t. induction evs as [|[path e] evs IH]; intros t Hall.
  - reflexivity.
  - inversion Hall as [|? ? Hpe Hrest]; subst. cbn [run_events fold_left fst snd].
    change (fold_left _ evs ?t0) with (run_events evs t0).
    rewrite IH by assumption.
    destruct (job_eq_dec (c, p) (job_of e)) as [Heq|Hne].
    + unfold touches_job, mapped in Hpe. cbn [snd] in Hpe.
      unfold apply_event.
      destruct (JOB_EVENT_STATUS_TRANSITIONS (ev_type e)); [|reflexivity].
      exfalso. apply Hpe. split; [reflexivity|now symmetry].
    + now apply job_status_apply_other.
Qed.

(** X2.  The status of a job is the status that the transition table
    gives for the last event with a mapped status that addresses the
    job, whatever came before it and whatever the later events on other
    jobs do. *)
Theorem last_mapped_event_decides_status names ticks before path e after s :
  events_of_ticks ticks = (before ++ (path, e) :: after)%list ->
  JOB_EVENT_STATUS_TRANSITIONS (ev_type e) = Some s ->
  Forall (fun pe => ~ touches_job (job_of e) pe) after ->
  job_status (tracker_after names ticks) (ev_cluster e) (ev_proc e) = Some s.
Proof.
  intros Hevs Hs Hafter.
  rewrite tracker_after_run, Hevs, run_events_app.
  cbn [run_events fold_left fst snd].
  change (fold_left _ after ?t0) with (run_events after t0).
  rewrite job_status_run_untouched by exact Hafter.
  now apply job_status_apply_mapped.
Qed.

(** ** What a cluster remembers *)

Lemma batch_names_apply path t e :
  batch_names (apply_event path t e) = batch_names t.
Proof.
  unfold apply_event.
  destruct (JOB_EVENT_STATUS_TRANSITIONS (ev_type e)); reflexivity.
Qed.

Lemma first_log_of_cons c path e evs :
  first_log_of c ((path, e) :: evs)
  = if mapped e && (ev_cluster e =? c)%Z then Some path else first_log_of c evs.
Proof.
  unfold first_log_of. cbn [find fst snd].
  destruct (mapped e && (ev_cluster e =? c)%Z); reflexivity.
Qed.

Lemma apply_event_unmapped path t e :
  JOB_EVENT_STATUS_TRANSITIONS (ev_type e) = None -> apply_event path t e = t.
Proof. intros Hs. unfold apply_event. now rewrite Hs. Qed.

Lemma apply_event_mapped path t e s :
  JOB_EVENT_STATUS_TRANSITIONS (ev_type e) = Some s ->
  cluster_id_to_cluster (apply_event path t e)
  = dict_set (ev_cluster e)
      (cluster_setitem
         match dict_get (ev_cluster e) (cluster_id_to_cluster t) with
         | Some c => c
         | None => {| cluster_id := ev_cluster e;
                      event_log_path := path;
                      _batch_name := batch_name_hint (batch_names t) (ev_cluster e);
                      job_to_state := [] |}
         end (ev_proc e) s)
      (cluster_id_to_cluster t).
Proof. intros Hs. unfold apply_event. now rewrite Hs. Qed.

Lemma cluster_meta_run evs t c :
  match dict_get c (cluster_id_to_cluster (run_events evs t)) with
  | Some cl =>
      match dict_get c (cluster_id_to_cluster t) with
      | Some cl0 =>
          cluster_id cl = cluster_id cl0
          /\ event_log_path cl = event_log_path cl0
          /\ _batch_name cl = _batch_name cl0
      | None =>
          cluster_id cl = c
          /\ first_log_of c evs = Some (event_log_path cl)
          /\ _batch_name cl = batch_name_hint (batch_names t) c
      end
  | None =>
      dict_get c (cluster_id_to_cluster t) = None /\ first_log_of c evs = None
  end.
Proof.
  revert t. induction evs as [|[path e] evs IH]; intros t.
  - cbn [run_events fold_left].
    destruct (dict_get c (cluster_id_to_cluster t)); auto.
  - cbn [run_events fold_left fst snd].
    change (fold_left _ evs ?t0) with (run_events evs t0).
    specialize (IH (apply_event path t e)).
    rewrite first_log_of_cons. rewrite batch_names_apply in IH.
    unfold mapped.
    destruct (JOB_EVENT_STATUS_TRANSITIONS (ev_type e)) as [s|] eqn:Hs;
      cbn [andb].
    2:{ rewrite (apply_event_unmapped path t e Hs) in *. exact IH. }
    rewrite (apply_event_mapped path t e s Hs) in IH.
    destruct (Z.eqb_spec (ev_cluster e) c) as [Hc|Hc].
    + subst c. rewrite dict_get_set_same in IH.
      destruct (dict_get (ev_cluster e)
                  (cluster_id_to_cluster (run_events evs (apply_event path t e))))
        as [cl|]; [|destruct IH as [IH _]; discriminate].
      destruct (dict_get (ev_cluster e) (cluster_id_to_cluster t)) as [cl0|];
        cbn in IH; [exact IH|].
      destruct IH as (H1 & H2 & H3). repeat split; congruence.
    + rewrite dict_get_set_other in IH by exact Hc. exact IH.
Qed.

Lemma dict_set_not_nil {K V : Type} `{EqKey K} (k : K) (v : V) d :
  dict_set k v d <> [].
Proof.
  destruct d as [|[k' v'] d]; simpl; [discriminate|].
  destruct (keqb k k'); discriminate.
Qed.

Lemma clusters_nonempty_apply path t e :
  Forall (fun kc => job_to_state (snd kc) <> []) (cluster_id_to_cluster t) ->
  Forall (fun kc => job_to_state (snd kc) <> [])
         (cluster_id_to_cluster (apply_event path t e)).
Proof.
  intros Hall. unfold apply_event.
  destruct (JOB_EVENT_STATUS_TRANSITIONS (ev_type e)) as [s|]; [|exact Hall].
  cbn [cluster_id_to_cluster]. apply Forall_dict_set; [exact Hall|].
  cbn [snd cluster_setitem job_to_state]. apply dict_set_not_nil.
Qed.

Lemma clusters_nonempty_run evs t :
  Forall (fun kc => job_to_state (snd kc) <> []) (cluster_id_to_cluster t) ->
  Forall (fun kc => job_to_state (snd kc) <> [])
         (cluster_id_to_cluster (run_events evs t)).
Proof.
  revert t. induction evs as [|[path e] evs IH]; intros t Hall; [exact Hall|].
  cbn [run_events fold_left fst snd]. apply IH.
  now apply clusters_nonempty_apply.
Qed.

(** X3.  A cluster of the tracker is stored under its own id; its event
    log is the log that gave the first event with a mapped status for
    that cluster, whatever logs give later events for it; its batch name
    is the hint for its id; and it holds at least one job.  A cluster id
    that no such event names is no key of the tracker. *)
Theorem cluster_keeps_first_event_log names ticks c :
  match dict_get c (cluster_id_to_cluster (tracker_after names ticks)) with
  | Some cl =>
      cluster_id cl = c
      /\ first_log_of c (events_of_ticks ticks) = Some (event_log_path cl)
      /\ _batch_name cl = batch_name_hint names c
      /\ job_to_state cl <> []
  | None => first_log_of c (events_of_ticks ticks) = None
  end.
Proof.
  rewrite tracker_after_run.
  pose proof (cluster_meta_run (events_of_ticks ticks) (new_tracker names) c)
    as Hmeta.
  pose proof (clusters_nonempty_run (events_of_ticks ticks) (new_tracker names)
                ltac:(constructor)) as Hne.
  destruct (dict_get c (cluster_id_to_cluster
                          (run_events (events_of_ticks ticks) (new_tracker names))))
    as [cl|] eqn:Hget.
  - cbn in Hmeta. destruct Hmeta as (H1 & H2 & H3).
    repeat split; try assumption.
    apply dict_get_In in Hget. rewrite Forall_forall in Hne.
    apply (Hne _ Hget).
  - apply Hmeta.
Qed.

(** ** The order of the clusters and of the jobs *)

Lemma existsb_eqb_In x l : existsb (Z.eqb x) l = true <-> In x l.
Proof.
  rewrite existsb_exists. split.
  - intros (y & Hy & Heq). apply Z.eqb_eq in Heq. now subst.
  - intros Hin. exists x. split; [exact Hin|apply Z.eqb_refl].
Qed.

Lemma keys_dict_set_first_seen {V : Type} k (v : V) (d : dict Z V) :
  keys (dict_set k v d)
  = if existsb (Z.eqb k) (keys d) then keys d else (keys d ++ [k])%list.
Proof.
  destruct (existsb (Z.eqb k) (keys d)) eqn:Hex.
  - apply keys_set_present. now apply existsb_eqb_In.
  - apply keys_set_absent. intros Hin. apply existsb_eqb_In in Hin. congruence.
Qed.

Lemma first_seen_from_app seen l l' :
  first_seen_from seen (l ++ l')%list
  = first_seen_from (first_seen_from seen l) l'.
Proof. apply fold_left_app. Qed.

Lemma first_seen_from_extends seen l :
  exists added, first_seen_from seen l = (seen ++ added)%list.
Proof.
  revert seen. induction l as [|x l IH]; intros seen.
  - exists []. cbn. now rewrite app_nil_r.
  - cbn [first_seen_from fold_left].
    change (fold_left _ l ?s) with (first_seen_from s l).
    destruct (existsb (Z.eqb x) seen); [apply IH|].
    destruct (IH (seen ++ [x])%list) as [added Hadded].
    exists (x :: added). rewrite Hadded, <- app_assoc. reflexivity.
Qed.

Lemma keys_clusters_run evs t :
  keys (cluster_id_to_cluster (run_events evs t))
  = first_seen_from (keys (cluster_id_to_cluster t))
                    (map ev_cluster (mapped_events evs)).
Proof.
  revert t. induction evs as [|[path e] evs IH]; intros t; [reflexivity|].
  cbn [run_events fold_left fst snd].
  change (fold_left _ evs ?t0) with (run_events evs t0).
  rewrite IH. unfold mapped_events. cbn [map filter snd]. unfold mapped at 2.
  destruct (JOB_EVENT_STATUS_TRANSITIONS (ev_type e)) as [s|] eqn:Hs.
  - rewrite (apply_event_mapped path t e s Hs).
    cbn [map first_seen_from fold_left].
    now rewrite keys_dict_set_first_seen.
  - now rewrite (apply_event_unmapped path t e Hs).
Qed.

Lemma procs_of_cluster_run evs t c :
  match dict_get c (cluster_id_to_cluster (run_events evs t)) with
  | Some cl =>
      keys (job_to_state cl)
      = first_seen_from
          match dict_get c (cluster_id_to_cluster t) with
          | Some cl0 => keys (job_to_state cl0)
          | None => []
          end
          (map ev_proc (events_on_cluster c evs))
  | None => True
  end.
Proof.
  revert t. induction evs as [|[path e] evs IH]; intros t.
  - cbn [run_events fold_left].
    destruct (dict_get c (cluster_id_to_cluster t)); reflexivity.
  - cbn [run_events fold_left fst snd].
    change (fold_left _ evs ?t0) with (run_events evs t0).
    specialize (IH (apply_event path t e)).
    destruct (dict_get c (cluster_id_to_cluster
                            (run_events evs (apply_event path t e))))
      as [cl|]; [|exact I].
    rewrite IH. unfold events_on_cluster, mapped_events.
    cbn [map filter snd]. unfold mapped at 2.
    destruct (JOB_EVENT_STATUS_TRANSITIONS (ev_type e)) as [s|] eqn:Hs.
    2:{ now rewrite (apply_event_unmapped path t e Hs). }
    rewrite (apply_event_mapped path t e s Hs). cbn [filter].
    destruct (Z.eqb_spec (ev_cluster e) c) as [Hc|Hc].
    + subst c. rewrite dict_get_set_same.
      cbn [map first_seen_from fold_left cluster_setitem job_to_state].
      rewrite keys_dict_set_first_seen.
      destruct (dict_get (ev_cluster e) (cluster_id_to_cluster t));
        reflexivity.
    + now rewrite dict_get_set_other by exact Hc.
Qed.

(** X4.  The tracker lists the clusters in the order in which the first
    event with a mapped status of each one was read, and inside a
    cluster the jobs in the order of their first such events; reading
    more events only adds clusters at the end. *)
Theorem clusters_listed_in_order_first_seen names ticks :
  keys (cluster_id_to_cluster (tracker_after names ticks))
  = first_seen (map ev_cluster (mapped_events (events_of_ticks ticks)))
  /\ (forall c cl,
        dict_get c (cluster_id_to_cluster (tracker_after names ticks)) = Some cl ->
        keys (job_to_state cl)
        = first_seen (map ev_proc (events_on_cluster c (events_of_ticks ticks))))
  /\ (forall more,
        exists added,
          keys (cluster_id_to_cluster (tracker_after names (ticks ++ more)%list))
          = (keys (cluster_id_to_cluster (tracker_after names ticks))
             ++ added)%list).
Proof.
  rewrite tracker_after_run. split; [apply keys_clusters_run|]. split.
  - intros c cl Hget.
    pose proof (procs_of_cluster_run (events_of_ticks ticks)
                  (new_tracker names) c) as Hprocs.
    rewrite Hget in Hprocs. exact Hprocs.
  - intros more. rewrite tracker_after_run.
    unfold events_of_ticks. rewrite flat_map_app.
    fold (events_of_ticks ticks). fold (events_of_ticks more).
    rewrite run_events_app, keys_clusters_run.
    apply first_seen_from_extends.
Qed.

(** X5.  The tracker holds no status for a job exactly when no event
    with a mapped status has addressed it. *)
Theorem job_without_events_has_no_status names ticks c p :
  job_status (tracker_after names ticks) c p = None
  <-> ~ In (c, p) (map job_of (mapped_events (events_of_ticks ticks))).
Proof.
  rewrite tracker_after_run.
  pose proof (tracker_wf_run (events_of_ticks ticks) (new_tracker names)
                (tracker_wf_new names)) as Hwf.
  pose proof (In_tracker_jobs_run (events_of_ticks ticks) (new_tracker names)
                (c, p) (tracker_wf_new names)) as Hin.
  pose proof (In_tracker_jobs _ c p (proj1 Hwf)) as Hjobs.
  cbn [tracker_jobs new_tracker cluster_id_to_cluster flat_map] in Hin.
  unfold mapped_events.
  assert (Hstatus : job_status (run_events (events_of_ticks ticks)
                                  (new_tracker names)) c p = None
                    <-> ~ In (c, p) (tracker_jobs
                                       (run_events (events_of_ticks ticks)
                                          (new_tracker names)))).
  { rewrite Hjobs. unfold job_status.
    destruct (dict_get c (cluster_id_to_cluster _)) as [cl|].
    - rewrite dict_get_None_keys. split.
      + intros Hno (cl' & Heq & Hp). inversion Heq; subst. contradiction.
      + intros Hno Hp. apply Hno. now exists cl.
    - split; [|reflexivity]. intros _ (cl' & Heq & _). discriminate. }
  rewrite Hstatus, Hin. tauto.
Qed.

(** ** The groups of group_clusters_by_key *)

Lemma group_of_append groups v c k :
  group_of (groups_append groups v c) k
  = if keqb v k then (group_of groups k ++ [c])%list else group_of groups k.
Proof.
  unfold group_of, groups_append.
  destruct (keqb_spec v k) as [->|Hne].
  - destruct (dict_get k groups) as [l|]; now rewrite dict_get_set_same.
  - destruct (dict_get v groups) as [l|];
      now rewrite dict_get_set_other by exact Hne.
Qed.

Lemma NoDup_keys_groups_append groups v c :
  NoDup (keys groups) -> NoDup (keys (groups_append groups v c)).
Proof.
  intros Hnd. unfold groups_append.
  destruct (dict_get v groups); now apply NoDup_keys_set.
Qed.

Lemma In_keys_groups_append groups v c k :
  In k (keys (groups_append groups v c)) <-> k = v \/ In k (keys groups).
Proof.
  unfold groups_append. destruct (dict_get v groups); apply In_keys_set.
Qed.

Lemma grouped_spec a cs groups :
  NoDup (keys groups) ->
  NoDup (keys (grouped a cs groups))
  /\ (forall v, group_of (grouped a cs groups) v
                = (group_of groups v
                   ++ filter (fun c => keqb (getter a c) v) cs)%list)
  /\ (forall v, In v (keys (grouped a cs groups))
                <-> In v (keys groups) \/ exists c, In c cs /\ getter a c = v).
Proof.
  revert groups. induction cs as [|c cs IH]; intros groups Hnd.
  - cbn. split; [exact Hnd|]. split.
    + intros v. now rewrite app_nil_r.
    + intros v. split; [tauto|]. intros [Hin|(c & [] & _)]. exact Hin.
  - cbn [grouped fold_left]. fold (grouped a cs (groups_append groups (getter a c) c)).
    destruct (IH _ (NoDup_keys_groups_append groups (getter a c) c Hnd))
      as (Hnd' & Hgroup & Hkeys).
    split; [exact Hnd'|]. split.
    + intros v. rewrite Hgroup, group_of_append. cbn [filter].
      destruct (keqb (getter a c) v); [|reflexivity].
      now rewrite <- app_assoc.
    + intros v. rewrite Hkeys, In_keys_groups_append. cbn [In]. split.
      * intros [[->|Hin]|(c' & Hc' & Hv)].
        -- right. exists c. tauto.
        -- now left.
        -- right. exists c'. tauto.
      * intros [Hin|(c' & [->|Hc'] & Hv)].
        -- tauto.
        -- left. left. now symmetry.
        -- right. exists c'. tauto.
Qed.

(** X6.  [group_clusters_by_key] partitions the clusters by the value of
    the grouping attribute: the keys of the groups are distinct and are
    the attribute values that occur; the group of a value holds exactly
    the clusters with that value, in the order given; no group is empty.
    A key that names no grouping attribute raises [KeyError]. *)
Theorem group_clusters_by_key_partitions cs :
  (forall a,
     exists groups,
       group_clusters_by_key cs (GROUPBY_ATTRIBUTE_TO_AD_KEY a) = Ok groups
       /\ NoDup (keys groups)
       /\ (forall v, group_of groups v
                     = filter (fun c => keqb (getter a c) v) cs)
       /\ (forall v, In v (keys groups)
                     <-> exists c, In c cs /\ getter a c = v)
       /\ Forall (fun g => snd g <> []) groups)
  /\ (forall key,
        (forall a, key <> GROUPBY_ATTRIBUTE_TO_AD_KEY a) ->
        group_clusters_by_key cs key = Raise KeyError).
Proof.
  split.
  - intros a. exists (grouped a cs []).
    destruct (grouped_spec a cs [] ltac:(constructor)) as (Hnd & Hgroup & Hkeys).
    split; [apply group_clusters_by_key_eq|]. split; [exact Hnd|]. split.
    + intros v. now rewrite Hgroup.
    + split.
      * intros v. rewrite Hkeys. cbn [keys map In]. tauto.
      * apply grouped_nonempty. constructor.
  - intros key Hkey. unfold group_clusters_by_key, GROUPBY_AD_KEY_TO_ATTRIBUTE.
    destruct (keqb_spec key EVENT_LOG) as [->|_];
      [now destruct (Hkey By_event_log_path)|].
    destruct (keqb_spec key CLUSTER_ID) as [->|_];
      [now destruct (Hkey By_cluster_id)|].
    destruct (keqb_spec key BATCH_NAME) as [->|_];
      [now destruct (Hkey By_batch_name)|].
    reflexivity.
Qed.

(** ** Totals and rows, status by status *)

Lemma count_jobs_values s (jobs : dict Z JobStatus) :
  count_jobs s jobs = count_of s (values jobs).
Proof.
  unfold count_jobs, count_of, values. f_equal.
  induction jobs as [|[p st] jobs IH]; [reflexivity|].
  cbn [filter map snd]. destruct (JobStatus_eqb st s); cbn [List.length]; lia.
Qed.

Lemma count_of_app s l l' :
  count_of s (l ++ l')%list = count_of s l + count_of s l'.
Proof. unfold count_of. rewrite filter_app, length_app. lia. Qed.

Lemma count_status_states s cs : count_status s cs = count_of s (states_of cs).
Proof.
  induction cs as [|c cs IH]; [reflexivity|].
  cbn [count_status fold_right states_of flat_map].
  fold (count_status s cs). fold (states_of cs).
  now rewrite count_of_app, IH, count_jobs_values.
Qed.

Lemma number_of_jobs_states cs :
  number_of_jobs cs = Z.of_nat (List.length (states_of cs)).
Proof.
  induction cs as [|c cs IH]; [reflexivity|].
  cbn [number_of_jobs fold_right states_of flat_map].
  fold (number_of_jobs cs). fold (states_of cs).
  rewrite length_app, IH. unfold values. rewrite length_map. lia.
Qed.

(** X7.  Whatever the tracker holds and whatever the grouping attribute,
    the totals of a tick that groups with [group_clusters_by_key] count
    the jobs of the tracker status by status: [totals[s]] is the number
    of jobs whose status is [s], and [totals[TOTAL]] is the number of
    jobs. *)
Theorem totals_count_jobs_by_status nice_path a dagman t :
  exists groups rows totals,
    aggregate nice_path false a dagman t = Ok (groups, rows, totals)
    /\ totals_get TOTAL totals = Z.of_nat (List.length (job_states t))
    /\ forall s, totals_get (Status s) totals = count_of s (job_states t).
Proof.
  unfold aggregate. rewrite group_clusters_by_key_eq. cbn [bind].
  destruct (make_rows_from_groups_totals nice_path
              (GROUPBY_ATTRIBUTE_TO_AD_KEY a) (grouped a (clusters t) [])
              (grouped_cells_defined nice_path a (clusters t)))
    as (rows & totals & Hmake & Htot & Hst).
  rewrite Hmake. cbn [bind fst snd].
  exists (grouped a (clusters t) []), rows, totals.
  split; [reflexivity|]. split.
  - rewrite Htot, grouped_jobs. cbn [jobs_in_groups fold_right].
    now rewrite number_of_jobs_states.
  - intros s. rewrite Hst, grouped_status. cbn [status_in_groups fold_right].
    now rewrite count_status_states.
Qed.

Lemma dict_set_absent {K V : Type} `{EqKeyLaws K} (k : K) (v : V) d :
  ~ In k (keys d) -> dict_set k v d = (d ++ [(k, v)])%list.
Proof.
  induction d as [|[k' v'] d IH]; intros Hnot; [reflexivity|].
  cbn [dict_set]. destruct (keqb_spec k k') as [->|Hne].
  - exfalso. apply Hnot. now left.
  - cbn [app]. f_equal. apply IH. intros Hin. apply Hnot. now right.
Qed.

Section RowsOfGroups.
Variable nice_path : string -> string.
Variable key : Column.

Lemma foldM_add_group_rows_of groups rows0 totals0 :
  NoDup (keys rows0 ++ keys groups)%list ->
  cells_defined nice_path key groups ->
  exists added totals,
    foldM (add_group nice_path key) groups (rows0, totals0)
    = Ok ((rows0 ++ added)%list, totals)
    /\ Forall2 (fun g kr =>
                  fst kr = fst g
                  /\ exists cell,
                       key_cell nice_path key (fst g) = Ok cell
                       /\ snd kr = dict_set key cell (row_of_clusters (snd g)))
               groups added.
Proof.
  revert rows0 totals0. induction groups as [|[v cs] groups IH];
    intros rows0 totals0 Hnd Hcells.
  - exists [], totals0. rewrite app_nil_r. split; [reflexivity|constructor].
  - inversion Hcells as [|? ? [cell Hcell] Hrest]; subst. cbn [fst] in Hcell.
    cbn [foldM]. rewrite add_group_eq, Hcell. cbn [bind].
    assert (Hv : ~ In v (keys rows0)).
    { intros Hin. cbn [keys map fst] in Hnd.
      apply NoDup_remove_2 in Hnd. apply Hnd, in_or_app. now left. }
    rewrite (dict_set_absent v _ rows0 Hv).
    destruct (IH (rows0 ++ [(v, dict_set key cell (row_of_clusters cs))])%list
                 (totals_after cs totals0)) as (added & totals & Hfold & Hall).
    + unfold keys in *. rewrite map_app, <- app_assoc. exact Hnd.
    + exact Hrest.
    + exists ((v, dict_set key cell (row_of_clusters cs)) :: added), totals.
      split.
      * etransitivity; [exact Hfold|]. now rewrite <- app_assoc.
      * constructor; [|exact Hall]. split; [reflexivity|].
        exists cell. split; [exact Hcell|reflexivity].
Qed.
End RowsOfGroups.

Lemma dict_get_row_of_clusters cs :
  dict_get TOTAL (row_of_clusters cs) = Some (VInt (number_of_jobs cs))
  /\ (forall s, dict_get (Status s) (row_of_clusters cs)
                = Some (VInt (count_status s cs)))
  /\ dict_get ACTIVE_JOBS (row_of_clusters cs)
     = Some (VStr (active_jobs_text
                     (sort_by list_string_ltb job_id_key (active_ids cs)))).
Proof.
  split; [reflexivity|]. split; [|reflexivity]. intros s. now destruct s.
Qed.

(** X8.  For the groups of [group_clusters_by_key], [make_rows_from_groups]
    returns one row for each group, keyed by the value of the group and
    in the order of the groups.  The row is the one that
    [row_data_from_job_state] gives for the clusters of the group, with
    the cell of the grouping column added: its cell of a status is the
    number of jobs of the group with that status, and its [TOTAL] cell
    is the number of jobs of the group. *)
Theorem one_row_for_each_group nice_path cs a groups :
  group_clusters_by_key cs (GROUPBY_ATTRIBUTE_TO_AD_KEY a) = Ok groups ->
  exists rows totals,
    make_rows_from_groups nice_path groups (GROUPBY_ATTRIBUTE_TO_AD_KEY a)
    = Ok (rows, totals)
    /\ keys rows = keys groups
    /\ Forall2 (fun g kr =>
                  fst kr = fst g
                  /\ (exists row cell,
                        row_data_from_job_state (snd g) = Ok row
                        /\ key_cell nice_path (GROUPBY_ATTRIBUTE_TO_AD_KEY a)
                                    (fst g) = Ok cell
                        /\ snd kr
                           = dict_set (GROUPBY_ATTRIBUTE_TO_AD_KEY a) cell row)
                  /\ dict_get (GROUPBY_ATTRIBUTE_TO_AD_KEY a) (snd kr)
                     = (if keqb (GROUPBY_ATTRIBUTE_TO_AD_KEY a) EVENT_LOG
                        then match fst g with
                             | VStr p => Some (VStr (nice_path p))
                             | _ => None
                             end
                        else Some (fst g))
                  /\ dict_get TOTAL (snd kr)
                     = Some (VInt (Z.of_nat (List.length (states_of (snd g)))))
                  /\ forall s, dict_get (Status s) (snd kr)
                               = Some (VInt (count_of s (states_of (snd g)))))
               groups rows.
Proof.
  rewrite group_clusters_by_key_eq. intros Hgroups.
  injection Hgroups as <-.
  destruct (grouped_spec a cs [] ltac:(constructor)) as (Hnd & _ & _).
  destruct (foldM_add_group_rows_of nice_path (GROUPBY_ATTRIBUTE_TO_AD_KEY a)
              (grouped a cs []) [] [] Hnd
              (grouped_cells_defined nice_path a cs))
    as (rows & totals & Hfold & Hall).
  exists rows, totals. split; [exact Hfold|].
  assert (Hrows :
    Forall2 (fun g kr =>
               fst kr = fst g
               /\ exists cell,
                    key_cell nice_path (GROUPBY_ATTRIBUTE_TO_AD_KEY a) (fst g)
                    = Ok cell
                    /\ snd kr = dict_set (GROUPBY_ATTRIBUTE_TO_AD_KEY a) cell
                                         (row_of_clusters (snd g)))
            (grouped a cs []) rows) by exact Hall.
  clear Hfold Hall Hnd. split.
  - induction Hrows as [|g kr gs krs [Hk _] _ IH]; [reflexivity|].
    cbn [keys map]. f_equal; [exact Hk|exact IH].
  - eapply Forall2_impl; [|exact Hrows].
    intros g kr (Hk & cell & Hcell & Hrow).
    destruct (dict_get_row_of_clusters (snd g)) as (Htot & Hst & _).
    split; [exact Hk|]. split.
    { exists (row_of_clusters (snd g)), cell.
      split; [apply row_data_from_job_state_eq|]. split; assumption. }
    rewrite Hrow. split.
    { rewrite dict_get_set_same. unfold key_cell in Hcell.
      destruct (keqb (GROUPBY_ATTRIBUTE_TO_AD_KEY a) EVENT_LOG).
      - destruct (fst g); try discriminate. now injection Hcell as <-.
      - now injection Hcell as <-. }
    split.
    + rewrite dict_get_set_other by (now destruct a).
      now rewrite Htot, number_of_jobs_states.
    + intros s. rewrite dict_get_set_other by (now destruct a).
      now rewrite Hst, count_status_states.
Qed.

(** ** Grouping by DAG *)

Lemma reverse_dict_keys (d : dict Z string) acc p :
  In p (keys (fold_left (fun acc kv => dict_set (snd kv) (fst kv) acc) d acc))
  <-> In p (keys acc) \/ In p (values d).
Proof.
  revert acc. induction d as [|[k v] d IH]; intros acc.
  - cbn. tauto.
  - cbn [fold_left fst snd values map]. rewrite IH, In_keys_set.
    cbn [In]. unfold values. intuition congruence.
Qed.

Lemma in_dag_spec dagman c :
  in_dag dagman c = true <-> In (event_log_path c) (values dagman).
Proof.
  unfold in_dag, dict_mem, reverse_dict.
  pose proof (reverse_dict_keys dagman [] (event_log_path c)) as Hkeys.
  cbn [keys map In] in Hkeys.
  destruct (dict_get (event_log_path c) _) as [k|] eqn:Hget.
  - split; [intros _|reflexivity].
    assert (Hin : In (event_log_path c)
                     (keys (fold_left
                              (fun acc kv => dict_set (snd kv) (fst kv) acc)
                              dagman ([] : dict string Z))))
      by (apply dict_get_Some_keys; now exists k).
    apply Hkeys in Hin. destruct Hin as [[]|Hin]. exact Hin.
  - split; [discriminate|]. intros Hin.
    apply dict_get_None_keys in Hget. exfalso. apply Hget, Hkeys. now right.
Qed.

Lemma group_jobs_by_dag_sum f dagman names cs groups0 groups :
  (forall l c, f (l ++ [c])%list = f l + f [c]) ->
  (forall c l, f (c :: l) = f [c] + f l) ->
  f [] = 0 ->
  foldM (fun groups c =>
           match dict_get (event_log_path c) (reverse_dict dagman) with
           | Some k =>
               h <- getitem k names ;;
               Ok (groups_append groups (value_of_hint h) c)
           | None => Ok groups
           end) cs groups0 = Ok groups ->
  sum_groups f groups = sum_groups f groups0 + f (filter (in_dag dagman) cs).
Proof.
  intros Happ Hcons Hnil. revert groups0.
  induction cs as [|c cs IH]; intros groups0 Hfold.
  - injection Hfold as <-. cbn [filter]. rewrite Hnil. lia.
  - cbn [foldM filter] in Hfold |- *. unfold in_dag at 1, dict_mem.
    destruct (dict_get (event_log_path c) (reverse_dict dagman)) as [k|].
    + destruct (getitem k names) as [h|e]; [|discriminate].
      cbn [bind] in Hfold. rewrite (IH _ Hfold).
      rewrite sum_groups_append by (intros l; apply Happ).
      rewrite (Hcons c (filter (in_dag dagman) cs)). lia.
    + cbn [bind] in Hfold. apply (IH _ Hfold).
Qed.

Lemma foldM_add_group_cells nice_path key groups st st' :
  foldM (add_group nice_path key) groups st = Ok st' ->
  cells_defined nice_path key groups.
Proof.
  revert st. induction groups as [|[v cs] groups IH]; intros [rows totals] Hfold.
  - constructor.
  - cbn [foldM] in Hfold. rewrite add_group_eq in Hfold.
    destruct (key_cell nice_path key v) as [cell|e] eqn:Hcell;
      [|discriminate].
    cbn [bind] in Hfold. constructor; [now exists cell|].
    apply (IH _ Hfold).
Qed.

(** X9.  With the [dag] option, whenever the tick returns, the totals
    count the jobs of the clusters whose event log is the nodes log of
    a DAGMan job, status by status, and no other job. *)
Theorem dag_totals_count_jobs_of_nodes_logs
    nice_path a dagman t groups rows totals :
  aggregate nice_path true a dagman t = Ok (groups, rows, totals) ->
  (forall c, in_dag dagman c = true
             <-> In (event_log_path c) (values dagman))
  /\ totals_get TOTAL totals
     = Z.of_nat (List.length
                   (states_of (filter (in_dag dagman) (clusters t))))
  /\ forall s, totals_get (Status s) totals
               = count_of s (states_of (filter (in_dag dagman) (clusters t))).
Proof.
  unfold aggregate.
  destruct (group_jobs_by_dag (clusters t) dagman (batch_names t))
    as [groups'|e] eqn:Hgroups; [|discriminate].
  cbn [bind].
  destruct (make_rows_from_groups nice_path groups'
              (GROUPBY_ATTRIBUTE_TO_AD_KEY a)) as [[rows' totals']|e] eqn:Hmake;
    [|discriminate].
  cbn [bind fst snd]. intros Heq. injection Heq as <- <- <-.
  split; [intros c; apply in_dag_spec|].
  destruct (make_rows_from_groups_totals nice_path _ groups'
              (foldM_add_group_cells _ _ _ _ _ Hmake))
    as (rows2 & totals2 & Hmake2 & Htot & Hst).
  rewrite Hmake in Hmake2. injection Hmake2 as <- <-. split.
  - rewrite Htot, <- number_of_jobs_states.
    apply (group_jobs_by_dag_sum number_of_jobs dagman (batch_names t)
             (clusters t) [] groups'); [| | |exact Hgroups].
    + intros l c. apply number_of_jobs_app.
    + intros c l. apply (number_of_jobs_app [c] l).
    + reflexivity.
  - intros s. rewrite Hst, <- count_status_states.
    apply (group_jobs_by_dag_sum (count_status s) dagman (batch_names t)
             (clusters t) [] groups'); [| | |exact Hgroups].
    + intros l c. apply count_status_app.
    + intros c l. apply (count_status_app s [c] l).
    + reflexivity.
Qed.

(* ================================================================== *)
(** * More properties of the rows that are displayed *)
(* ================================================================== *)

Section DictFilter.
Context {K V : Type} `{EqKeyLaws K}.

Lemma In_dict_get (k : K) (v : V) d :
  NoDup (keys d) -> In (k, v) d -> dict_get k d = Some v.
Proof.
  induction d as [|[k' v'] d IH]; intros Hnd Hin; [destruct Hin|].
  cbn [keys map fst] in Hnd. inversion Hnd as [|? ? Hk' Hnd']; subst.
  cbn [dict_get]. destruct Hin as [Heq|Hin].
  - injection Heq as -> ->. now rewrite keqb_refl.
  - destruct (keqb_spec k k') as [->|_]; [|now apply IH].
    exfalso. apply Hk'. now apply (in_map fst) in Hin.
Qed.

Lemma NoDup_keys_filter (p : K * V -> bool) (d : dict K V) :
  NoDup (keys d) -> NoDup (keys (filter p d)).
Proof.
  induction d as [|[k v] d IH]; intros Hnd; [constructor|].
  cbn [keys map fst] in Hnd. inversion Hnd as [|? ? Hk Hnd']; subst.
  cbn [filter]. destruct (p (k, v)); [|now apply IH].
  cbn [keys map fst]. constructor; [|now apply IH].
  intros Hin. apply Hk. unfold keys in *. apply in_map_iff in Hin.
  destruct Hin as (kv & Hkv & Hin). apply filter_In in Hin.
  apply in_map_iff. exists kv. tauto.
Qed.

Lemma dict_get_filter (p : K * V -> bool) (k : K) (d : dict K V) :
  NoDup (keys d) ->
  dict_get k (filter p d)
  = match dict_get k d with
    | Some v => if p (k, v) then Some v else None
    | None => None
    end.
Proof.
  induction d as [|[k' v'] d IH]; intros Hnd; [reflexivity|].
  cbn [keys map fst] in Hnd. inversion Hnd as [|? ? Hk' Hnd']; subst.
  cbn [filter dict_get]. destruct (keqb_spec k k') as [->|Hne].
  - destruct (p (k', v')) eqn:Hp.
    + cbn [dict_get]. now rewrite keqb_refl.
    + assert (Hnone : dict_get k' (filter p d) = None).
      { apply dict_get_None_keys. intros Hin. apply Hk'.
        unfold keys in *. apply in_map_iff in Hin.
        destruct Hin as (kv & Hkv & Hin). apply filter_In in Hin.
        apply in_map_iff. exists kv. tauto. }
      exact Hnone.
  - destruct (p (k', v')).
    + cbn [dict_get]. destruct (keqb_spec k k'); [contradiction|].
      now apply IH.
    + now apply IH.
Qed.

Lemma dict_remove_filter (k : K) (d : dict K V) :
  NoDup (keys d) ->
  dict_remove k d = filter (fun kv => negb (keqb k (fst kv))) d.
Proof.
  induction d as [|[k' v'] d IH]; intros Hnd; [reflexivity|].
  cbn [keys map fst] in Hnd. inversion Hnd as [|? ? Hk' Hnd']; subst.
  cbn [dict_remove filter fst]. destruct (keqb_spec k k') as [->|Hne].
  - cbn [negb]. symmetry. apply forallb_filter_id. apply forallb_forall.
    intros [k2 v2] Hin. cbn [fst]. destruct (keqb_spec k' k2) as [->|_];
      [|reflexivity].
    exfalso. apply Hk'. now apply (in_map fst) in Hin.
  - cbn [negb]. f_equal. now apply IH.
Qed.
End DictFilter.

Lemma keqb_sym_Column (a b : Column) : keqb a b = keqb b a.
Proof.
  destruct (keqb_spec a b) as [->|Hne].
  - now rewrite keqb_refl.
  - symmetry. apply keqb_neq. congruence.
Qed.

Lemma without_columns_cons h cols (row : Row) :
  without_columns cols (without_columns [h] row) = without_columns (h :: cols) row.
Proof.
  unfold without_columns. induction row as [|[k v] row IH]; [reflexivity|].
  cbn [filter fst column_in existsb]. rewrite orb_false_r.
  destruct (keqb k h); cbn [negb orb filter fst].
  - exact IH.
  - fold (column_in k cols). destruct (column_in k cols); cbn [negb];
      [exact IH|]. f_equal. exact IH.
Qed.

Lemma dict_get_without_columns cols c (row : Row) :
  NoDup (keys row) ->
  dict_get c (without_columns cols row)
  = if column_in c cols then None else dict_get c row.
Proof.
  intros Hnd. unfold without_columns. rewrite dict_get_filter by exact Hnd.
  cbn [fst]. destruct (dict_get c row), (column_in c cols); reflexivity.
Qed.

Lemma pop_column_eq rows h :
  Forall (fun kr => NoDup (keys (snd kr)) /\ dict_mem h (snd kr) = true) rows ->
  pop_column rows h
  = Ok (map (fun kr => (fst kr, without_columns [h] (snd kr))) rows).
Proof.
  unfold pop_column. induction 1 as [|[k row] rows [Hnd Hmem] _ IH];
    [reflexivity|].
  cbn [mapM map fst snd] in *. unfold pop at 1. unfold dict_mem in Hmem.
  destruct (dict_get h row) as [v|]; [|discriminate]. cbn [bind].
  rewrite IH. cbn [bind]. do 3 f_equal.
  rewrite dict_remove_filter by exact Hnd. unfold without_columns.
  apply filter_ext. intros [k' v']. cbn [fst column_in existsb].
  now rewrite orb_false_r, keqb_sym_Column.
Qed.

Lemma foldM_pop_column_eq cols rows :
  NoDup cols ->
  Forall (fun kr => NoDup (keys (snd kr)) /\ has_columns cols (snd kr)) rows ->
  foldM pop_column cols rows
  = Ok (map (fun kr => (fst kr, without_columns cols (snd kr))) rows).
Proof.
  intros Hnd. revert rows. induction Hnd as [|h cols Hh Hnd IH]; intros rows Hall.
  - cbn [foldM]. f_equal. rewrite <- (map_id rows) at 1. apply map_ext_in.
    intros [k row] _. cbn [fst snd]. f_equal. unfold without_columns.
    symmetry. apply forallb_filter_id. apply forallb_forall. now intros.
  - cbn [foldM]. rewrite pop_column_eq.
    2:{ eapply Forall_impl; [|exact Hall]. intros kr [Hkr Hcols].
        split; [exact Hkr|]. now inversion Hcols. }
    cbn [bind]. rewrite IH.
    + f_equal. rewrite map_map. apply map_ext. intros [k row]. cbn [fst snd].
      f_equal. apply without_columns_cons.
    + apply Forall_map. eapply Forall_impl; [|exact Hall].
      intros [k row] [Hkr Hcols]. cbn [fst snd] in *. split.
      * now apply NoDup_keys_filter.
      * inversion Hcols as [|? ? _ Hrest]; subst.
        unfold has_columns in *. rewrite Forall_forall in *.
        intros c Hc. unfold dict_mem.
        rewrite dict_get_without_columns by exact Hkr.
        cbn [column_in existsb]. rewrite orb_false_r.
        rewrite keqb_neq by (intros ->; contradiction).
        now apply Hrest.
Qed.

Lemma strip_empty_columns_exact (rows_by_key : dict Value Row) :
  Forall (fun kr => NoDup (keys (snd kr)) /\ has_columns HEADERS (snd kr))
         rows_by_key ->
  strip_empty_columns rows_by_key
  = Ok (filter (fun h => negb (column_in h (dont_include (values rows_by_key))))
               HEADERS,
        map (fun kr => (fst kr,
                        without_columns (dont_include (values rows_by_key))
                                        (snd kr)))
            rows_by_key).
Proof.
  intros Hall. unfold strip_empty_columns.
  rewrite empty_columns_eq.
  2:{ unfold values. rewrite Forall_map. eapply Forall_impl; [|exact Hall].
      now intros kr [_ Hkr]. }
  cbn [bind]. fold (dont_include (values rows_by_key)).
  rewrite foldM_pop_column_eq; [reflexivity| |].
  - unfold dont_include. apply NoDup_filter, NoDup_filter, NoDup_HEADERS.
  - eapply Forall_impl; [|exact Hall]. intros kr [Hnd Hkr].
    split; [exact Hnd|].
    unfold has_columns in *. rewrite Forall_forall in *.
    intros h Hh. apply Hkr. apply In_dont_include in Hh. tauto.
Qed.

(** What the table shows of a cell: an integer cell that is [0] in a
    row is no cell of the row that is displayed, and any other cell of a
    column that is kept stays as it is. *)
Lemma shown_cell (rows_by_key : dict Value Row) (kr : Value * Row) c :
  Forall (fun kr => NoDup (keys (snd kr)) /\ has_columns HEADERS (snd kr))
         rows_by_key ->
  In kr rows_by_key ->
  In c HEADERS ->
  dict_get c (without_zeros
                (without_columns (dont_include (values rows_by_key)) (snd kr)))
  = match dict_get c (snd kr) with
    | Some v => if is_zero v then None else Some v
    | None => None
    end.
Proof.
  intros Hall Hin Hc. rewrite Forall_forall in Hall.
  destruct (Hall kr Hin) as [Hnd Hcols].
  unfold without_zeros. rewrite dict_get_filter
    by (now apply NoDup_keys_filter).
  rewrite dict_get_without_columns by exact Hnd. cbn [snd].
  destruct (column_in c (dont_include (values rows_by_key))) eqn:Hpop.
  - apply column_in_In, In_dont_include in Hpop.
    destruct Hpop as (_ & _ & Hzero).
    specialize (Hzero (snd kr) (in_map (@snd Value Row) _ _ Hin)).
    unfold cell_is_zero in Hzero.
    destruct (dict_get c (snd kr)) as [v|]; [|reflexivity].
    now rewrite Hzero.
  - destruct (dict_get c (snd kr)) as [v|]; [|reflexivity].
    now destruct (is_zero v).
Qed.

Lemma Forall2_In_r {A B : Type} (P : A -> B -> Prop) l l' y :
  Forall2 P l l' -> In y l' -> exists x, In x l /\ P x y.
Proof.
  induction 1 as [|x y' l l' Hxy _ IH]; intros Hin; [destruct Hin|].
  destruct Hin as [->|Hin].
  - exists x. split; [now left|exact Hxy].
  - destruct (IH Hin) as (x' & Hx' & HP). exists x'. split; [now right|exact HP].
Qed.

Lemma Forall2_map_r_in {A B C : Type} (P : A -> B -> Prop)
    (Q : A -> C -> Prop) (f : B -> C) l l' :
  Forall2 P l l' ->
  (forall x y, In x l -> In y l' -> P x y -> Q x (f y)) ->
  Forall2 Q l (map f l').
Proof.
  induction 1 as [|x y l l' Hxy _ IH]; intros HQ; [constructor|].
  cbn [map]. constructor.
  - apply HQ; [now left|now left|exact Hxy].
  - apply IH. intros x' y' Hx' Hy'. apply HQ; now right.
Qed.

Lemma Forall2_keys {A B V W : Type} (P : A * V -> B * W -> Prop)
    (l : list (A * V)) (l' : list (B * W)) (f : A -> B) :
  Forall2 (fun x y => fst y = f (fst x) /\ P x y) l l' ->
  map fst l' = map f (map fst l).
Proof.
  induction 1 as [|x y l l' [Hk _] _ IH]; [reflexivity|].
  cbn [map]. now rewrite Hk, IH.
Qed.

Lemma NoDup_keys_row_of_clusters a cell cs :
  NoDup (keys (dict_set (GROUPBY_ATTRIBUTE_TO_AD_KEY a) cell
                        (row_of_clusters cs))).
Proof.
  apply NoDup_keys_set. unfold row_of_clusters, counts_row, keys.
  cbn [JobStatus_members map app fst].
  repeat constructor; cbn [In]; intuition discriminate.
Qed.

Lemma states_of_nonempty cs :
  cs <> [] -> Forall (fun c => job_to_state c <> []) cs -> states_of cs <> [].
Proof.
  destruct cs as [|c cs]; [congruence|]. intros _ Hall.
  inversion Hall as [|? ? Hc _]; subst. cbn [states_of flat_map].
  destruct (job_to_state c) as [|j jobs]; [congruence|]. discriminate.
Qed.

Lemma In_HEADERS_Status s : In (Status s) HEADERS.
Proof. destruct s; cbn; tauto. Qed.

Lemma In_HEADERS_TOTAL : In TOTAL HEADERS.
Proof. cbn. tauto. Qed.

Lemma displayed_rows nice_path a dagman names ticks :
  exists groups rows totals headers shown,
    aggregate nice_path false a dagman (tracker_after names ticks)
    = Ok (groups, rows, totals)
    /\ tick_table nice_path false a dagman (tracker_after names ticks)
       = Ok (GROUPBY_ATTRIBUTE_TO_AD_KEY a :: headers, shown)
    /\ Permutation (keys groups) (keys shown)
    /\ Forall (fun r =>
                 states_of (group_of groups (fst r)) <> []
                 /\ dict_get TOTAL (snd r)
                    = Some (VInt (Z.of_nat
                                    (List.length
                                       (states_of (group_of groups (fst r))))))
                 /\ forall s,
                      dict_get (Status s) (snd r)
                      = shown_count
                          (count_of s (states_of (group_of groups (fst r)))))
              shown.
Proof.
  set (t := tracker_after names ticks).
  set (key := GROUPBY_ATTRIBUTE_TO_AD_KEY a).
  set (groups := grouped a (clusters t) []).
  destruct (grouped_spec a (clusters t) [] ltac:(constructor))
    as (Hnd & Hgroup & _). fold groups in Hnd, Hgroup.
  destruct (foldM_add_group_rows_of nice_path key groups [] [] Hnd
              (grouped_cells_defined nice_path a (clusters t)))
    as (rows & totals & Hfold & Hrows).
  cbn [app] in Hfold.
  assert (Hagg : aggregate nice_path false a dagman t = Ok (groups, rows, totals)).
  { unfold aggregate. rewrite group_clusters_by_key_eq. cbn [bind].
    fold groups key. unfold make_rows_from_groups.
    etransitivity; [apply f_equal2; [exact Hfold|reflexivity]|reflexivity]. }
  assert (Hwf : Forall (fun kr : Value * Row =>
                          NoDup (keys (snd kr))
                          /\ has_columns HEADERS (snd kr)) rows).
  { apply Forall_forall. intros kr Hkr.
    destruct (Forall2_In_r _ _ _ _ Hrows Hkr) as (g & _ & _ & cell & _ & Hrow).
    split.
    - replace (snd kr) with (dict_set key cell (row_of_clusters (snd g))).
      apply NoDup_keys_row_of_clusters.
    - replace (snd kr) with (dict_set key cell (row_of_clusters (snd g))).
      apply has_columns_set_key, row_of_clusters_columns. }
  pose proof (strip_empty_columns_exact rows Hwf) as Hstrip.
  set (dont := dont_include (values rows)) in Hstrip.
  set (headers := filter (fun h => negb (column_in h dont)) HEADERS) in Hstrip.
  set (stripped := map (fun kr : Value * Row =>
                          (fst kr, without_columns dont (snd kr))) rows)
    in Hstrip.
  assert (Hgroup_of : forall g, In g groups -> group_of groups (fst g) = snd g).
  { intros [v cs] Hg. unfold group_of.
    now rewrite (In_dict_get v cs groups Hnd Hg). }
  assert (Hclusters : Forall (fun c => job_to_state c <> []) (clusters t)).
  { unfold t. rewrite tracker_after_run.
    pose proof (clusters_nonempty_run (events_of_ticks ticks)
                  (new_tracker names) ltac:(constructor)) as Hne.
    unfold clusters, values. now apply Forall_map. }
  assert (Hstates : forall g, In g groups -> states_of (snd g) <> []).
  { intros g Hg. apply states_of_nonempty.
    - pose proof (grouped_nonempty a (clusters t) [] ltac:(constructor)) as Hne.
      rewrite Forall_forall in Hne. now apply Hne.
    - rewrite <- (Hgroup_of g Hg), Hgroup. cbn [group_of dict_get app].
      apply Forall_forall. intros c Hc. apply filter_In in Hc.
      rewrite Forall_forall in Hclusters. now apply Hclusters. }
  assert (Hfinal :
    Forall2 (fun g r =>
               fst r = fst g
               /\ dict_get TOTAL (snd r)
                  = Some (VInt (Z.of_nat (List.length (states_of (snd g)))))
               /\ forall s, dict_get (Status s) (snd r)
                            = shown_count (count_of s (states_of (snd g))))
            groups (strip_zero_cells stripped)).
  { unfold strip_zero_cells, stripped. rewrite map_map. cbn [fst snd].
    apply (Forall2_map_r_in _ _ _ _ _ Hrows).
    intros g kr Hg Hkr (Hk & cell & _ & Hrow). cbn [fst snd].
    split; [exact Hk|].
    fold (without_zeros (without_columns dont (snd kr))).
    destruct (dict_get_row_of_clusters (snd g)) as (Htot & Hst & _).
    split.
    - etransitivity;
        [exact (shown_cell rows kr TOTAL Hwf Hkr In_HEADERS_TOTAL)|].
      unfold Row in *.
      rewrite Hrow, dict_get_set_other by (unfold key; now destruct a).
      rewrite Htot, number_of_jobs_states. cbn [is_zero].
      pose proof (Hstates g Hg) as Hne.
      destruct (states_of (snd g)); [congruence|]. reflexivity.
    - intros s. etransitivity;
        [exact (shown_cell rows kr (Status s) Hwf Hkr (In_HEADERS_Status s))|].
      unfold Row in *.
      rewrite Hrow, dict_get_set_other by (unfold key; now destruct a).
      rewrite Hst, count_status_states. reflexivity. }
  destruct (sort_rows_spec groups (strip_zero_cells stripped))
    as (shown & Hsort & Hperm & _).
  { apply Forall_forall. intros r Hr.
    destruct (Forall2_In_r _ _ _ _ Hfinal Hr) as (g & Hg & Hk & _).
    cbn beta. unfold Row in *. rewrite Hk, (Hgroup_of g Hg).
    pose proof (grouped_nonempty a (clusters t) [] ltac:(constructor)) as Hne.
    rewrite Forall_forall in Hne. now apply Hne. }
  exists groups, rows, totals, headers, shown.
  split; [exact Hagg|]. split.
  { unfold tick_table. rewrite Hagg. cbn [bind fst snd]. rewrite Hstrip.
    cbn [bind fst snd]. rewrite Hsort. reflexivity. }
  split.
  { apply Permutation_trans with (keys (strip_zero_cells stripped)).
    - unfold keys at 2.
      rewrite (Forall2_keys _ groups (strip_zero_cells stripped) (fun v => v)
                 Hfinal).
      rewrite map_id. reflexivity.
    - unfold keys. now apply Permutation_map. }
  apply Forall_forall. intros r Hr.
  apply (Permutation_in _ (Permutation_sym Hperm)) in Hr.
  destruct (Forall2_In_r _ _ _ _ Hfinal Hr) as (g & Hg & Hk & Htot & Hst).
  cbn beta. unfold Row in *. rewrite Hk, (Hgroup_of g Hg). split; [now apply Hstates|].
  split; [exact Htot|exact Hst].
Qed.

(** X10.  The rows that a tick displays (grouped with
    [group_clusters_by_key], pruned, without their zero cells, sorted):
    there is one row for each group; the group of a row holds at least
    one job, so the row has a [TOTAL] cell, which is the number of jobs
    of the group and is at least 1; and the cell of a status is the
    number of jobs of the group with that status when there is one, and
    is missing when there is none. *)
Theorem displayed_rows_show_counts nice_path a dagman names ticks :
  exists groups rows totals headers shown,
    aggregate nice_path false a dagman (tracker_after names ticks)
    = Ok (groups, rows, totals)
    /\ tick_table nice_path false a dagman (tracker_after names ticks)
       = Ok (GROUPBY_ATTRIBUTE_TO_AD_KEY a :: headers, shown)
    /\ Permutation (keys groups) (keys shown)
    /\ Forall (fun r =>
                 exists n,
                   n = Z.of_nat (List.length
                                   (states_of (group_of groups (fst r))))
                   /\ 1 <= n
                   /\ dict_get TOTAL (snd r) = Some (VInt n)
                   /\ forall s,
                        dict_get (Status s) (snd r)
                        = shown_count
                            (count_of s (states_of (group_of groups (fst r)))))
              shown.
Proof.
  destruct (displayed_rows nice_path a dagman names ticks)
    as (groups & rows & totals & headers & shown & Hagg & Htable & Hperm & Hall).
  exists groups, rows, totals, headers, shown.
  repeat (split; [assumption|]).
  eapply Forall_impl; [|exact Hall]. intros r (Hne & Htot & Hst).
  eexists. split; [reflexivity|]. split; [|split; assumption].
  destruct (states_of (group_of groups (fst r))); [congruence|].
  cbn [List.length]. lia.
Qed.

(** ** The colour of a row *)





(* ================================================================== *)
(** * Properties of the exit conditions and of the command line *)
(* ================================================================== *)

Lemma run_events_unmapped evs t : mapped_events evs = [] -> run_events evs t = t.
Proof.
  unfold mapped_events. revert t.
  induction evs as [|[path e] evs IH]; intros t Hnone; [reflexivity|].
  cbn [map filter snd] in Hnone. cbn [run_events fold_left fst snd].
  change (fold_left _ evs ?t0) with (run_events evs t0).
  unfold mapped in Hnone at 1.
  destruct (JOB_EVENT_STATUS_TRANSITIONS (ev_type e)) as [s|] eqn:Hs;
    [discriminate|].
  rewrite (apply_event_unmapped path t e Hs). now apply IH.
Qed.

(** X12.  While the tracker holds no job, a condition of the grouper
    [all] or [none] holds and a condition of the grouper [any] does not:
    when the first exit condition has the grouper [all] or [none] and
    the first tick reads no event with a mapped status, the program
    exits at once with the status of that condition. *)
Theorem all_and_none_hold_without_jobs
    debug logs names grouper checker status rest checks readers ticks :
  logs <> [] ->
  make_exit_checks ((grouper, checker, status) :: rest) = Ok checks ->
  mapped_events (events_of readers) = [] ->
  (lower grouper = "all" \/ lower grouper = "none" ->
   exit_code (cli debug logs names ((grouper, checker, status) :: rest)
                  (Events readers :: ticks)) = Some status)
  /\ (lower grouper = "any" ->
      exists c, hd_error checks = Some c
                /\ satisfied (snd (process_events (new_tracker names) readers)) c
                   = false).
Proof.
  intros Hlogs Hchecks Hnone.
  assert (Ht : snd (process_events (new_tracker names) readers)
               = new_tracker names).
  { rewrite process_events_run. now apply run_events_unmapped. }
  pose proof Hchecks as Hmake. unfold make_exit_checks in Hmake.
  cbn [mapM fst snd] in Hmake.
  destruct (EXIT_GROUPERS (lower grouper)) as [g|] eqn:Hg; [|discriminate].
  destruct (EXIT_JOB_STATUS_CHECK (lower checker)) as [k|]; [|discriminate].
  cbn [bind] in Hmake.
  destruct (mapM _ rest) as [others|]; [|discriminate].
  cbn [bind] in Hmake. injection Hmake as <-.
  split.
  - intros Hgrouper. unfold cli.
    rewrite (watch_q_loop logs names _ _ _ Hlogs Hchecks).
    cbn [loop]. rewrite Ht. unfold first_satisfied. cbn [find].
    assert (Hsat : satisfied (new_tracker names)
                     {| exit_grouper := g; exit_check := k;
                        exit_status := status |} = true).
    { unfold satisfied. cbn.
      destruct Hgrouper as [Hl|Hl]; rewrite Hl in Hg; cbn in Hg;
        injection Hg as <-; reflexivity. }
    rewrite Hsat. reflexivity.
  - intros Hl. eexists. split; [reflexivity|]. rewrite Ht.
    rewrite Hl in Hg. cbn in Hg. injection Hg as <-. reflexivity.
Qed.

(** ** NegateAction *)

Lemma rstrip_keeps_first c a s :
  Ascii.eqb a c = false -> exists rest, rstrip c (String a s) = String a rest.
Proof.
  intros Hne. cbn [rstrip]. destruct (rstrip c s).
  - rewrite Hne. now exists EmptyString.
  - eexists. reflexivity.
Qed.

Lemma rstrip_first c a s :
  rstrip c (String a s) = EmptyString
  \/ exists rest, rstrip c (String a s) = String a rest.
Proof.
  cbn [rstrip]. destruct (rstrip c s).
  - destruct (Ascii.eqb a c); [now left|right; now exists EmptyString].
  - right. eexists. reflexivity.
Qed.

(** X13.  [NegateAction] stores [False] for every option string that
    begins with a dash, so for every option that it is the action of:
    written [-table] or [-no-table], the option is switched off. *)
Theorem NegateAction_stores_false option_string :
  String.prefix "-" option_string = true ->
  NegateAction option_string = false.
Proof.
  intros Hdash. unfold NegateAction.
  destruct option_string as [|a s]; [discriminate|].
  cbn [String.prefix] in Hdash.
  destruct (Ascii.ascii_dec "-" a) as [<-|]; [|discriminate].
  destruct (rstrip_first "-" "-" s) as [->|[rest ->]]; reflexivity.
Qed.

(** ** ExitConditions *)

Lemma is_grouper_lower name :
  is_grouper name = true -> EXIT_GROUPERS (lower name) = EXIT_GROUPERS name.
Proof.
  unfold is_grouper, EXIT_GROUPERS.
  destruct (String.eqb_spec name "all") as [->|_]; [reflexivity|].
  destruct (String.eqb_spec name "any") as [->|_]; [reflexivity|].
  destruct (String.eqb_spec name "none") as [->|_]; [reflexivity|].
  discriminate.
Qed.

Lemma is_job_status_check_lower name :
  is_job_status_check name = true ->
  EXIT_JOB_STATUS_CHECK (lower name) = EXIT_JOB_STATUS_CHECK name.
Proof.
  unfold is_job_status_check, EXIT_JOB_STATUS_CHECK.
  destruct (String.eqb_spec name "active") as [->|_]; [reflexivity|].
  destruct (String.eqb_spec name "done") as [->|_]; [reflexivity|].
  destruct (String.eqb_spec name "idle") as [->|_]; [reflexivity|].
  destruct (String.eqb_spec name "held") as [->|_]; [reflexivity|].
  discriminate.
Qed.

Lemma mapM_app {A B : Type} (f : A -> result B) l l' ys ys' :
  mapM f l = Ok ys -> mapM f l' = Ok ys' ->
  mapM f (l ++ l')%list = Ok (ys ++ ys')%list.
Proof.
  revert ys. induction l as [|x l IH]; intros ys Hl Hl'.
  - injection Hl as <-. exact Hl'.
  - cbn [mapM app] in *. destruct (f x) as [y|]; [|discriminate].
    cbn [bind] in *. destruct (mapM f l) as [zs|]; [|discriminate].
    cbn [bind] in *. injection Hl as <-. now rewrite (IH zs eq_refl Hl').
Qed.

Section ExitConditionsFacts.
Variable int_of_string : string -> option Z.

Lemma check_exit_condition_appended dest grouper status exit_status conds :
  check_exit_condition int_of_string dest grouper status exit_status
  = Appended conds ->
  is_grouper grouper = true /\ is_job_status_check status = true
  /\ exists n,
       conds = (match dest with Some l => l | None => [] end
                ++ [(grouper, status, n)])%list
       /\ match exit_status with
          | None => n = 0
          | Some text => int_of_string text = Some n
          end.
Proof.
  unfold check_exit_condition.
  destruct (is_grouper grouper); [|discriminate].
  destruct (is_job_status_check status); [|discriminate]. cbn [negb].
  destruct exit_status as [text|].
  - destruct (int_of_string text) as [n|]; [|discriminate].
    intros Heq. injection Heq as <-. repeat split. now exists n.
  - intros Heq. injection Heq as <-. repeat split. now exists 0.
Qed.

(** X14.  [ExitConditions] accepts a value exactly when it has two or
    three fields between commas, the first is a key of [EXIT_GROUPERS],
    the second a key of [EXIT_JOB_STATUS_CHECK], and the third, when
    there is one, reads as an integer; it then adds one condition at
    the end of the list, with the exit status [0] when there are two
    fields.  What it accepts, [watch_q] can use: when the earlier
    conditions give exit checks, so do the new ones, without a
    [KeyError]. *)
Theorem accepted_exit_conditions_give_exit_checks dest values conds :
  (ExitConditions int_of_string dest values = Appended conds
   <-> exists grouper status n,
         conds = (match dest with Some l => l | None => [] end
                  ++ [(grouper, status, n)])%list
         /\ is_grouper grouper = true
         /\ is_job_status_check status = true
         /\ (split_on "," values = [grouper; status] /\ n = 0
             \/ exists text, split_on "," values = [grouper; status; text]
                             /\ int_of_string text = Some n))
  /\ (forall checks,
        make_exit_checks (match dest with Some l => l | None => [] end)
        = Ok checks ->
        ExitConditions int_of_string dest values = Appended conds ->
        exists c, make_exit_checks conds = Ok (checks ++ [c])%list).
Proof.
  assert (Hiff :
    ExitConditions int_of_string dest values = Appended conds
    <-> exists grouper status n,
          conds = (match dest with Some l => l | None => [] end
                   ++ [(grouper, status, n)])%list
          /\ is_grouper grouper = true
          /\ is_job_status_check status = true
          /\ (split_on "," values = [grouper; status] /\ n = 0
              \/ exists text, split_on "," values = [grouper; status; text]
                              /\ int_of_string text = Some n)).
  { unfold ExitConditions. split.
    - intros Hparse.
      destruct (split_on "," values) as [|grouper [|status [|text [|]]]];
        try discriminate;
        destruct (check_exit_condition_appended _ _ _ _ _ Hparse)
          as (Hg & Hs & n & -> & Hn);
        exists grouper, status, n; repeat (split; [assumption || reflexivity|]).
      + left. now split.
      + right. exists text. now split.
    - intros (grouper & status & n & -> & Hg & Hs & Hfields).
      destruct Hfields as [[-> ->]|(text & -> & Hn)];
        unfold check_exit_condition; rewrite Hg, Hs; cbn [negb];
        [reflexivity|now rewrite Hn]. }
  split; [exact Hiff|].
  intros checks Hold Hparse. apply Hiff in Hparse.
  destruct Hparse as (grouper & status & n & -> & Hg & Hs & _).
  unfold make_exit_checks in *.
  pose proof (is_grouper_lower grouper Hg) as Hgl.
  pose proof (is_job_status_check_lower status Hs) as Hsl.
  unfold is_grouper in Hg. unfold is_job_status_check in Hs.
  destruct (EXIT_GROUPERS grouper) as [g|] eqn:Hge; [|discriminate].
  destruct (EXIT_JOB_STATUS_CHECK status) as [k|] eqn:Hke; [|discriminate].
  exists {| exit_grouper := g; exit_check := k; exit_status := n |}.
  apply mapM_app; [exact Hold|].
  cbn [mapM fst snd]. rewrite Hgl, Hsl. reflexivity.
Qed.
End ExitConditionsFacts.

(** ** The summary line with totals *)

Lemma summary_loop_spec totals width strip :
  exists k,
    (k <= strip)%nat /\ (Nat.min strip 2 <= k)%nat
    /\ summary_loop totals width strip = totals_line totals k
    /\ ((2 < k)%nat -> fits width (totals_line totals k) = true)
    /\ forall j, (k < j <= strip)%nat ->
                 fits width (totals_line totals j) = false.
Proof.
  induction strip as [|strip IH].
  - exists 0%nat. cbn [summary_loop]. repeat split; try lia.
  - cbn [summary_loop].
    destruct (fits width (totals_line totals (S strip))) eqn:Hfit;
      cbn [orb].
    + exists (S strip). repeat split; try lia. now intros _.
    + destruct (Nat.leb_spec (S strip) 2) as [Hle|Hgt].
      * exists (S strip). repeat split; lia.
      * destruct IH as (k & Hk & Hmin & Hloop & Hfits & Hnot).
        exists k. repeat split; try lia; try assumption.
        intros j Hj. destruct (Nat.eq_dec j (S strip)) as [->|Hne];
          [exact Hfit|]. apply Hnot. lia.
Qed.

(** X15.  [make_summary_with_totals] returns one line: the line for the
    greatest number of characters of the messages, from 10 down to 3,
    for which the line is no longer than the width, and the line with
    2 characters of each message when none of them is; so the line can
    still be longer than the width.  Without a width, and whenever
    the full line is no longer than the width, the messages are
    whole. *)
Theorem summary_with_totals_shortens_until_it_fits totals width :
  (exists k,
     (2 <= k <= 10)%nat
     /\ make_summary_with_totals totals width = [totals_line totals k]
     /\ ((2 < k)%nat -> fits width (totals_line totals k) = true)
     /\ forall j, (k < j <= 10)%nat ->
                  fits width (totals_line totals j) = false)
  /\ (fits width (totals_line totals 10) = true ->
      make_summary_with_totals totals width = [totals_line totals 10])
  /\ make_summary_with_totals totals None = [totals_line totals 10].
Proof.
  unfold make_summary_with_totals.
  destruct (summary_loop_spec totals width 10)
    as (k & Hk & Hmin & Hloop & Hfits & Hnot).
  split; [|split].
  - exists k. cbn in Hmin. repeat split; try lia; try assumption.
    now rewrite Hloop.
  - intros Hfit. cbn [summary_loop]. now rewrite Hfit.
  - reflexivity.
Qed.

(** ** Escape sequences *)

Lemma string_app_assoc (a b c : string) : (a ++ b) ++ c = a ++ (b ++ c).
Proof. induction a as [|x a IH]; [reflexivity|]. cbn. now rewrite IH. Qed.

Lemma string_app_nil (s : string) : s ++ "" = s.
Proof. induction s as [|c s IH]; [reflexivity|]. cbn. now rewrite IH. Qed.

Lemma string_length_app (a b : string) :
  String.length (a ++ b) = (String.length a + String.length b)%nat.
Proof. induction a as [|x a IH]; [reflexivity|]. cbn. now rewrite IH. Qed.

Lemma strip_ansi_from_plain text s :
  no_escape text = true ->
  strip_ansi_from 0 (text ++ s) = text ++ strip_ansi_from 0 s.
Proof.
  induction text as [|c text IH]; intros Hplain; [reflexivity|].
  cbn [no_escape] in Hplain. apply andb_true_iff in Hplain.
  destruct Hplain as [Hc Hrest]. apply negb_true_iff in Hc.
  cbn [append strip_ansi_from]. rewrite Hc. f_equal. now apply IH.
Qed.

Lemma strip_ansi_from_color color s :
  In color Color_members ->
  strip_ansi_from 0 (color ++ s) = strip_ansi_from 0 s.
Proof.
  unfold Color_members. cbn [In].
  intros Hin.
  repeat (destruct Hin as [<-|Hin]; [reflexivity|]). destruct Hin.
Qed.

Lemma strip_ansi_colorize text color s :
  In color Color_members -> no_escape text = true ->
  strip_ansi_from 0 (colorize text color ++ s) = text ++ strip_ansi_from 0 s.
Proof.
  intros Hcolor Hplain. unfold colorize.
  rewrite string_app_assoc, strip_ansi_from_color by exact Hcolor.
  rewrite string_app_assoc.
  rewrite strip_ansi_from_plain by exact Hplain.
  now rewrite (strip_ansi_from_color RESET s) by (cbn; tauto).
Qed.

(** X16.  [strip_ansi] undoes [colorize]: for a text without an escape
    character and any member of [Color], stripping the coloured text
    gives the text back, so the length that [make_table] measures is
    the length of what is seen; and a text without an escape character
    is left as it is. *)
Theorem strip_ansi_undoes_colorize text :
  no_escape text = true ->
  strip_ansi text = text
  /\ forall color, In color Color_members ->
       strip_ansi (colorize text color) = text
       /\ String.length (strip_ansi (colorize text color))
          = String.length text.
Proof.
  intros Hplain. unfold strip_ansi.
  pose proof string_app_nil as Hnil.
  split.
  - rewrite <- (Hnil text) at 1. rewrite strip_ansi_from_plain by exact Hplain.
    cbn. apply Hnil.
  - intros color Hcolor.
    assert (Heq : strip_ansi_from 0 (colorize text color) = text).
    { rewrite <- (Hnil (colorize text color)).
      rewrite strip_ansi_colorize by assumption. cbn. apply Hnil. }
    now rewrite Heq.
Qed.

Lemma no_escape_app a b :
  no_escape a = true -> no_escape b = true -> no_escape (a ++ b) = true.
Proof.
  intros Ha Hb. induction a as [|c a IH]; [exact Hb|].
  cbn [no_escape append] in *. apply andb_true_iff in Ha.
  destruct Ha as [Hc Ha]. rewrite Hc. now apply IH.
Qed.

Lemma concat_empty_cons x xs :
  String.concat EmptyString (x :: xs) = x ++ String.concat EmptyString xs.
Proof.
  destruct xs as [|y xs]; cbn [String.concat].
  - now rewrite string_app_nil.
  - reflexivity.
Qed.

Lemma no_escape_string_times ch n :
  no_escape ch = true -> no_escape (string_times ch n) = true.
Proof.
  intros Hch. unfold string_times.
  induction (Z.to_nat n) as [|k IH]; [reflexivity|].
  cbn [repeat]. rewrite concat_empty_cons. now apply no_escape_app.
Qed.

Lemma strip_ansi_sections l sections :
  mapM (bar_section true) l = Ok sections ->
  exists plain,
    mapM (bar_section false) l = Ok plain
    /\ forall s, strip_ansi_from 0 (String.concat EmptyString sections ++ s)
                 = String.concat EmptyString plain ++ strip_ansi_from 0 s.
Proof.
  revert sections. induction l as [|[status n] l IH]; intros sections Hmap.
  - injection Hmap as <-. exists []. split; [reflexivity|]. reflexivity.
  - cbn [mapM] in Hmap |- *. unfold bar_section at 1 in Hmap.
    unfold bar_section at 1. cbn [fst snd] in Hmap |- *.
    destruct (PROGRESS_BAR_CHARS_AND_COLORS status) as [[color ch]|] eqn:Hcc;
      [|discriminate].
    cbn [bind fst snd] in Hmap |- *.
    destruct (mapM (bar_section true) l) as [rest|]; [|discriminate].
    cbn [bind] in Hmap. injection Hmap as <-.
    destruct (IH rest eq_refl) as (plain & -> & Hstrip).
    cbn [bind]. eexists. split; [reflexivity|].
    intros s. rewrite !concat_empty_cons, !string_app_assoc.
    assert (Hcolor : In color Color_members /\ no_escape ch = true).
    { destruct status; cbn in Hcc; try discriminate;
        injection Hcc as <- <-; (split; [cbn; tauto|reflexivity]). }
    rewrite strip_ansi_colorize;
      [|tauto|apply no_escape_string_times; tauto].
    now rewrite Hstrip.
Qed.

(** X17.  Stripping the escape sequences from the coloured progress bar
    gives the bar that [make_progress_bar] draws without colours, for
    the same totals and width. *)
Theorem stripped_bar_is_the_plain_bar totals width bar :
  make_progress_bar totals width true = Ok [bar] ->
  make_progress_bar totals width false = Ok [strip_ansi bar].
Proof.
  unfold make_progress_bar.
  destruct (bar_section_lengths totals width) as [lengths|]; [|discriminate].
  cbn [bind].
  destruct (mapM (bar_section true) (combine PROGRESS_BAR_ORDER lengths))
    as [sections|] eqn:Hmap; [|discriminate].
  cbn [bind]. intros Hbar. injection Hbar as <-.
  destruct (strip_ansi_sections _ _ Hmap) as (plain & -> & Hstrip).
  cbn [bind]. do 2 f_equal. unfold strip_ansi.
  change ("[" ++ String.concat EmptyString sections ++ "]")
    with (String "[" (String.concat EmptyString sections ++ "]")).
  cbn [strip_ansi_from]. change (Ascii.eqb "[" (ascii_of_nat 27)) with false.
  cbn iota. rewrite Hstrip. reflexivity.
Qed.

(* ================================================================== *)
(** * Properties of find_job_event_logs *)
(* ================================================================== *)

Lemma In_set_add {A : Type} (eqb : A -> A -> bool) x y (s : list A) :
  (forall a b, eqb a b = true <-> a = b) ->
  In y (set_add eqb x s) <-> y = x \/ In y s.
Proof.
  intros Heqb. unfold set_add.
  destruct (existsb (eqb x) s) eqn:Hex.
  - apply existsb_exists in Hex. destruct Hex as (z & Hz & Heq).
    apply Heqb in Heq. subst z. split; [tauto|]. intros [->|H]; assumption.
  - rewrite in_app_iff. cbn [In]. intuition congruence.
Qed.

Lemma In_set_add_string x y s :
  In y (set_add String.eqb x s) <-> y = x \/ In y s.
Proof. apply In_set_add. intros a b. apply String.eqb_eq. Qed.

Lemma In_set_add_Z x y s : In y (set_add Z.eqb x s) <-> y = x \/ In y s.
Proof. apply In_set_add. intros a b. apply Z.eqb_eq. Qed.

Section FindLogsFacts.
Variable abspath : string -> string.
Variable isabs : string -> bool.
Variable join : string -> string -> string.

Lemma add_ad_wf st ad st' :
  found_wf st -> add_ad abspath isabs join st ad = Ok st' ->
  found_wf st'
  /\ (forall p, In p (found_event_logs st) -> In p (found_event_logs st')).
Proof.
  intros Hwf. unfold add_ad.
  destruct (ClusterId ad) as [cid|]; [|discriminate]. cbn [ad_getitem bind].
  assert (Hkeep : forall k p,
            dict_get k (found_dagman_clusters_to_path st) = Some p ->
            In k (keys (dict_set cid (JobBatchName ad) (found_batch_names st)))
            /\ In k (set_add Z.eqb cid (found_clusters st))).
  { intros k p Hget. destruct (Hwf k p Hget) as (_ & Hk & Hc). split.
    - apply In_keys_set. now right.
    - apply In_set_add_Z. now right. }
  destruct (UserLog ad) as [log_path|].
  - destruct (DAGManNodesLog ad) as [nodes_log|].
    + intros Heq. injection Heq as <-. split.
      * intros k p. cbn. intros Hget.
        destruct (Z.eq_dec cid k) as [->|Hne].
        -- rewrite dict_get_set_same in Hget. injection Hget as <-.
           split; [apply In_set_add_string; now left|]. split.
           ++ apply In_keys_set. now left.
           ++ apply In_set_add_Z. now left.
        -- rewrite dict_get_set_other in Hget by exact Hne.
           destruct (Hwf k p Hget) as (Hp & _). destruct (Hkeep k p Hget).
           split; [apply In_set_add_string; now right|]. now split.
      * intros p Hp. cbn. apply In_set_add_string. now right.
    + destruct (if isabs log_path then Ok log_path
                else iwd <- ad_getitem (Iwd ad) ;;
                     Ok (abspath (join iwd log_path))) as [path|];
        [|discriminate].
      cbn [bind]. intros Heq. injection Heq as <-. split.
      * intros k p. cbn. intros Hget.
        destruct (Hwf k p Hget) as (Hp & _). destruct (Hkeep k p Hget).
        split; [apply In_set_add_string; now right|]. now split.
      * intros p Hp. cbn. apply In_set_add_string. now right.
  - intros Heq. injection Heq as <-. split.
    + intros k p. cbn. intros Hget.
      destruct (Hwf k p Hget) as (Hp & _). destruct (Hkeep k p Hget).
      now repeat split.
    + intros p Hp. exact Hp.
Qed.

Lemma foldM_add_ad_wf ads st st' :
  found_wf st -> foldM (add_ad abspath isabs join) ads st = Ok st' ->
  found_wf st'
  /\ (forall p, In p (found_event_logs st) -> In p (found_event_logs st')).
Proof.
  revert st. induction ads as [|ad ads IH]; intros st Hwf Hfold.
  - injection Hfold as <-. split; [exact Hwf|tauto].
  - cbn [foldM] in Hfold.
    destruct (add_ad abspath isabs join st ad) as [st1|] eqn:Hadd;
      [|discriminate].
    cbn [bind] in Hfold.
    destruct (add_ad_wf st ad st1 Hwf Hadd) as [Hwf1 Hlogs1].
    destruct (IH st1 Hwf1 Hfold) as [Hwf' Hlogs']. split; [exact Hwf'|].
    intros p Hp. now apply Hlogs', Hlogs1.
Qed.

Lemma In_files_event_logs files s f :
  In (abspath f) s \/ In f files ->
  In (abspath f)
     (fold_left (fun s f => set_add String.eqb (abspath f) s) files s).
Proof.
  revert s. induction files as [|g files IH]; intros s Hin.
  - cbn. destruct Hin as [Hin|[]]. exact Hin.
  - cbn [fold_left]. apply IH. destruct Hin as [Hin|[->|Hin]].
    + left. apply In_set_add_string. now right.
    + left. apply In_set_add_string. now left.
    + now right.
Qed.

Lemma reverse_dict_get_keys (d : dict Z string) acc p k :
  dict_get p (fold_left (fun acc kv => dict_set (snd kv) (fst kv) acc) d acc)
  = Some k ->
  dict_get p acc = Some k \/ In k (keys d).
Proof.
  revert acc. induction d as [|[k' v] d IH]; intros acc Hget.
  - now left.
  - cbn [fold_left fst snd] in Hget. apply IH in Hget.
    destruct Hget as [Hget|Hin]; [|right; now right].
    destruct (String.eqb_spec v p) as [->|Hne].
    + rewrite dict_get_set_same in Hget. injection Hget as <-.
      right. now left.
    + rewrite dict_get_set_other in Hget by exact Hne. now left.
Qed.

Lemma group_jobs_by_dag_returns cs dagman names :
  (forall k, In k (keys dagman) -> In k (keys names)) ->
  exists groups, group_jobs_by_dag cs dagman names = Ok groups.
Proof.
  intros Hkeys. unfold group_jobs_by_dag.
  generalize (@nil (Value * list Cluster)).
  induction cs as [|c cs IH]; intros groups0.
  - eexists. reflexivity.
  - cbn [foldM].
    destruct (dict_get (event_log_path c) (reverse_dict dagman)) as [k|] eqn:Hget.
    + apply reverse_dict_get_keys in Hget.
      destruct Hget as [Hget|Hin]; [discriminate|].
      apply Hkeys, dict_get_Some_keys in Hin. destruct Hin as [h Hh].
      unfold getitem. rewrite Hh. cbn [bind]. apply IH.
    + cbn [bind]. apply IH.
Qed.

(** X18.  What [find_job_event_logs] returns fits together: every
    event log named on the command line is among the event logs; every
    cluster with a nodes log of a DAG has that log among the event
    logs and an entry in the batch names; and so [group_jobs_by_dag]
    with these batch names and nodes logs raises no [KeyError],
    whatever the clusters are. *)
Theorem found_logs_cover_the_dag_clusters files ads found :
  find_job_event_logs abspath isabs join files ads = Ok found ->
  (forall f, In f files -> In (abspath f) (found_event_logs found))
  /\ (forall k p,
        dict_get k (found_dagman_clusters_to_path found) = Some p ->
        In p (found_event_logs found)
        /\ dict_mem k (found_batch_names found) = true
        /\ In k (found_clusters found))
  /\ forall cs,
       exists groups,
         group_jobs_by_dag cs (found_dagman_clusters_to_path found)
                           (found_batch_names found) = Ok groups.
Proof.
  unfold find_job_event_logs. intros Hfind.
  apply foldM_add_ad_wf in Hfind; [|intros k p; discriminate].
  destruct Hfind as [Hwf Hlogs]. cbn [found_event_logs] in Hlogs.
  split; [|split].
  - intros f Hf. apply Hlogs, In_files_event_logs. now right.
  - intros k p Hget. destruct (Hwf k p Hget) as (Hp & Hk & Hc).
    split; [exact Hp|]. split; [|exact Hc].
    apply dict_get_Some_keys in Hk. destruct Hk as [h Hh].
    unfold dict_mem. now rewrite Hh.
  - intros cs. apply group_jobs_by_dag_returns. intros k Hk.
    apply dict_get_Some_keys in Hk. destruct Hk as [p Hp].
    now destruct (Hwf k p Hp) as (_ & Hin & _).
Qed.
End FindLogsFacts.

(* ================================================================== *)
(** * Properties of the table *)
(* ================================================================== *)

Lemma length_spaces n : String.length (spaces n) = n.
Proof. induction n as [|n IH]; [reflexivity|]. cbn. now rewrite IH. Qed.

Lemma length_align a s width :
  String.length (align a s width) = Nat.max (String.length s) width.
Proof.
  unfold align. destruct a;
    rewrite ?string_length_app, ?length_spaces; try lia.
  set (marg := (width - String.length s)%nat).
  assert (Hleft : (marg / 2 + (if Nat.odd marg && Nat.odd width then 1 else 0)
                   <= marg)%nat).
  { destruct (Nat.odd marg) eqn:Hodd; cbn [andb].
    - assert (marg <> 0)%nat by (intros ->; discriminate).
      pose proof (Nat.div_lt marg 2). destruct (Nat.odd width); lia.
    - pose proof (Nat.Div0.mul_div_le marg 2). lia. }
  unfold marg in *. lia.
Qed.

Lemma length_substring_0 n s :
  String.length (substring 0 n s) = Nat.min n (String.length s).
Proof.
  revert n. induction s as [|c s IH]; intros [|n]; cbn; try reflexivity.
  now rewrite IH.
Qed.

Lemma length_rstrip_spaces s :
  (String.length (rstrip_spaces s) <= String.length s)%nat.
Proof.
  induction s as [|c s IH]; [cbn; lia|].
  cbn [rstrip_spaces]. destruct (rstrip_spaces s) as [|c' r].
  - destruct (is_space c); cbn; lia.
  - cbn [String.length] in *. lia.
Qed.

Lemma widen_spec lengths row :
  List.length row = List.length lengths ->
  fits_columns (widen lengths row) row
  /\ Forall2 le lengths (widen lengths row).
Proof.
  unfold fits_columns, widen. revert row.
  induction lengths as [|l lengths IH]; intros [|f row] Hlen;
    try discriminate; cbn [combine map fst snd].
  - split; constructor.
  - destruct (IH row) as [Hfit Hle]; [now injection Hlen|].
    split; constructor; try assumption; lia.
Qed.

Lemma fits_columns_le lengths lengths' row :
  fits_columns lengths row -> Forall2 le lengths lengths' ->
  fits_columns lengths' row.
Proof.
  unfold fits_columns. intros Hfit. revert lengths'.
  induction Hfit as [|l f lengths row Hf _ IH]; intros lengths' Hle;
    inversion Hle; subst; constructor; [lia|now apply IH].
Qed.

Lemma Forall2_le_trans a b c :
  Forall2 le a b -> Forall2 le b c -> Forall2 le a c.
Proof.
  intros Hab. revert c. induction Hab as [|x y a b Hxy _ IH]; intros c Hbc;
    inversion Hbc; subst; constructor; [lia|now apply IH].
Qed.

Lemma Forall2_le_refl a : Forall2 le a a.
Proof. induction a; constructor; [lia|assumption]. Qed.

Lemma Forall2_length_eq {A B : Type} (P : A -> B -> Prop) l l' :
  Forall2 P l l' -> List.length l = List.length l'.
Proof. induction 1; cbn; congruence. Qed.

Lemma fold_widen_spec processed lengths :
  Forall (fun row => List.length row = List.length lengths) processed ->
  Forall2 le lengths (fold_left widen processed lengths)
  /\ Forall (fits_columns (fold_left widen processed lengths)) processed.
Proof.
  revert lengths. induction processed as [|row processed IH];
    intros lengths Hall.
  - split; [apply Forall2_le_refl|constructor].
  - inversion Hall as [|? ? Hrow Hrest]; subst. cbn [fold_left].
    destruct (widen_spec lengths row Hrow) as [Hfit Hle].
    destruct (IH (widen lengths row)) as [Hle' Hall'].
    { eapply Forall_impl; [|exact Hrest]. intros r Hr.
      rewrite Hr. apply (Forall2_length_eq _ _ _ Hle). }
    split; [now apply (Forall2_le_trans _ _ _ Hle)|].
    constructor; [|exact Hall'].
    now apply (fits_columns_le _ _ _ Hfit).
Qed.

Lemma length_concat_cons sep x xs :
  String.length (String.concat sep (x :: xs))
  = match xs with
    | [] => String.length x
    | _ => (String.length x + String.length sep
            + String.length (String.concat sep xs))%nat
    end.
Proof.
  destruct xs as [|y xs]; [reflexivity|].
  cbn [String.concat]. rewrite !string_length_app. lia.
Qed.

Lemma length_aligned_line fields lengths methods :
  fits_columns lengths fields ->
  List.length methods = List.length lengths ->
  String.length (String.concat "  " (aligned fields lengths methods))
  = table_width lengths.
Proof.
  unfold fits_columns, table_width. intros Hfit. revert methods.
  induction Hfit as [|l f lengths fields Hf Hrest IH]; intros methods Hlen.
  - now destruct methods.
  - destruct methods as [|a methods]; [discriminate|].
    cbn [aligned]. rewrite length_concat_cons, length_align.
    specialize (IH methods ltac:(now injection Hlen)).
    destruct Hrest as [|l' f' lengths fields Hf' Hrest].
    + destruct methods; cbn; lia.
    + destruct methods as [|a' methods]; [discriminate|].
      cbn [aligned] in IH |- *. rewrite IH.
      cbn [fold_right List.length String.length]. lia.
Qed.

Section TableFacts.
Variable row_bar : Row -> Z -> result string.

Lemma mapM_Ok_map {A B : Type} (f : A -> B) l :
  mapM (fun x => Ok (f x)) l = Ok (map f l).
Proof.
  induction l as [|x l IH]; [reflexivity|]. cbn [mapM bind map].
  now rewrite IH.
Qed.

(** X19.  A table without colours and without the bars of the rows is
    a rectangle: [make_table] returns the header and one line for each
    row; before it is cut to the width of the terminal every line is as
    wide as the table, that is the lengths of the columns and two blanks
    between neighbours, so every line has the same length, the smaller
    of that width and the width of the terminal; and the header is no
    wider than the table. *)
Theorem plain_table_is_rectangular terminal_columns headers rows fill :
  (0 <= terminal_columns)%Z ->
  exists header lines,
    make_table row_bar false terminal_columns headers rows fill None
    = Ok (header :: lines)
    /\ List.length lines = List.length rows
    /\ Forall (fun line =>
                 String.length line
                 = Nat.min (Z.to_nat terminal_columns)
                     (table_width
                        (column_lengths headers
                           (map (processed_row headers fill) rows))))
              lines
    /\ (String.length header
        <= table_width (column_lengths headers
                          (map (processed_row headers fill) rows)))%nat.
Proof.
  intros Hwidth. unfold make_table.
  set (processed := map (processed_row headers fill) rows).
  set (lengths := column_lengths headers processed).
  set (methods := map TABLE_ALIGNMENT headers).
  destruct (fold_widen_spec processed
              (map (fun h => String.length (str_of_Column h)) headers))
    as [Hle Hfits].
  { unfold processed. apply Forall_map, Forall_forall. intros row _.
    unfold processed_row. now rewrite !length_map. }
  fold (column_lengths headers processed) in Hle, Hfits. fold lengths in Hle, Hfits.
  assert (Hmethods : List.length methods = List.length lengths).
  { unfold methods. rewrite length_map, <- (Forall2_length_eq _ _ _ Hle).
    now rewrite length_map. }
  rewrite (mapM_Ok_map
             (fun op : Row * list string =>
                String.concat "  " (aligned (snd op) lengths methods))).
  cbn [bind andb]. eexists. eexists. split; [reflexivity|].
  split; [|split].
  - rewrite !length_map, length_combine. unfold processed.
    rewrite length_map. lia.
  - apply Forall_map, Forall_map, Forall_forall. intros [row fields] Hin.
    cbn [snd]. unfold slice_to.
    destruct (Z.leb_spec 0 terminal_columns) as [_|Hneg]; [|lia].
    rewrite length_substring_0. f_equal.
    apply length_aligned_line; [|exact Hmethods].
    apply in_combine_r in Hin. rewrite Forall_forall in Hfits.
    now apply Hfits.
  - etransitivity; [apply length_rstrip_spaces|].
    rewrite length_aligned_line; [lia| |exact Hmethods].
    eapply fits_columns_le; [|exact Hle].
    unfold fits_columns. clear. induction headers as [|h hs IH];
      cbn [map]; constructor; [lia|exact IH].
Qed.
End TableFacts.

(* ================================================================== *)
(** * Properties of the check of the unknown arguments *)
(* ================================================================== *)

Section UnknownArgsFacts.
Variable isdigit : string -> bool.

Lemma _check_unknown_arg_None arg rest :
  _check_unknown_arg isdigit arg rest = None <-> passes isdigit arg = true.
Proof.
  unfold _check_unknown_arg, passes.
  destruct (isdigit arg), (contains "-totals" arg), (contains "-userlog" arg),
    (contains "-nobatch" arg), (String.prefix "-" arg); cbn;
    split; congruence.
Qed.

Lemma collect_args_spec keep rest :
  Forall (fun a => keep a = true /\ String.prefix "-" a = false)
         (collect_args keep rest)
  /\ exists skipped, Forall (fun a => In a rest) (collect_args keep rest)
                     /\ (List.length (collect_args keep rest) + skipped
                         <= List.length rest)%nat.
Proof.
  induction rest as [|a rest (IH & skipped & Hin & Hlen)].
  - split; [constructor|]. exists 0%nat. split; [constructor|cbn; lia].
  - cbn [collect_args]. destruct (String.prefix "-" a) eqn:Hdash.
    + split; [constructor|]. exists 0%nat. split; [constructor|cbn; lia].
    + destruct (keep a) eqn:Hkeep.
      * split; [constructor; [now split|exact IH]|].
        exists skipped. split.
        -- constructor; [now left|].
           eapply Forall_impl; [|exact Hin]. intros x Hx. now right.
        -- cbn [List.length]. lia.
      * split; [exact IH|]. exists (S skipped). split.
        -- eapply Forall_impl; [|exact Hin]. intros x Hx. now right.
        -- cbn [List.length]. lia.
Qed.

(** X20.  [check_unknown_args_for_known_errors] ends the program at the
    first unknown argument that is a number, holds [-totals],
    [-userlog] or [-nobatch], or does not begin with a dash, with the
    message of [_check_unknown_arg] for it and the arguments after it;
    it returns only when every argument begins with a dash and is none
    of these.  The cluster ids that the message for a number proposes
    are that number and numbers that follow it. *)
Theorem unknown_args_first_known_error unknown_args :
  (check_unknown_args_for_known_errors isdigit unknown_args = None
   <-> Forall (fun a => passes isdigit a = true) unknown_args)
  /\ (forall arg message,
        check_unknown_args_for_known_errors isdigit unknown_args
        = Some (arg, message) <->
        exists before after,
          unknown_args = (before ++ arg :: after)%list
          /\ Forall (fun a => passes isdigit a = true) before
          /\ passes isdigit arg = false
          /\ _check_unknown_arg isdigit arg after = Some message)
  /\ (forall arg after,
        isdigit arg = true ->
        _check_unknown_arg isdigit arg after
        = Some ("to track specific cluster IDs, try -clusters "
                ++ String.concat " " (arg :: collect_args isdigit after))
        /\ Forall (fun a => isdigit a = true /\ In a after)
                  (collect_args isdigit after)).
Proof.
  split; [|split].
  - induction unknown_args as [|a rest IH]; cbn.
    + split; [constructor|reflexivity].
    + destruct (_check_unknown_arg isdigit a rest) as [m|] eqn:Hcheck.
      * split; [discriminate|]. intros Hall. inversion Hall as [|? ? Ha _].
        apply (_check_unknown_arg_None a rest) in Ha. congruence.
      * apply _check_unknown_arg_None in Hcheck. rewrite IH. split.
        -- intros Hall. now constructor.
        -- intros Hall. now inversion Hall.
  - intros arg message. induction unknown_args as [|a rest IH]; cbn.
    + split; [discriminate|]. intros (before & after & Heq & _).
      now destruct before.
    + destruct (_check_unknown_arg isdigit a rest) as [m|] eqn:Hcheck.
      * assert (Hfail : passes isdigit a = false).
        { destruct (passes isdigit a) eqn:Hp; [|reflexivity].
          apply (_check_unknown_arg_None a rest) in Hp. congruence. }
        split.
        -- intros Heq. injection Heq as <- <-. exists [], rest.
           repeat split; [constructor|exact Hfail|exact Hcheck].
        -- intros (before & after & Heq & Hbefore & Hp & Hm).
           destruct before as [|b before].
           ++ injection Heq as <- <-. congruence.
           ++ injection Heq as <- _. inversion Hbefore. congruence.
      * apply _check_unknown_arg_None in Hcheck. rewrite IH. split.
        -- intros (before & after & -> & Hbefore & Hp & Hm).
           exists (a :: before), after. repeat split; try assumption.
           now constructor.
        -- intros (before & after & Heq & Hbefore & Hp & Hm).
           destruct before as [|b before].
           ++ injection Heq as <- _. congruence.
           ++ injection Heq as <- ->. inversion Hbefore; subst.
              exists before, after. now repeat split.
  - intros arg after Hdigit. split.
    + unfold _check_unknown_arg. now rewrite Hdigit.
    + destruct (collect_args_spec isdigit after) as (Hkeep & _ & Hin & _).
      apply Forall_forall. intros a Ha. rewrite Forall_forall in Hkeep, Hin.
      split; [apply (Hkeep a Ha)|apply (Hin a Ha)].
Qed.
End UnknownArgsFacts.

(** ** Instances of the further theorems *)

(** X2 at the run of three jobs: the start of job 1.0 is the last event
    on it, the hold that follows is on job 1.1. *)
Lemma last_mapped_event_decides_status_witness :
  job_status (tracker_after [] [three_jobs_readers]) 1 0 = Some RUNNING.
Proof.
  apply (last_mapped_event_decides_status [] [three_jobs_readers]
           [("/home/user/job.log",
             {| ev_type := SUBMIT; ev_cluster := 1; ev_proc := 0 |});
            ("/home/user/job.log",
             {| ev_type := SUBMIT; ev_cluster := 1; ev_proc := 1 |});
            ("/home/user/job.log",
             {| ev_type := SUBMIT; ev_cluster := 1; ev_proc := 2 |})]
           "/home/user/job.log"
           {| ev_type := EXECUTE; ev_cluster := 1; ev_proc := 0 |}
           [("/home/user/job.log",
             {| ev_type := JOB_HELD; ev_cluster := 1; ev_proc := 1 |})]).
  - reflexivity.
  - reflexivity.
  - repeat constructor. intros [_ Hjob]. discriminate Hjob.
Defined.

(** X4 at the run of three jobs: the jobs of cluster 1 are listed as 0,
    1, 2. *)
Lemma clusters_listed_in_order_first_seen_witness :
  exists cl,
    dict_get 1 (cluster_id_to_cluster (tracker_after [] [three_jobs_readers]))
    = Some cl
    /\ keys (job_to_state cl) = [0; 1; 2].
Proof.
  destruct (clusters_listed_in_order_first_seen [] [three_jobs_readers])
    as (_ & Hprocs & _).
  destruct (dict_get 1 (cluster_id_to_cluster
                          (tracker_after [] [three_jobs_readers])))
    as [cl|] eqn:Hget; [|discriminate Hget].
  exists cl. split; [reflexivity|]. rewrite (Hprocs 1 cl Hget). reflexivity.
Defined.

(** X6 at the key [TOTAL], which names no grouping attribute. *)
Lemma group_clusters_by_key_partitions_witness :
  (forall a, TOTAL <> GROUPBY_ATTRIBUTE_TO_AD_KEY a)
  /\ group_clusters_by_key [one_idle_job 9 None] TOTAL = Raise KeyError.
Proof.
  assert (Hkey : forall a, TOTAL <> GROUPBY_ATTRIBUTE_TO_AD_KEY a)
    by (intros a; destruct a; discriminate).
  split; [exact Hkey|].
  destruct (group_clusters_by_key_partitions [one_idle_job 9 None])
    as [_ Hraise].
  apply Hraise, Hkey.
Defined.

(** X8 at three clusters with two batch names. *)
Lemma one_row_for_each_group_witness :
  exists groups rows totals,
    group_clusters_by_key
      [one_idle_job 12 (Some "late"); one_idle_job 9 (Some "early");
       one_idle_job 15 (Some "early")] BATCH_NAME = Ok groups
    /\ make_rows_from_groups (fun p => p) groups BATCH_NAME = Ok (rows, totals)
    /\ keys rows = [VStr "late"; VStr "early"].
Proof.
  destruct (group_clusters_by_key
              [one_idle_job 12 (Some "late"); one_idle_job 9 (Some "early");
               one_idle_job 15 (Some "early")] BATCH_NAME)
    as [groups|e] eqn:Hgroups; [|discriminate Hgroups].
  destruct (one_row_for_each_group (fun p => p) _ By_batch_name groups Hgroups)
    as (rows & totals & Hmake & Hkeys & _).
  exists groups, rows, totals. split; [reflexivity|]. split; [exact Hmake|].
  rewrite Hkeys. injection Hgroups as <-. reflexivity.
Defined.

(** X9 at a node job of a DAG and a job outside the DAG: the total is
    1. *)
Lemma dag_totals_count_jobs_of_nodes_logs_witness :
  exists groups rows totals,
    aggregate (fun p => p) true By_batch_name
              [(6, "/home/user/dag.nodes.log")]
              (tracker_after [(6, Some "dag"); (7, Some "plain")]
                             dag_and_plain_submits)
    = Ok (groups, rows, totals)
    /\ totals_get TOTAL totals = 1.
Proof.
  destruct (aggregate (fun p => p) true By_batch_name
              [(6, "/home/user/dag.nodes.log")]
              (tracker_after [(6, Some "dag"); (7, Some "plain")]
                             dag_and_plain_submits))
    as [[[groups rows] totals]|e] eqn:Hagg; [|discriminate Hagg].
  exists groups, rows, totals. split; [reflexivity|].
  destruct (dag_totals_count_jobs_of_nodes_logs _ _ _ _ _ _ _ Hagg)
    as (_ & Htotal & _).
  rewrite Htotal. reflexivity.
Defined.

(** X12 at the condition [all,done,0] and a first tick without
    events. *)
Lemma all_and_none_hold_without_jobs_witness :
  exit_code (cli false ["/home/user/job.log"] [] [("all", "done", 0)]
                 [Events [("/home/user/job.log", [])]]) = Some 0.
Proof.
  destruct (make_exit_checks [("all", "done", 0)]) as [checks|e] eqn:Hchecks;
    [|discriminate Hchecks].
  destruct (all_and_none_hold_without_jobs false ["/home/user/job.log"] []
              "all" "done" 0 [] checks [("/home/user/job.log", [])] [])
    as [Hexit _].
  - discriminate.
  - exact Hchecks.
  - reflexivity.
  - apply Hexit. left. reflexivity.
Defined.

(** X13 at the two ways of writing the option of the table. *)
Lemma NegateAction_stores_false_witness :
  NegateAction "-table" = false /\ NegateAction "-no-table" = false.
Proof.
  split; apply NegateAction_stores_false; reflexivity.
Defined.

(** X14 at the value [all,done]: the exit status is [0]. *)
Lemma accepted_exit_conditions_give_exit_checks_witness :
  ExitConditions (fun _ => None) None "all,done"
  = Appended [("all", "done", 0)]
  /\ exists c, make_exit_checks [("all", "done", 0)] = Ok [c].
Proof.
  destruct (accepted_exit_conditions_give_exit_checks
              (fun _ => None) None "all,done" [("all", "done", 0)])
    as [Hiff Hchecks].
  assert (Hparse : ExitConditions (fun _ => None) None "all,done"
                   = Appended [("all", "done", 0)]).
  { apply Hiff. exists "all", "done", 0.
    split; [reflexivity|]. split; [reflexivity|]. split; [reflexivity|].
    left. split; reflexivity. }
  split; [exact Hparse|].
  apply (Hchecks []); [reflexivity|exact Hparse].
Defined.

(** X16 at a cell of a table in red. *)
Lemma strip_ansi_undoes_colorize_witness :
  strip_ansi (colorize "ID: 12  3 " RED) = "ID: 12  3 ".
Proof.
  destruct (strip_ansi_undoes_colorize "ID: 12  3 " eq_refl) as [_ Hcolor].
  apply Hcolor. cbn. tauto.
Defined.

(** X17 at the totals of three jobs and a width of 12. *)
Lemma stripped_bar_is_the_plain_bar_witness :
  exists bar,
    make_progress_bar three_jobs_totals 12 true = Ok [bar]
    /\ make_progress_bar three_jobs_totals 12 false = Ok ["[====---!!!]"]
    /\ strip_ansi bar = "[====---!!!]".
Proof.
  destruct (make_progress_bar three_jobs_totals 12 true)
    as [[|bar [|]]|e] eqn:Hbar; try discriminate Hbar.
  exists bar. split; [reflexivity|].
  pose proof (stripped_bar_is_the_plain_bar three_jobs_totals 12 bar Hbar)
    as Hplain.
  split.
  - rewrite Hplain. vm_compute in Hbar. injection Hbar as <-.
    vm_compute. reflexivity.
  - vm_compute in Hbar. injection Hbar as <-. vm_compute. reflexivity.
Defined.

(** X18 at one node job of a DAG. *)
Lemma found_logs_cover_the_dag_clusters_witness :
  exists found,
    find_job_event_logs (fun p => p) (fun _ => true) append
      ["/home/user/job.log"]
      [{| ClusterId := Some 6; JobBatchName := Some "dag";
          UserLog := Some "/home/user/node.log";
          DAGManNodesLog := Some "/home/user/dag.nodes.log";
          Iwd := Some "/home/user" |}] = Ok found
    /\ In "/home/user/dag.nodes.log" (found_event_logs found)
    /\ exists groups,
         group_jobs_by_dag [one_idle_job 6 (Some "dag")]
                           (found_dagman_clusters_to_path found)
                           (found_batch_names found) = Ok groups.
Proof.
  destruct (find_job_event_logs (fun p => p) (fun _ => true) append
              ["/home/user/job.log"]
              [{| ClusterId := Some 6; JobBatchName := Some "dag";
                  UserLog := Some "/home/user/node.log";
                  DAGManNodesLog := Some "/home/user/dag.nodes.log";
                  Iwd := Some "/home/user" |}])
    as [found|e] eqn:Hfind; [|discriminate Hfind].
  exists found. split; [reflexivity|].
  destruct (found_logs_cover_the_dag_clusters _ _ _ _ _ _ Hfind)
    as (_ & Hdag & Hgroups).
  split.
  - apply (Hdag 6). injection Hfind as <-. reflexivity.
  - apply Hgroups.
Defined.

(** X19 at the rows of two groups on a terminal of 80 columns: the
    two lines are 31 characters long. *)
Lemma plain_table_is_rectangular_witness :
  exists header lines,
    make_table (fun _ _ => Ok EmptyString) false 80
               [BATCH_NAME; Status IDLE; TOTAL; ACTIVE_JOBS]
               (values two_rows) "-" None = Ok (header :: lines)
    /\ Forall (fun line => String.length line = 31%nat) lines
    /\ List.length lines = 2%nat.
Proof.
  destruct (plain_table_is_rectangular (fun _ _ => Ok EmptyString) 80
              [BATCH_NAME; Status IDLE; TOTAL; ACTIVE_JOBS]
              (values two_rows) "-")
    as (header & lines & Htable & Hlen & Hlines & _).
  - discriminate.
  - exists header, lines. split; [exact Htable|]. split.
    + exact Hlines.
    + exact Hlen.
Defined.

(** X20 at a cluster id given without its option. *)
Lemma unknown_args_first_known_error_witness :
  check_unknown_args_for_known_errors
    (fun s => String.eqb s "1234" || String.eqb s "1235")
    ["-verbose"; "1234"; "1235"; "-x"]
  = Some ("1234", "to track specific cluster IDs, try -clusters 1234 1235").
Proof.
  destruct (unknown_args_first_known_error
              (fun s => String.eqb s "1234" || String.eqb s "1235")
              ["-verbose"; "1234"; "1235"; "-x"]) as (_ & Hfirst & _).
  apply Hfirst. exists ["-verbose"], ["1235"; "-x"].
  split; [reflexivity|]. split; [repeat constructor|].
  split; reflexivity.
Defined.

(* ================================================================== *)
(** * Properties that hold for every run *)
(* ================================================================== *)

(** ** No job is transferring output *)






(** ** The width of the progress bar *)

Lemma mapM_length {A B : Type} (f : A -> result B) l ys :
  mapM f l = Ok ys -> List.length ys = List.length l.
Proof.
  revert ys. induction l as [|x l IH]; intros ys Hmap.
  - now injection Hmap as <-.
  - cbn [mapM] in Hmap. destruct (f x) as [y|]; [|discriminate].
    cbn [bind] in Hmap. destruct (mapM f l) as [zs|]; [|discriminate].
    cbn [bind] in Hmap. injection Hmap as <-. cbn [List.length].
    now rewrite (IH zs eq_refl).
Qed.

Lemma add_at_length i d l l' :
  add_at i d l = Ok l' -> List.length l' = List.length l.
Proof.
  revert i l'. induction l as [|x l IH]; intros i l' Hadd;
    [destruct i; discriminate Hadd|].
  destruct i as [|i]; cbn [add_at] in Hadd.
  - now injection Hadd as <-.
  - destruct (add_at i d l) as [l''|] eqn:Hrec; [|discriminate].
    cbn [bind] in Hadd. injection Hadd as <-. cbn [List.length].
    now rewrite (IH i l'' Hrec).
Qed.

Lemma bar_section_lengths_length totals width lengths :
  bar_section_lengths totals width = Ok lengths -> List.length lengths = 6%nat.
Proof.
  unfold bar_section_lengths, truncated_lengths, bar_fractions.
  destruct (float_of_int (totals_get TOTAL totals)) as [num_total|];
    [|discriminate].
  cbn [bind].
  destruct (mapM _ [COMPLETED; RUNNING; IDLE; HELD; SUSPENDED; REMOVED])
    as [fractions|] eqn:Hfractions; [|discriminate].
  cbn [bind].
  destruct (mapM (section_length (effective_width width)) fractions)
    as [raw|] eqn:Hraw; [|discriminate].
  cbn [bind]. destruct (argmax raw) as [i|]; [|discriminate]. cbn [bind].
  intros Hadd. rewrite (add_at_length _ _ _ _ Hadd).
  rewrite (mapM_length _ _ _ Hraw). now rewrite (mapM_length _ _ _ Hfractions).
Qed.

Lemma length_string_times_char c n :
  String.length (string_times (String c EmptyString) n) = Z.to_nat n.
Proof.
  unfold string_times. induction (Z.to_nat n) as [|k IH]; [reflexivity|].
  cbn [repeat]. rewrite concat_empty_cons, string_length_app, IH. reflexivity.
Qed.

(** X22.  When no section of the bar has a negative length, the bar
    without colours is exactly as wide as asked, at most 79 characters:
    its length is [min(width, 79)], the two brackets included; and
    the bar with colours is as wide once its escape sequences are
    stripped. *)
Theorem plain_bar_fills_the_width totals width lengths :
  bar_section_lengths totals width = Ok lengths ->
  Forall (fun n => 0 <= n) lengths ->
  exists bar coloured,
    make_progress_bar totals width false = Ok [bar]
    /\ make_progress_bar totals width true = Ok [coloured]
    /\ strip_ansi coloured = bar
    /\ Z.of_nat (String.length bar) = Z.min width 79.
Proof.
  intros Hlengths Hpos.
  pose proof (bar_section_lengths_length _ _ _ Hlengths) as Hlen.
  pose proof (bar_section_lengths_sum _ _ _ Hlengths) as Hsum.
  destruct lengths as [|n1 [|n2 [|n3 [|n4 [|n5 [|n6 [|]]]]]]];
    try discriminate Hlen.
  unfold make_progress_bar. rewrite Hlengths. cbn [bind].
  cbn [PROGRESS_BAR_ORDER combine mapM bar_section fst snd
       PROGRESS_BAR_CHARS_AND_COLORS bind].
  eexists. eexists. split; [reflexivity|]. split; [reflexivity|]. split.
  - unfold strip_ansi.
    change ("[" ++ ?s ++ "]") with (String "[" (s ++ "]")).
    cbn [strip_ansi_from]. change (Ascii.eqb "[" (ascii_of_nat 27)) with false.
    cbn iota. rewrite !concat_empty_cons. cbn [String.concat].
    rewrite !string_app_assoc.
    repeat (rewrite strip_ansi_colorize;
            [|cbn; tauto|apply no_escape_string_times; reflexivity]).
    reflexivity.
  - change ("[" ++ ?s ++ "]") with (String "[" (s ++ "]")).
    cbn [String.length]. rewrite string_length_app.
    rewrite !concat_empty_cons. cbn [String.concat].
    rewrite !string_length_app, !length_string_times_char.
    cbn [String.length].
    unfold sum in Hsum. cbn [fold_left] in Hsum. unfold effective_width in Hsum.
    repeat match goal with
           | H : Forall _ (_ :: _) |- _ => inversion H; clear H; subst
           end.
    lia.
Qed.

(** ** The batch names of the clusters without a hint *)

Lemma string_of_Z_inj a b : string_of_Z a = string_of_Z b -> a = b.
Proof.
  unfold string_of_Z. intros Heq.
  assert (Hnil : forall z, Z.to_int z <> Decimal.Pos Decimal.Nil
                           /\ Z.to_int z <> Decimal.Neg Decimal.Nil).
  { intros z. split; intros Hz; pose proof (f_equal Z.of_int Hz) as Hz';
      rewrite DecimalZ.of_to in Hz'; cbn in Hz'; subst z; discriminate Hz. }
  apply (f_equal NilZero.int_of_string) in Heq.
  rewrite !NilZero.isi in Heq by apply Hnil.
  injection Heq as Heq. apply (f_equal Z.of_int) in Heq.
  now rewrite !DecimalZ.of_to in Heq.
Qed.

Lemma string_app_inv_head (p a b : string) : p ++ a = p ++ b -> a = b.
Proof.
  induction p as [|c p IH]; [tauto|]. cbn [append]. intros Heq.
  injection Heq as Heq. now apply IH.
Qed.

(** X23.  The batch name of a cluster without a hint (the hint is [None]
    or empty) is [ID: ] and its cluster id, so two such clusters with
    different ids have different batch names and are in different
    groups when the rows are grouped by batch name; a cluster with a
    hint that is not empty has the hint as its batch name. *)
Theorem clusters_without_hint_have_their_own_batch_name c1 c2 :
  (_batch_name c1 = None \/ _batch_name c1 = Some EmptyString) ->
  (_batch_name c2 = None \/ _batch_name c2 = Some EmptyString) ->
  cluster_id c1 <> cluster_id c2 ->
  batch_name c1 = "ID: " ++ string_of_Z (cluster_id c1)
  /\ batch_name c1 <> batch_name c2
  /\ getter By_batch_name c1 <> getter By_batch_name c2
  /\ forall hint c,
       _batch_name c = Some hint -> hint <> EmptyString ->
       batch_name c = hint.
Proof.
  intros H1 H2 Hne.
  assert (Hb : forall c,
            _batch_name c = None \/ _batch_name c = Some EmptyString ->
            batch_name c = "ID: " ++ string_of_Z (cluster_id c)).
  { intros c [Hc|Hc]; unfold batch_name; now rewrite Hc. }
  assert (Hdiff : batch_name c1 <> batch_name c2).
  { rewrite (Hb c1 H1), (Hb c2 H2). intros Heq.
    apply string_app_inv_head, string_of_Z_inj in Heq. contradiction. }
  split; [exact (Hb c1 H1)|]. split; [exact Hdiff|]. split.
  - cbn [getter]. congruence.
  - intros hint c Hc Hhint. unfold batch_name. rewrite Hc.
    destruct hint; [contradiction|reflexivity].
Qed.

(** ** The order of the rows has no ties *)





(** ** The exit conditions *)

Lemma JobStatus_eqb_eq a b : JobStatus_eqb a b = true <-> a = b.
Proof. destruct a, b; cbn; split; congruence. Qed.

Lemma is_active_In s : is_active s = true <-> In s ACTIVE_STATES.
Proof.
  unfold is_active. rewrite existsb_exists. split.
  - intros (x & Hx & Heq). apply JobStatus_eqb_eq in Heq. now subst.
  - intros Hin. exists s. split; [exact Hin|]. now apply JobStatus_eqb_eq.
Qed.

Lemma existsb_map_id {A : Type} (f : A -> bool) l :
  existsb (fun b => b) (map f l) = existsb f l.
Proof. induction l as [|x l IH]; [reflexivity|]. cbn. now rewrite IH. Qed.

Lemma forallb_map_id {A : Type} (f : A -> bool) l :
  forallb (fun b => b) (map f l) = forallb f l.
Proof. induction l as [|x l IH]; [reflexivity|]. cbn. now rewrite IH. Qed.

(** X25.  An exit condition means what its names say.  For a condition
    that [watch_q] builds a check from: with [all] it holds when every
    job of the tracker passes the check of the status, with [any] when
    some job does, with [none] when no job does; [active] checks that
    the status is one of [ACTIVE_STATES], [done] that it is
    [COMPLETED], [idle] that it is [IDLE], [held] that it is [HELD];
    and the names are read without regard to case. *)
Theorem exit_conditions_mean_their_names grouper checker status checks t :
  make_exit_checks [(grouper, checker, status)] = Ok checks ->
  exists c,
    checks = [c]
    /\ exit_status c = status
    /\ In (lower grouper) ["all"; "any"; "none"]
    /\ In (lower checker) ["active"; "done"; "idle"; "held"]
    /\ (satisfied t c = true
        <-> grouper_holds (lower grouper) (checker_holds (lower checker))
                          (job_states t)).
Proof.
  unfold make_exit_checks. cbn [mapM fst snd].
  destruct (EXIT_GROUPERS (lower grouper)) as [g|] eqn:Hg; [|discriminate].
  destruct (EXIT_JOB_STATUS_CHECK (lower checker)) as [k|] eqn:Hk;
    [|discriminate].
  cbn [bind]. intros Heq. injection Heq as <-.
  eexists. split; [reflexivity|]. split; [reflexivity|].
  assert (Hchecker : In (lower checker) ["active"; "done"; "idle"; "held"]
                     /\ forall s, k s = true
                                  <-> checker_holds (lower checker) s).
  { unfold EXIT_JOB_STATUS_CHECK in Hk. unfold checker_holds.
    destruct (String.eqb_spec (lower checker) "active") as [->|_].
    { injection Hk as <-. split; [cbn; tauto|]. intros s. apply is_active_In. }
    destruct (String.eqb_spec (lower checker) "done") as [->|_].
    { injection Hk as <-. split; [cbn; tauto|]. intros s.
      apply JobStatus_eqb_eq. }
    destruct (String.eqb_spec (lower checker) "idle") as [->|_].
    { injection Hk as <-. split; [cbn; tauto|]. intros s.
      apply JobStatus_eqb_eq. }
    destruct (String.eqb_spec (lower checker) "held") as [->|_];
      [|discriminate].
    injection Hk as <-. split; [cbn; tauto|]. intros s.
    apply JobStatus_eqb_eq. }
  destruct Hchecker as [Hname Hcheck].
  unfold satisfied. cbn [exit_grouper exit_check]. unfold grouper_holds.
  unfold EXIT_GROUPERS in Hg.
  destruct (String.eqb_spec (lower grouper) "all") as [->|_].
  { injection Hg as <-. split; [cbn; tauto|]. split; [exact Hname|].
    rewrite forallb_map_id, forallb_forall, Forall_forall.
    split; intros H s Hs; apply Hcheck, H, Hs. }
  destruct (String.eqb_spec (lower grouper) "any") as [->|_].
  { injection Hg as <-. split; [cbn; tauto|]. split; [exact Hname|].
    rewrite existsb_map_id, existsb_exists, Exists_exists.
    split; intros (s & Hs & H); exists s; (split; [exact Hs|]);
      now apply Hcheck. }
  destruct (String.eqb_spec (lower grouper) "none") as [->|_]; [|discriminate].
  injection Hg as <-. split; [cbn; tauto|]. split; [exact Hname|].
  rewrite existsb_map_id, negb_true_iff, Forall_forall. split.
  - intros Hnone s Hs Hp. apply Hcheck in Hp.
    assert (Hex : existsb k (job_states t) = true)
      by (apply existsb_exists; now exists s).
    congruence.
  - intros Hall. destruct (existsb k (job_states t)) eqn:Hex; [|reflexivity].
    apply existsb_exists in Hex. destruct Hex as (s & Hs & Hks).
    exfalso. apply (Hall s Hs). now apply Hcheck.
Qed.

(** ** Leaving the loop *)

Lemma loop_no_checks t ticks :
  (Forall (fun tick => ends_the_loop tick = false) ticks ->
   loop [] t ticks
   = Running (fold_left (fun t readers => snd (process_events t readers))
                        (readers_of ticks) t))
  /\ (forall r, loop [] t ticks = Left r ->
        (r = SystemExit 0 /\ In Interrupt ticks)
        \/ exists e, r = Error e /\ In (Failure e) ticks).
Proof.
  revert t. induction ticks as [|[readers| |e] ticks IH]; intros t.
  - split; [reflexivity|discriminate].
  - cbn [loop readers_of flat_map app fold_left].
    unfold first_satisfied. cbn [find].
    destruct (IH (snd (process_events t readers))) as [Hrun Hleft]. split.
    + intros Hall. apply Hrun. now inversion Hall.
    + intros r Hr. destruct (Hleft r Hr) as [[-> Hin]|(e & -> & Hin)].
      * left. split; [reflexivity|now right].
      * right. exists e. split; [reflexivity|now right].
  - split.
    + intros Hall. inversion Hall. discriminate.
    + cbn [loop]. intros r Hr. injection Hr as <-. left.
      split; [reflexivity|now left].
  - split.
    + intros Hall. inversion Hall. discriminate.
    + cbn [loop]. intros r Hr. injection Hr as <-. right. exists e.
      split; [reflexivity|now left].
Qed.

(** X26.  Without exit conditions [watch_q] never leaves on its own
    once it has event logs: as long as the ticks read events, whatever
    the events are, it stays in its loop, with the tracker that the
    events read so far give; when it leaves, it is by an interrupt,
    with status 0, or by an exception that a tick raised. *)
Theorem without_exit_conditions_only_interrupts_end logs names ticks :
  logs <> [] ->
  (Forall (fun tick => ends_the_loop tick = false) ticks ->
   watch_q logs names [] ticks
   = Running (tracker_after names (readers_of ticks)))
  /\ (forall r, watch_q logs names [] ticks = Left r ->
        (r = SystemExit 0 /\ In Interrupt ticks)
        \/ exists e, r = Error e /\ In (Failure e) ticks).
Proof.
  intros Hlogs. rewrite (watch_q_loop logs names [] [] ticks Hlogs eq_refl).
  apply loop_no_checks.
Qed.

Lemma process_events_without_failures t readers :
  snd (process_events t (without_failures readers))
  = snd (process_events t readers).
Proof.
  now rewrite !process_events_run, events_of_without_failures.
Qed.

Lemma loop_drop_failures checks t ticks :
  loop checks t (map drop_failures ticks) = loop checks t ticks.
Proof.
  revert t. induction ticks as [|[readers| |e] ticks IH]; intros t;
    cbn [map drop_failures loop]; try reflexivity.
  rewrite process_events_without_failures.
  destruct (first_satisfied checks (snd (process_events t readers)));
    [reflexivity|apply IH].
Qed.

(** X27.  Items that fail to parse change neither the tracker nor the
    way the program ends: [cli] leaves in the same way, with the same
    exit status, when every such item is taken out of what the readers
    give. *)
Theorem parse_failures_do_not_change_the_outcome
    debug logs names conds ticks :
  cli debug logs names conds (map drop_failures ticks)
  = cli debug logs names conds ticks
  /\ exit_code (cli debug logs names conds (map drop_failures ticks))
     = exit_code (cli debug logs names conds ticks).
Proof.
  assert (Heq : cli debug logs names conds (map drop_failures ticks)
                = cli debug logs names conds ticks).
  { unfold cli, watch_q.
    destruct (Nat.eqb (List.length logs) 0); [reflexivity|].
    destruct (make_exit_checks conds) as [checks|e]; [|reflexivity].
    now rewrite loop_drop_failures. }
  split; [exact Heq|now rewrite Heq].
Qed.

(** X22 at the totals of three jobs and a width of 12. *)
Lemma plain_bar_fills_the_width_witness :
  exists bar,
    make_progress_bar three_jobs_totals 12 false = Ok [bar]
    /\ Z.of_nat (String.length bar) = 12.
Proof.
  destruct (bar_section_lengths three_jobs_totals 12) as [lengths|e] eqn:Hlengths;
    [|discriminate Hlengths].
  destruct (plain_bar_fills_the_width three_jobs_totals 12 lengths Hlengths)
    as (bar & coloured & Hbar & _ & _ & Hwidth).
  - vm_compute in Hlengths. injection Hlengths as <-.
    repeat constructor; discriminate.
  - exists bar. split; [exact Hbar|exact Hwidth].
Defined.

(** X23 at clusters 9 and 12 without hints. *)
Lemma clusters_without_hint_have_their_own_batch_name_witness :
  batch_name (one_idle_job 9 None) = "ID: 9"
  /\ batch_name (one_idle_job 9 None) <> batch_name (one_idle_job 12 None).
Proof.
  destruct (clusters_without_hint_have_their_own_batch_name
              (one_idle_job 9 None) (one_idle_job 12 None))
    as (Hname & Hdiff & _).
  - now left.
  - now left.
  - discriminate.
  - split; [exact Hname|exact Hdiff].
Defined.

(** X25 at the condition [any,held,1] after the run of three jobs. *)
Lemma exit_conditions_mean_their_names_witness :
  exists c,
    make_exit_checks [("any", "held", 1)] = Ok [c]
    /\ satisfied (tracker_after [] [three_jobs_readers]) c = true.
Proof.
  destruct (make_exit_checks [("any", "held", 1)]) as [checks|e] eqn:Hchecks;
    [|discriminate Hchecks].
  destruct (exit_conditions_mean_their_names
              "any" "held" 1 checks (tracker_after [] [three_jobs_readers])
              Hchecks)
    as (c & -> & _ & _ & _ & Hsat).
  exists c. split; [reflexivity|].
  apply Hsat. cbn. right. left. reflexivity.
Defined.

(** X26 at two ticks that read events. *)
Lemma without_exit_conditions_only_interrupts_end_witness :
  exists t,
    watch_q ["/home/user/job.log"] [] [] [submit_tick; Events hold_readers]
    = Running t
    /\ job_status t 1 0 = Some HELD.
Proof.
  destruct (without_exit_conditions_only_interrupts_end
              ["/home/user/job.log"] [] [submit_tick; Events hold_readers])
    as [Hrun _].
  - discriminate.
  - eexists. split.
    + apply Hrun. repeat constructor.
    + reflexivity.
Defined.
